(** * A shallow embedding of the caching, rate-limiting proxy

    The development follows [proxy_server.py]: the statistics bag, the
    sliding-window rate limiter, the response cache, the request filter,
    the reply composition and the per-connection handler, over an explicit
    model of the key/value store they share.

    Conventions.
    - A Python [str] is a [string] whose characters are the code points
      below 256; [bytes] are lists of [ascii].
    - The clock is an integer number of seconds ([int(time.time())]).
    - Library functions that the program only calls ([hashlib.md5],
      [gzip.compress], [random.choice], the origin behind
      [session.request], the reason-phrase table of [requests]) are fields
      of an environment record; [base64] and [json] are modelled in full
      because the cache round trip depends on them. *)

From Stdlib Require Import ZArith NArith Ascii String List Bool Lia.
From Stdlib Require Import DecimalString DecimalN DecimalPos DecimalFacts.
From stdpp Require Import gmap strings list fin_maps.

Local Open Scope Z_scope.

Abbreviation bytes := (list ascii).

(** ** Python string helpers *)

Module PyStr.

(** [prefix.startswith]: [starts_with p s] is [s.startswith(p)]. *)
Fixpoint starts_with (p s : list ascii) : bool :=
  match p, s with
  | [], _ => true
  | _ :: _, [] => false
  | a :: p', b :: s' => if Ascii.eqb a b then starts_with p' s' else false
  end.

(** [sub in s] on strings. *)
Fixpoint contains_l (sub s : list ascii) : bool :=
  starts_with sub s ||
  match s with
  | [] => false
  | _ :: s' => contains_l sub s'
  end.

Definition contains (sub s : string) : bool :=
  contains_l (list_ascii_of_string sub) (list_ascii_of_string s).

Definition startswith (s p : string) : bool :=
  starts_with (list_ascii_of_string p) (list_ascii_of_string s).

(** [str.lower] on the code points below 256: the ASCII capitals and
    the Latin-1 capitals 0xC0-0xDE (0xD7, the multiplication sign,
    apart) move up by 32. *)
Definition lower_char (c : ascii) : ascii :=
  let n := N_of_ascii c in
  if ((65 <=? n) && (n <=? 90))%N then ascii_of_N (n + 32)
  else if ((192 <=? n) && (n <=? 222) && negb (n =? 215))%N
       then ascii_of_N (n + 32)
  else c.

Definition lower (s : string) : string :=
  string_of_list_ascii (map lower_char (list_ascii_of_string s)).

(** Truth value of a string: non-empty. *)
Definition nonempty (s : string) : bool :=
  match s with EmptyString => false | _ => true end.

End PyStr.

(** ** base64 (RFC 4648), as [base64.b64encode] / [base64.b64decode] *)

Module Base64.

Definition alphabet : list ascii := list_ascii_of_string
  "ABCDEFGHIJKLMNOPQRSTUVWXYZabcdefghijklmnopqrstuvwxyz0123456789+/".

Definition pad : ascii := "="%char.

(** A sextet, most significant bit first. *)
Definition sextet : Type := bool * bool * bool * bool * bool * bool.

Definition b2n (b : bool) : nat := if b then 1%nat else 0%nat.

Definition sextet_index (s : sextet) : nat :=
  let '(b5, b4, b3, b2, b1, b0) := s in
  (32 * b2n b5 + 16 * b2n b4 + 8 * b2n b3 + 4 * b2n b2 + 2 * b2n b1 + b2n b0)%nat.

Definition index_sextet (n : nat) : sextet :=
  (Nat.testbit n 5, Nat.testbit n 4, Nat.testbit n 3,
   Nat.testbit n 2, Nat.testbit n 1, Nat.testbit n 0).

Definition enc (s : sextet) : ascii := nth (sextet_index s) alphabet pad.

Fixpoint find_index (c : ascii) (l : list ascii) (i : nat) : option nat :=
  match l with
  | [] => None
  | x :: l' => if Ascii.eqb c x then Some i else find_index c l' (S i)
  end.

Definition dec (c : ascii) : option sextet :=
  index_sextet <$> find_index c alphabet 0%nat.

(** Three octets are four sextets.  [Ascii] lists its bits least
    significant first. *)
Definition split3 (a b c : ascii) : sextet * sextet * sextet * sextet :=
  let '(Ascii a0 a1 a2 a3 a4 a5 a6 a7) := a in
  let '(Ascii b0 b1 b2 b3 b4 b5 b6 b7) := b in
  let '(Ascii c0 c1 c2 c3 c4 c5 c6 c7) := c in
  ((a7, a6, a5, a4, a3, a2), (a1, a0, b7, b6, b5, b4),
   (b3, b2, b1, b0, c7, c6), (c5, c4, c3, c2, c1, c0)).

Definition join12 (s1 s2 : sextet) : ascii :=
  let '(a7, a6, a5, a4, a3, a2) := s1 in
  let '(a1, a0, _, _, _, _) := s2 in
  Ascii a0 a1 a2 a3 a4 a5 a6 a7.

Definition join23 (s2 s3 : sextet) : ascii :=
  let '(_, _, b7, b6, b5, b4) := s2 in
  let '(b3, b2, b1, b0, _, _) := s3 in
  Ascii b0 b1 b2 b3 b4 b5 b6 b7.

Definition join34 (s3 s4 : sextet) : ascii :=
  let '(_, _, _, _, c7, c6) := s3 in
  let '(c5, c4, c3, c2, c1, c0) := s4 in
  Ascii c0 c1 c2 c3 c4 c5 c6 c7.

Fixpoint b64encode (bs : bytes) : list ascii :=
  match bs with
  | [] => []
  | [a] =>
      let '(s1, s2, _, _) := split3 a zero zero in
      [enc s1; enc s2; pad; pad]
  | [a; b] =>
      let '(s1, s2, s3, _) := split3 a b zero in
      [enc s1; enc s2; enc s3; pad]
  | a :: b :: c :: rest =>
      let '(s1, s2, s3, s4) := split3 a b c in
      enc s1 :: enc s2 :: enc s3 :: enc s4 :: b64encode rest
  end.

(** [binascii.a2b_base64] in its default, non-strict mode: a state
    machine over the position in the current quad.  The state keeps the
    previous sextet (the C code keeps its low bits in [leftchar]) and
    the number of consecutive pad characters seen. *)
Inductive quad_pos : Type :=
| Q0
| Q1 (s1 : sextet)
| Q2 (s2 : sextet)
| Q3 (s3 : sextet).

(** [None] is [binascii.Error] (incorrect padding). *)
Fixpoint a2b_base64 (cs : list ascii) (q : quad_pos) (pads : nat) : option bytes :=
  match cs with
  | [] => match q with Q0 => Some [] | _ => None end
  | c :: cs' =>
      if Ascii.eqb c pad then
        match q with
        | Q2 _ => if (4 <=? 2 + S pads)%nat then Some [] else a2b_base64 cs' q (S pads)
        | Q3 _ => Some []
        | _ => a2b_base64 cs' q pads
        end
      else
        match dec c with
        | None => a2b_base64 cs' q pads
        | Some s =>
            match q with
            | Q0 => a2b_base64 cs' (Q1 s) 0%nat
            | Q1 s1 => cons (join12 s1 s) <$> a2b_base64 cs' (Q2 s) 0%nat
            | Q2 s2 => cons (join23 s2 s) <$> a2b_base64 cs' (Q3 s) 0%nat
            | Q3 s3 => cons (join34 s3 s) <$> a2b_base64 cs' Q0 0%nat
            end
        end
  end.

Definition is_ascii_char (c : ascii) : bool := (N_of_ascii c <? 128)%N.

(** [base64.b64decode(s)] on a [str]: a character outside ASCII is a
    [ValueError], bad padding a [binascii.Error]; both are [None]. *)
Definition b64decode (cs : list ascii) : option bytes :=
  if forallb is_ascii_char cs then a2b_base64 cs Q0 0%nat else None.

End Base64.

(** ** Python values and dictionaries *)

(** A [dict] with string keys: an association list in insertion order whose
    keys are pairwise distinct. *)
Module PyDict.

Section Ops.
Context {V : Type}.

Fixpoint get (k : string) (d : list (string * V)) : option V :=
  match d with
  | [] => None
  | (k', v) :: d' => if String.eqb k k' then Some v else get k d'
  end.

Definition has (k : string) (d : list (string * V)) : bool :=
  match get k d with Some _ => true | None => false end.

(** [d[k] = v]: an existing key keeps its place. *)
Fixpoint set (k : string) (v : V) (d : list (string * V)) : list (string * V) :=
  match d with
  | [] => [(k, v)]
  | (k', v') :: d' =>
      if String.eqb k k' then (k, v) :: d' else (k', v') :: set k v d'
  end.

(** [del d[k]] for a key that is present. *)
Fixpoint del (k : string) (d : list (string * V)) : list (string * V) :=
  match d with
  | [] => []
  | (k', v') :: d' => if String.eqb k k' then d' else (k', v') :: del k d'
  end.

(** [dict(pairs)]. *)
Definition of_pairs (l : list (string * V)) : list (string * V) :=
  fold_left (fun d kv => set (fst kv) (snd kv) d) l [].

Definition keys (d : list (string * V)) : list string := map fst d.

Definition wf (d : list (string * V)) : Prop := NoDup (keys d).

End Ops.

End PyDict.

#[warnings="-register-all"] Inductive pyval : Type :=
| PNone
| PBool (b : bool)
| PInt (z : Z)
| PFloat (lit : string)
| PStr (s : string)
| PBytes (b : bytes)
| PList (l : list pyval)
| PDict (d : list (string * pyval)).

(** Induction that reaches the values inside lists and dictionaries. *)
Section PyvalInd.
Variable P : pyval -> Prop.
Hypothesis HNone : P PNone.
Hypothesis HBool : forall b, P (PBool b).
Hypothesis HInt : forall z, P (PInt z).
Hypothesis HFloat : forall lit, P (PFloat lit).
Hypothesis HStr : forall s, P (PStr s).
Hypothesis HBytes : forall b, P (PBytes b).
Hypothesis HList : forall l, Forall P l -> P (PList l).
Hypothesis HDict : forall d, Forall (fun kv => P (snd kv)) d -> P (PDict d).

Fixpoint pyval_nested_ind (v : pyval) : P v :=
  match v with
  | PNone => HNone
  | PBool b => HBool b
  | PInt z => HInt z
  | PFloat lit => HFloat lit
  | PStr s => HStr s
  | PBytes b => HBytes b
  | PList l =>
      HList l ((fix go (l : list pyval) : Forall P l :=
                  match l with
                  | [] => @List.Forall_nil _ P
                  | x :: l' => @List.Forall_cons _ P x l' (pyval_nested_ind x) (go l')
                  end) l)
  | PDict d =>
      HDict d ((fix go (d : list (string * pyval)) : Forall (fun kv => P (snd kv)) d :=
                  match d with
                  | [] => @List.Forall_nil _ _
                  | kv :: d' => @List.Forall_cons _ _ kv d' (pyval_nested_ind (snd kv)) (go d')
                  end) d)
  end.
End PyvalInd.

(** Truth value of a Python object, as [if x:] takes it.  A float is
    kept as its literal: it is false when its mantissa has no non-zero
    digit. *)
Definition float_lit_truthy (lit : string) : bool :=
  let fix go (s : list ascii) : bool :=
    match s with
    | [] => false
    | c :: s' =>
        if (Ascii.eqb c "e" || Ascii.eqb c "E")%bool then false
        else if (Ascii.eqb c "N" || Ascii.eqb c "I")%bool then true
        else if ((49 <=? N_of_ascii c) && (N_of_ascii c <=? 57))%N then true
        else go s'
    end in
  go (list_ascii_of_string lit).

Definition truthy (v : pyval) : bool :=
  match v with
  | PNone => false
  | PBool b => b
  | PInt z => negb (z =? 0)
  | PFloat lit => float_lit_truthy lit
  | PStr s => PyStr.nonempty s
  | PBytes b => match b with [] => false | _ => true end
  | PList l => match l with [] => false | _ => true end
  | PDict d => match d with [] => false | _ => true end
  end.

(** ** json.dumps and json.loads *)

Module Json.

Definition chars (s : string) : list ascii := list_ascii_of_string s.

(** *** Encoder ([json.dumps] with its defaults, [ensure_ascii] on) *)

Definition dquote : ascii := ascii_of_N 34.
Definition bslash : ascii := ascii_of_N 92.

Definition hex_digit (n : N) : ascii :=
  if (n <? 10)%N then ascii_of_N (48 + n) else ascii_of_N (87 + n).

(** [ESCAPE_ASCII]: the short escapes of [ESCAPE_DCT], the printable
    ASCII characters as they are, everything else as [\u00xx]. *)
Definition escape_char (c : ascii) : list ascii :=
  let n := N_of_ascii c in
  if (n =? 34)%N then [bslash; dquote]
  else if (n =? 92)%N then chars "\\"
  else if (n =? 10)%N then chars "\n"
  else if (n =? 13)%N then chars "\r"
  else if (n =? 9)%N then chars "\t"
  else if (n =? 8)%N then chars "\b"
  else if (n =? 12)%N then chars "\f"
  else if ((32 <=? n) && (n <=? 126))%N then [c]
  else chars "\u00" ++ [hex_digit (n / 16); hex_digit (n mod 16)].

Definition escape_body (s : list ascii) : list ascii := concat (map escape_char s).

Definition quote_l (s : list ascii) : list ascii :=
  dquote :: escape_body s ++ [dquote].

Definition quote (s : string) : list ascii := quote_l (chars s).

Fixpoint print_uint (d : Decimal.uint) : list ascii :=
  match d with
  | Decimal.Nil => []
  | Decimal.D0 d => "0"%char :: print_uint d
  | Decimal.D1 d => "1"%char :: print_uint d
  | Decimal.D2 d => "2"%char :: print_uint d
  | Decimal.D3 d => "3"%char :: print_uint d
  | Decimal.D4 d => "4"%char :: print_uint d
  | Decimal.D5 d => "5"%char :: print_uint d
  | Decimal.D6 d => "6"%char :: print_uint d
  | Decimal.D7 d => "7"%char :: print_uint d
  | Decimal.D8 d => "8"%char :: print_uint d
  | Decimal.D9 d => "9"%char :: print_uint d
  end.

(** [str(n)] for an integer. *)
Definition print_int (z : Z) : list ascii :=
  match z with
  | Zneg p => "-"%char :: print_uint (N.to_uint (Npos p))
  | _ => print_uint (N.to_uint (Z.to_N z))
  end.

Definition item_sep : list ascii := chars ", ".
Definition key_sep : list ascii := chars ": ".

(** The elements of a non-empty list, closing bracket included. *)
Fixpoint join_elems (ts : list (list ascii)) : list ascii :=
  match ts with
  | [] => chars "]"
  | [t] => t ++ chars "]"
  | t :: ts' => t ++ item_sep ++ join_elems ts'
  end.

Definition member (kt : string * list ascii) : list ascii :=
  quote (fst kt) ++ key_sep ++ snd kt.

Fixpoint join_members (ms : list (string * list ascii)) : list ascii :=
  match ms with
  | [] => chars "}"
  | [m] => member m ++ chars "}"
  | m :: ms' => member m ++ item_sep ++ join_members ms'
  end.

(** Order of [str] values: by code point, a proper prefix first. *)
Fixpoint str_leb (a b : list ascii) : bool :=
  match a, b with
  | [], _ => true
  | _ :: _, [] => false
  | x :: a', y :: b' =>
      if (N_of_ascii x <? N_of_ascii y)%N then true
      else if (N_of_ascii y <? N_of_ascii x)%N then false
      else str_leb a' b'
  end.

Section Sort.
Context {V : Type}.

Fixpoint insert_by_key (kv : string * V) (l : list (string * V)) : list (string * V) :=
  match l with
  | [] => [kv]
  | kv' :: l' =>
      if str_leb (chars (fst kv')) (chars (fst kv)) then kv' :: insert_by_key kv l'
      else kv :: l
  end.

(** [sorted(d.items())] for distinct keys; stable. *)
Definition sort_by_key (l : list (string * V)) : list (string * V) :=
  fold_left (fun acc kv => insert_by_key kv acc) l [].
End Sort.

(** [None] is the [TypeError] that [json.dumps] raises on [bytes]. *)
Fixpoint dumps_l (sort_keys : bool) (v : pyval) : option (list ascii) :=
  match v with
  | PNone => Some (chars "null")
  | PBool true => Some (chars "true")
  | PBool false => Some (chars "false")
  | PInt z => Some (print_int z)
  | PFloat lit => Some (chars lit)
  | PStr s => Some (quote s)
  | PBytes _ => None
  | PList l =>
      ts ← mapM (dumps_l sort_keys) l;
      Some ("["%char :: join_elems ts)
  | PDict d =>
      ms ← mapM (fun kv => t ← dumps_l sort_keys (snd kv); Some (fst kv, t)) d;
      Some ("{"%char :: join_members (if sort_keys then sort_by_key ms else ms))
  end.

Definition dumps (v : pyval) : option string :=
  string_of_list_ascii <$> dumps_l false v.

Definition dumps_sorted (v : pyval) : option string :=
  string_of_list_ascii <$> dumps_l true v.

(** *** Decoder ([json.loads], strict) *)

Definition is_ws (c : ascii) : bool :=
  let n := N_of_ascii c in ((n =? 32) || (n =? 9) || (n =? 10) || (n =? 13))%N.

Fixpoint skip_ws (s : list ascii) : list ascii :=
  match s with
  | c :: s' => if is_ws c then skip_ws s' else s
  | [] => []
  end.

Definition hex_val (c : ascii) : option N :=
  let n := N_of_ascii c in
  if ((48 <=? n) && (n <=? 57))%N then Some (n - 48)%N
  else if ((97 <=? n) && (n <=? 102))%N then Some (n - 87)%N
  else if ((65 <=? n) && (n <=? 70))%N then Some (n - 55)%N
  else None.

(** [BACKSLASH]: the characters allowed after a backslash. *)
Definition unescape (c : ascii) : option ascii :=
  let n := N_of_ascii c in
  if (n =? 34)%N then Some c
  else if (n =? 92)%N then Some c
  else if (n =? 47)%N then Some c
  else if (n =? 98)%N then Some (ascii_of_N 8)
  else if (n =? 102)%N then Some (ascii_of_N 12)
  else if (n =? 110)%N then Some (ascii_of_N 10)
  else if (n =? 114)%N then Some (ascii_of_N 13)
  else if (n =? 116)%N then Some (ascii_of_N 9)
  else None.

(** [scanstring], from the character after the opening quote.  An
    escape that denotes a code point above 255 has no image in this
    model of [str] and is refused. *)
Fixpoint scanstring (s : list ascii) : option (list ascii * list ascii) :=
  match s with
  | [] => None
  | c :: r =>
      let n := N_of_ascii c in
      if (n =? 34)%N then Some ([], r)
      else if (n =? 92)%N then
        match r with
        | [] => None
        | e :: r1 =>
            if (N_of_ascii e =? 117)%N then
              match r1 with
              | h1 :: h2 :: h3 :: h4 :: r2 =>
                  a ← hex_val h1; b ← hex_val h2; c' ← hex_val h3; d ← hex_val h4;
                  if ((a =? 0) && (b =? 0))%N then
                    '(str, rest) ← scanstring r2;
                    Some (ascii_of_N (16 * c' + d) :: str, rest)
                  else None
              | _ => None
              end
            else
              x ← unescape e;
              '(str, rest) ← scanstring r1;
              Some (x :: str, rest)
        end
      else if (n <? 32)%N then None
      else '(str, rest) ← scanstring r; Some (c :: str, rest)
  end.

Definition digit_of (c : ascii) : option (Decimal.uint -> Decimal.uint) :=
  match N_of_ascii c with
  | 48 => Some Decimal.D0 | 49 => Some Decimal.D1 | 50 => Some Decimal.D2
  | 51 => Some Decimal.D3 | 52 => Some Decimal.D4 | 53 => Some Decimal.D5
  | 54 => Some Decimal.D6 | 55 => Some Decimal.D7 | 56 => Some Decimal.D8
  | 57 => Some Decimal.D9
  | _ => None
  end%N.

Definition is_digit (c : ascii) : bool :=
  match digit_of c with Some _ => true | None => false end.

(** The longest run of digits at the head, and what follows it. *)
Fixpoint read_uint (s : list ascii) : Decimal.uint * list ascii :=
  match s with
  | [] => (Decimal.Nil, [])
  | c :: r =>
      match digit_of c with
      | Some mk => let '(d, rest) := read_uint r in (mk d, rest)
      | None => (Decimal.Nil, s)
      end
  end.

(** The integer part of [NUMBER_RE]: [0], or a run of digits that does
    not begin with [0]. *)
Definition read_int_part (s : list ascii) : option (Decimal.uint * list ascii) :=
  match s with
  | [] => None
  | c :: r =>
      if (N_of_ascii c =? 48)%N then Some (Decimal.D0 Decimal.Nil, r)
      else if is_digit c then Some (read_uint s)
      else None
  end.

(** The optional fraction of [NUMBER_RE]: a dot and at least one digit. *)
Definition read_frac (s : list ascii) : list ascii * list ascii :=
  match s with
  | dot :: c :: r =>
      if ((N_of_ascii dot =? 46)%N && is_digit c)%bool then
        let '(d, rest) := read_uint (c :: r) in (dot :: print_uint d, rest)
      else ([], s)
  | _ => ([], s)
  end.

(** The optional exponent of [NUMBER_RE]. *)
Definition read_exp (s : list ascii) : list ascii * list ascii :=
  match s with
  | e :: r =>
      if ((N_of_ascii e =? 101) || (N_of_ascii e =? 69))%N then
        let '(sign, r1) :=
          match r with
          | sg :: r' =>
              if ((N_of_ascii sg =? 43) || (N_of_ascii sg =? 45))%N then ([sg], r')
              else ([], r)
          | [] => ([], r)
          end in
        match r1 with
        | c :: _ =>
            if is_digit c then
              let '(d, rest) := read_uint r1 in (e :: sign ++ print_uint d, rest)
            else ([], s)
        | [] => ([], s)
        end
      else ([], s)
  | [] => ([], s)
  end.

(** [match_number] after the optional sign: an integer becomes [PInt],
    a literal with a fraction or an exponent is kept as [PFloat]. *)
Definition match_unsigned (neg : bool) (s : list ascii) : option (pyval * list ascii) :=
  '(d, r1) ← read_int_part s;
  let '(frac, r2) := read_frac r1 in
  let '(exp, r3) := read_exp r2 in
  match frac, exp with
  | [], [] =>
      let n := Z.of_N (N.of_uint d) in
      Some (PInt (if neg then - n else n), r3)
  | _, _ =>
      let sign := if neg then ["-"%char] else [] in
      Some (PFloat (string_of_list_ascii (sign ++ print_uint d ++ frac ++ exp)), r3)
  end.

Definition match_number (s : list ascii) : option (pyval * list ascii) :=
  match s with
  | c :: r => if (N_of_ascii c =? 45)%N then match_unsigned true r else match_unsigned false s
  | [] => None
  end.

Definition strip_prefix (p : string) (s : list ascii) : option (list ascii) :=
  if PyStr.starts_with (chars p) s then Some (drop (String.length p) s) else None.

(** [scan_once], [JSONArray] and [JSONObject].  The fuel bounds the
    nesting of calls; [loads] supplies more than any document can use. *)
Fixpoint scan_once (fuel : nat) (s : list ascii) {struct fuel}
  : option (pyval * list ascii) :=
  match fuel with
  | O => None
  | S fuel' =>
      match s with
      | [] => None
      | c :: r =>
          let n := N_of_ascii c in
          if (n =? 34)%N then
            '(str, rest) ← scanstring r; Some (PStr (string_of_list_ascii str), rest)
          else if (n =? 123)%N then
            match skip_ws r with
            | c1 :: r1 =>
                if (N_of_ascii c1 =? 125)%N then Some (PDict [], r1)
                else if (N_of_ascii c1 =? 34)%N then
                  '(pairs, rest) ← object_items fuel' r1;
                  Some (PDict (PyDict.of_pairs pairs), rest)
                else None
            | [] => None
            end
          else if (n =? 91)%N then
            match skip_ws r with
            | c1 :: r1 =>
                if (N_of_ascii c1 =? 93)%N then Some (PList [], r1)
                else '(vs, rest) ← array_items fuel' (c1 :: r1); Some (PList vs, rest)
            | [] => None
            end
          else
            match strip_prefix "null" s, strip_prefix "true" s, strip_prefix "false" s with
            | Some rest, _, _ => Some (PNone, rest)
            | _, Some rest, _ => Some (PBool true, rest)
            | _, _, Some rest => Some (PBool false, rest)
            | _, _, _ =>
                match match_number s with
                | Some res => Some res
                | None =>
                    match strip_prefix "NaN" s, strip_prefix "Infinity" s,
                          strip_prefix "-Infinity" s with
                    | Some rest, _, _ => Some (PFloat "NaN", rest)
                    | _, Some rest, _ => Some (PFloat "Infinity", rest)
                    | _, _, Some rest => Some (PFloat "-Infinity", rest)
                    | _, _, _ => None
                    end
                end
            end
      end
  end
with array_items (fuel : nat) (s : list ascii) {struct fuel}
  : option (list pyval * list ascii) :=
  match fuel with
  | O => None
  | S fuel' =>
      '(v, r) ← scan_once fuel' s;
      match skip_ws r with
      | c :: r1 =>
          if (N_of_ascii c =? 93)%N then Some ([v], r1)
          else if (N_of_ascii c =? 44)%N then
            '(vs, rest) ← array_items fuel' (skip_ws r1); Some (v :: vs, rest)
          else None
      | [] => None
      end
  end
with object_items (fuel : nat) (s : list ascii) {struct fuel}
  : option (list (string * pyval) * list ascii) :=
  match fuel with
  | O => None
  | S fuel' =>
      '(k, r) ← scanstring s;
      match skip_ws r with
      | colon :: r1 =>
          if (N_of_ascii colon =? 58)%N then
            '(v, r2) ← scan_once fuel' (skip_ws r1);
            match skip_ws r2 with
            | c :: r3 =>
                if (N_of_ascii c =? 125)%N then Some ([(string_of_list_ascii k, v)], r3)
                else if (N_of_ascii c =? 44)%N then
                  match skip_ws r3 with
                  | q :: r4 =>
                      if (N_of_ascii q =? 34)%N then
                        '(kvs, rest) ← object_items fuel' r4;
                        Some ((string_of_list_ascii k, v) :: kvs, rest)
                      else None
                  | [] => None
                  end
                else None
            | [] => None
            end
          else None
      | [] => None
      end
  end.

(** [json.loads]: one value between optional white space; [None] is
    [JSONDecodeError]. *)
Definition loads (s : string) : option pyval :=
  let cs := chars s in
  '(v, rest) ← scan_once (2 * length cs + 2) (skip_ws cs);
  match skip_ws rest with
  | [] => Some v
  | _ :: _ => None
  end.

(** *** The values that [dumps] and [loads] carry faithfully

    No [bytes] (a [TypeError] in [dumps]), no float (its literal is not
    interpreted), and dictionaries with pairwise distinct keys. *)

Fixpoint distinct (l : list string) : bool :=
  match l with
  | [] => true
  | k :: l' => negb (existsb (String.eqb k) l') && distinct l'
  end.

Fixpoint jsonable (v : pyval) : bool :=
  match v with
  | PNone | PBool _ | PInt _ | PStr _ => true
  | PFloat _ | PBytes _ => false
  | PList l => forallb jsonable l
  | PDict d => distinct (map fst d) && forallb (fun kv => jsonable (snd kv)) d
  end.

(** The values that [dumps] accepts: those without [bytes]. *)
Fixpoint encodable (v : pyval) : bool :=
  match v with
  | PBytes _ => false
  | PList l => forallb encodable l
  | PDict d => forallb (fun kv => encodable (snd kv)) d
  | _ => true
  end.

(** Number of nested decoder calls that a value needs. *)
Fixpoint weight (v : pyval) : nat :=
  match v with
  | PList l => S (list_sum (map (fun x => S (weight x)) l))
  | PDict d => S (list_sum (map (fun kv => S (weight (snd kv))) d))
  | _ => 1
  end.

(** *** Notions used to state the round trip *)

Definition no_digit_head (s : list ascii) : Prop :=
  match s with [] => True | c :: _ => is_digit c = false end.

(** What may follow a value inside a document. *)
Definition is_delim (c : ascii) : bool :=
  let n := N_of_ascii c in ((n =? 44) || (n =? 93) || (n =? 125))%N.

Definition tail_ok (s : list ascii) : Prop :=
  match s with [] => True | c :: _ => is_delim c = true end.

(** The first character of a printed integer. *)
Definition number_head (c : ascii) : bool :=
  (is_digit c || (N_of_ascii c =? 45)%N)%bool.

Definition head_ok (t : list ascii) : Prop :=
  match t with
  | [] => False
  | c :: _ => is_ws c = false /\ (N_of_ascii c =? 93)%N = false
  end.

Definition round_trips (v : pyval) : Prop :=
  jsonable v = true ->
  forall t, dumps_l false v = Some t ->
    head_ok t /\ (weight v <= S (length t))%nat /\
    forall fuel rest, (weight v <= fuel)%nat -> tail_ok rest ->
      scan_once fuel (t ++ rest) = Some (v, rest).

Definition need {A} (w : A -> nat) (l : list A) : nat :=
  list_sum (map (fun x => S (w x)) l).

Definition dump_member (kv : string * pyval) : option (string * list ascii) :=
  t ← dumps_l false (snd kv); Some (fst kv, t).

End Json.

(** ** Exceptions and results *)

Inductive exn : Type :=
| SocketTimeout          (* socket.timeout on the client socket *)
| SocketError            (* any other OSError on the client socket *)
| OriginTimeout          (* requests.exceptions.Timeout *)
| OriginTransportError   (* any other requests.exceptions.RequestException *)
| RedisConnectionError   (* redis.exceptions.ConnectionError *)
| RedisResponseError     (* redis.exceptions.ResponseError *)
| TypeError
| ValueError
| BinasciiError
| IndexError
| AttributeError
| JSONDecodeError
| OtherError.

Inductive result (A : Type) : Type :=
| Ok (a : A)
| Raise (e : exn).
Arguments Ok {A} a.
Arguments Raise {A} e.

(** ** The key/value store

    A key holds a string or a sorted set, and may carry an expiry time.
    An entry whose time has come is no longer seen by any command. *)

Module Redis.

Inductive rval : Type :=
| RString (s : string)
| RZSet (members : gmap string Z).

Record entry : Type := { value : rval; expires : option Z }.

Definition live (now : Z) (e : entry) : bool :=
  match expires e with
  | Some t => now <? t
  | None => true
  end.

Definition lookup (now : Z) (k : string) (db : gmap string entry) : option entry :=
  match db !! k with
  | Some e => if live now e then Some e else None
  | None => None
  end.

(** [GET]: [Ok None] is the nil reply. *)
Definition get (now : Z) (k : string) (db : gmap string entry) : result (option string) :=
  match lookup now k db with
  | None => Ok None
  | Some {| value := RString s |} => Ok (Some s)
  | Some {| value := RZSet _ |} => Raise RedisResponseError
  end.

(** [SETEX key ttl value]: a time to live that is not positive is refused. *)
Definition setex (now : Z) (k : string) (ttl : Z) (v : string) (db : gmap string entry)
  : result unit * gmap string entry :=
  if ttl <=? 0 then (Raise RedisResponseError, db)
  else (Ok tt, <[k := {| value := RString v; expires := Some (now + ttl) |}]> db).

Definition del (k : string) (db : gmap string entry) : gmap string entry :=
  delete k db.

(** The keys that [SCAN] with pattern [*] reports. *)
Definition scan (now : Z) (db : gmap string entry) : list string :=
  map fst (map_to_list (filter (fun kv => live now (snd kv) = true) db)).

(** [ZREMRANGEBYSCORE key lo hi]; a sorted set left empty is removed. *)
Definition zremrangebyscore (now : Z) (k : string) (lo hi : Z) (db : gmap string entry)
  : result Z * gmap string entry :=
  match lookup now k db with
  | None => (Ok 0, db)
  | Some {| value := RString _ |} => (Raise RedisResponseError, db)
  | Some {| value := RZSet z; expires := ex |} =>
      let keep := filter (fun ms => negb ((lo <=? snd ms) && (snd ms <=? hi)) = true) z in
      let removed := Z.of_nat (size z) - Z.of_nat (size keep) in
      if decide (size keep = 0%nat) then (Ok removed, delete k db)
      else (Ok removed, <[k := {| value := RZSet keep; expires := ex |}]> db)
  end.

(** [ZADD key score member]: a member already present only changes score. *)
Definition zadd (now : Z) (k : string) (member : string) (score : Z) (db : gmap string entry)
  : result Z * gmap string entry :=
  match lookup now k db with
  | None =>
      (Ok 1, <[k := {| value := RZSet {[member := score]}; expires := None |}]> db)
  | Some {| value := RString _ |} => (Raise RedisResponseError, db)
  | Some {| value := RZSet z; expires := ex |} =>
      (Ok (match z !! member with Some _ => 0 | None => 1 end),
       <[k := {| value := RZSet (<[member := score]> z); expires := ex |}]> db)
  end.

Definition zcard (now : Z) (k : string) (db : gmap string entry) : result Z :=
  match lookup now k db with
  | None => Ok 0
  | Some {| value := RString _ |} => Raise RedisResponseError
  | Some {| value := RZSet z |} => Ok (Z.of_nat (size z))
  end.

(** [EXPIRE key ttl]: a time to live that is not positive removes the key. *)
Definition expire (now : Z) (k : string) (ttl : Z) (db : gmap string entry)
  : result Z * gmap string entry :=
  match lookup now k db with
  | None => (Ok 0, db)
  | Some e =>
      if ttl <=? 0 then (Ok 1, delete k db)
      else (Ok 1, <[k := {| value := value e; expires := Some (now + ttl) |}]> db)
  end.

(** The store once [DEL] has run on each of [keys]. *)
Definition delete_all (keys : list string) (db : gmap string entry) : gmap string entry :=
  fold_left (fun db k => del k db) keys db.

End Redis.

(** ** The world the server runs in *)

Inductive level : Type := INFO | WARNING | ERROR.

(** A client socket: what was written to it, whether this side closed it,
    and whether the peer still reads. *)
Record socket : Type := {
  peer_open : bool;
  sent : list bytes;
  closed : bool
}.

Record world : Type := {
  now : Z;                                   (* the clock, in seconds *)
  redis_up : bool;                           (* the store answers *)
  store : gmap string Redis.entry;
  stats : gmap string Z;                     (* Statistics._stats, the counters *)
  request_methods : gmap string Z;           (* Statistics._stats["request_methods"] *)
  sockets : gmap nat socket;                 (* client sockets, by connection *)
  request_queue : list (nat * string);       (* (client_socket, client_ip) *)
  log : list (level * string)
}.

Definition set_store (db : gmap string Redis.entry) (w : world) : world :=
  {| now := now w; redis_up := redis_up w; store := db; stats := stats w;
     request_methods := request_methods w; sockets := sockets w;
     request_queue := request_queue w; log := log w |}.

Definition set_stats (s : gmap string Z) (w : world) : world :=
  {| now := now w; redis_up := redis_up w; store := store w; stats := s;
     request_methods := request_methods w; sockets := sockets w;
     request_queue := request_queue w; log := log w |}.

Definition set_request_methods (m : gmap string Z) (w : world) : world :=
  {| now := now w; redis_up := redis_up w; store := store w; stats := stats w;
     request_methods := m; sockets := sockets w;
     request_queue := request_queue w; log := log w |}.

Definition set_sockets (s : gmap nat socket) (w : world) : world :=
  {| now := now w; redis_up := redis_up w; store := store w; stats := stats w;
     request_methods := request_methods w; sockets := s;
     request_queue := request_queue w; log := log w |}.

Definition set_request_queue (q : list (nat * string)) (w : world) : world :=
  {| now := now w; redis_up := redis_up w; store := store w; stats := stats w;
     request_methods := request_methods w; sockets := sockets w;
     request_queue := q; log := log w |}.

Definition set_log (l : list (level * string)) (w : world) : world :=
  {| now := now w; redis_up := redis_up w; store := store w; stats := stats w;
     request_methods := request_methods w; sockets := sockets w;
     request_queue := request_queue w; log := l |}.

(** The clock moves on by [d] seconds. *)
Definition advance (d : Z) (w : world) : world :=
  {| now := now w + d; redis_up := redis_up w; store := store w; stats := stats w;
     request_methods := request_methods w; sockets := sockets w;
     request_queue := request_queue w; log := log w |}.

(** ** Computations: state and exceptions

    A raised exception keeps the state reached so far, as in Python. *)

Definition M (A : Type) : Type := world -> result A * world.

#[global] Instance M_ret : MRet M := fun A a w => (Ok a, w).

#[global] Instance M_bind : MBind M := fun A B k m w =>
  match m w with
  | (Ok a, w') => k a w'
  | (Raise e, w') => (Raise e, w')
  end.

Definition raise {A : Type} (e : exn) : M A := fun w => (Raise e, w).

(** [try: m except Exception as e: h e]. *)
Definition try_except {A : Type} (m : M A) (h : exn -> M A) : M A := fun w =>
  match m w with
  | (Ok a, w') => (Ok a, w')
  | (Raise e, w') => h e w'
  end.

(** [try: m finally: f], for a final block that does not raise. *)
Definition try_finally {A : Type} (m : M A) (f : M unit) : M A := fun w =>
  match m w with
  | (r, w') => (r, snd (f w'))
  end.

Definition logger (l : level) (msg : string) : M unit := fun w =>
  (Ok tt, set_log (log w ++ [(l, msg)]) w).

(** ** Store commands issued by the server *)

Definition redis_get (k : string) : M (option string) := fun w =>
  if redis_up w then (Redis.get (now w) k (store w), w)
  else (Raise RedisConnectionError, w).

Definition redis_setex (k : string) (ttl : Z) (v : string) : M unit := fun w =>
  if redis_up w then
    let '(r, db) := Redis.setex (now w) k ttl v (store w) in (r, set_store db w)
  else (Raise RedisConnectionError, w).

Definition redis_delete (k : string) : M unit := fun w =>
  if redis_up w then (Ok tt, set_store (Redis.del k (store w)) w)
  else (Raise RedisConnectionError, w).

Definition redis_scan : M (list string) := fun w =>
  if redis_up w then (Ok (Redis.scan (now w) (store w)), w)
  else (Raise RedisConnectionError, w).

(** ** Client sockets *)

Definition sendall (c : nat) (data : bytes) : M unit := fun w =>
  match sockets w !! c with
  | Some s =>
      if (peer_open s && negb (closed s))%bool then
        (Ok tt, set_sockets (<[c := {| peer_open := peer_open s;
                                        sent := sent s ++ [data];
                                        closed := closed s |}]> (sockets w)) w)
      else (Raise SocketError, w)
  | None => (Raise SocketError, w)
  end.

Definition close (c : nat) : M unit := fun w =>
  match sockets w !! c with
  | Some s =>
      (Ok tt, set_sockets (<[c := {| peer_open := peer_open s; sent := sent s;
                                      closed := true |}]> (sockets w)) w)
  | None => (Ok tt, w)
  end.

(** ** Statistics *)

Module Statistics.

Definition initial (start_time : Z) : gmap string Z :=
  list_to_map
    [("requests_total", 0); ("requests_success", 0); ("requests_error", 0);
     ("bytes_transferred", 0); ("cache_hits", 0); ("cache_misses", 0);
     ("active_connections", 0); ("rate_limited_requests", 0);
     ("start_time", start_time)].

Definition initial_methods : gmap string Z :=
  list_to_map [("GET", 0); ("POST", 0); ("PUT", 0); ("DELETE", 0); ("OTHER", 0)].

(** [increment] and [decrement]: a name that is not a key of [_stats] is
    ignored.  [stats] holds the eight integer counters and [start_time];
    the tenth key of [_stats], [request_methods], holds a dictionary and
    lives in a field of its own.  The server passes the eight counters
    only.  Passing [request_methods] raises [TypeError] in the source and
    is ignored here, and [start_time] is a float in the source and whole
    seconds here; the properties below are about the eight counters. *)
Definition increment (stat : string) (value : Z) : M unit := fun w =>
  match stats w !! stat with
  | Some v => (Ok tt, set_stats (<[stat := v + value]> (stats w)) w)
  | None => (Ok tt, w)
  end.

Definition decrement (stat : string) (value : Z) : M unit := fun w =>
  match stats w !! stat with
  | Some v => (Ok tt, set_stats (<[stat := v - value]> (stats w)) w)
  | None => (Ok tt, w)
  end.

Definition update_method_stat (method : string) : M unit := fun w =>
  let m := request_methods w in
  match m !! method with
  | Some v => (Ok tt, set_request_methods (<[method := v + 1]> m) w)
  | None =>
      (Ok tt, set_request_methods (<["OTHER" := default 0 (m !! "OTHER") + 1]> m) w)
  end.

(** The value of a counter; a counter that is absent reads 0. *)
Definition counter (stat : string) (w : world) : Z := default 0 (stats w !! stat).

End Statistics.

(** ** Configuration and environment *)

Record config : Type := {
  CONNECTION_TIMEOUT : Z;
  CACHE_EXPIRATION : Z;
  BACKEND_SERVERS : list string;
  ENABLE_COMPRESSION : bool;
  RATE_LIMIT_REQUESTS : Z;
  RATE_LIMIT_WINDOW : Z;
  REQUEST_FILTERS : list string
}.

Definition DEFAULT_CONFIG : config := {|
  CONNECTION_TIMEOUT := 30;
  CACHE_EXPIRATION := 300;
  BACKEND_SERVERS := ["http://localhost:8000"];
  ENABLE_COMPRESSION := true;
  RATE_LIMIT_REQUESTS := 100;
  RATE_LIMIT_WINDOW := 60;
  REQUEST_FILTERS := ["ads"; "trackers"; "malware"]
|}.

(** What the origin does with a forwarded request. *)
Inductive origin_outcome : Type :=
| OriginResponse (status : Z) (headers : list (string * string)) (content : bytes)
| OriginTimesOut
| OriginTransportFails
| OriginOtherFailure.

(** The library functions and the outside world that the server calls. *)
Record env : Type := {
  md5_hexdigest : string -> string;
  utf8_decode_ignore : bytes -> string;
  gzip_compress : bytes -> bytes;
  (* requests.status_codes._codes[code][0]; None is KeyError *)
  status_phrase : Z -> option string;
  (* json.dumps(statistics.get_stats(), indent=2) at a given time *)
  render_stats : gmap string Z -> gmap string Z -> Z -> string;
  (* the draw of random.choice *)
  random_index : nat;
  (* session.request(method, url, headers, data) *)
  origin : string -> string -> list (string * string) -> option bytes -> origin_outcome
}.

Definition crlf : string := String (ascii_of_N 13) (String (ascii_of_N 10) EmptyString).

(** [str(n)] for an integer. *)
Definition str_of_int (z : Z) : string := string_of_list_ascii (Json.print_int z).

Definition utf8_encode_char (c : ascii) : bytes :=
  let n := N_of_ascii c in
  if (n <? 128)%N then [c]
  else [ascii_of_N (192 + n / 64); ascii_of_N (128 + n mod 64)].

(** [s.encode('utf-8')]. *)
Definition encode_utf8 (s : string) : bytes :=
  concat (map utf8_encode_char (list_ascii_of_string s)).

Definition bytes_truthy (b : option bytes) : bool :=
  match b with
  | Some (_ :: _) => true
  | _ => false
  end.

(** [needle in x] for a string [needle]; [None] is [TypeError]. *)
Definition py_in (needle : string) (x : pyval) : option bool :=
  match x with
  | PStr s => Some (PyStr.contains needle s)
  | PList l =>
      Some (existsb (fun v => match v with PStr s => String.eqb needle s | _ => false end) l)
  | PDict d => Some (PyDict.has needle d)
  | _ => None
  end.

(** [f"{v}"] for a string, an integer, a boolean and [None].  Python
    prints a float, bytes, a list and a dictionary as well; here they
    give [None], which the callers treat as an exception.  Header values
    that come from the origin are strings; another value can only come
    out of a cache entry that [cache_response] did not write. *)
Definition py_format (v : pyval) : option string :=
  match v with
  | PStr s => Some s
  | PInt z => Some (str_of_int z)
  | PNone => Some "None"
  | PBool true => Some "True"
  | PBool false => Some "False"
  | _ => None
  end.

Fixpoint for_each {A : Type} (l : list A) (body : A -> M unit) : M unit :=
  match l with
  | [] => mret tt
  | x :: l' => body x;; for_each l' body
  end.

(** ** RateLimiter *)

Section RateLimiter.
Variable cfg : config.

Definition rate_limit_key (client_ip : string) : string :=
  String.append "rate_limit:" client_ip.

(** The four commands run as one pipeline; a command that fails makes
    [execute] raise once all of them have run. *)
Definition is_rate_limited (client_ip : string) : M bool := fun w =>
  let current_time := now w in
  let key := rate_limit_key client_ip in
  if redis_up w then
    let '(r1, db1) :=
      Redis.zremrangebyscore (now w) key 0 (current_time - RATE_LIMIT_WINDOW cfg) (store w) in
    let '(r2, db2) := Redis.zadd (now w) key (str_of_int current_time) current_time db1 in
    let r3 := Redis.zcard (now w) key db2 in
    let '(r4, db3) := Redis.expire (now w) key (RATE_LIMIT_WINDOW cfg) db2 in
    match r1, r2, r3, r4 with
    | Ok _, Ok _, Ok request_count, Ok _ =>
        (Ok (RATE_LIMIT_REQUESTS cfg <? request_count), set_store db3 w)
    | _, _, _, _ => (Raise RedisResponseError, set_store db3 w)
    end
  else (Raise RedisConnectionError, w).

End RateLimiter.

(** ** CacheManager *)

(** The record built by [_forward_request] from the origin's answer. *)
Record response : Type := {
  resp_status_code : Z;
  resp_headers : list (string * string);
  resp_content : bytes;
  resp_url : string
}.

Definition headers_dict (hs : list (string * string)) : list (string * pyval) :=
  map (fun kv => (fst kv, PStr (snd kv))) hs.

(** The dictionary [response_data]. *)
Definition response_dict (r : response) : list (string * pyval) :=
  [("status_code", PInt (resp_status_code r));
   ("headers", PDict (headers_dict (resp_headers r)));
   ("content", PBytes (resp_content r));
   ("url", PStr (resp_url r))].

Section CacheManager.
Variable E : env.
Variable cfg : config.

Definition relevant_header (k : string) : bool :=
  (String.eqb k "accept" || String.eqb k "accept-language" ||
   String.eqb k "accept-encoding")%bool.

(** [{k.lower(): v for k, v in headers.items() if k.lower() in [...]}]. *)
Definition cache_headers (headers : list (string * string)) : list (string * pyval) :=
  fold_left
    (fun d kv =>
       let k := PyStr.lower (fst kv) in
       if relevant_header k then PyDict.set k (PStr (snd kv)) d else d)
    headers [].

Definition _generate_cache_key (method url : string) (headers : list (string * string))
    (body : option bytes) : M string :=
  let key_components :=
    [("method", PStr method); ("url", PStr url); ("headers", PDict (cache_headers headers))] in
  let key_components :=
    match body with
    | Some b =>
        if (negb (String.eqb method "GET") && bytes_truthy body)%bool
        then PyDict.set "body" (PStr (utf8_decode_ignore E b)) key_components
        else key_components
    | None => key_components
    end in
  match Json.dumps_sorted (PDict key_components) with
  | Some key_str => mret (md5_hexdigest E key_str)
  | None => raise TypeError
  end.

(** What follows a successful [json.loads] in [get_cached_response]. *)
Definition restore_content (cached_response : pyval) : M (option pyval) :=
  match cached_response with
  | PDict d =>
      match PyDict.get "content_base64" d with
      | Some (PStr b64) =>
          match Base64.b64decode (list_ascii_of_string b64) with
          | Some content =>
              mret (Some (PDict (PyDict.del "content_base64"
                                   (PyDict.set "content" (PBytes content) d))))
          | None => raise BinasciiError
          end
      | Some _ => raise TypeError
      | None => mret (Some cached_response)
      end
  | PStr _ | PList _ =>
      match py_in "content_base64" cached_response with
      | Some true => raise TypeError
      | _ => mret (Some cached_response)
      end
  | _ => raise TypeError
  end.

Definition get_cached_response (method url : string) (headers : list (string * string))
    (body : option bytes) : M (option pyval) :=
  if negb (String.eqb method "GET") then mret None
  else
    cache_key ← _generate_cache_key method url headers body;
    cached_data ← redis_get cache_key;
    match cached_data with
    | Some data =>
        if PyStr.nonempty data then
          Statistics.increment "cache_hits" 1;;
          match Json.loads data with
          | Some cached_response => restore_content cached_response
          | None => Statistics.increment "cache_misses" 1;; mret None
          end
        else Statistics.increment "cache_misses" 1;; mret None
    | None => Statistics.increment "cache_misses" 1;; mret None
    end.

Definition cache_response (method url : string) (headers : list (string * string))
    (response_data : response) (body : option bytes) : M unit :=
  if negb (String.eqb method "GET") then mret tt
  else
    cache_key ← _generate_cache_key method url headers body;
    if 400 <=? resp_status_code response_data then mret tt
    else
      let cache_control :=
        default EmptyString (PyDict.get "Cache-Control" (resp_headers response_data)) in
      if (PyStr.contains "no-store" cache_control ||
          PyStr.contains "no-cache" cache_control)%bool then mret tt
      else
        let cache_data := response_dict response_data in
        let cache_data :=
          PyDict.del "content"
            (PyDict.set "content_base64"
               (PStr (string_of_list_ascii (Base64.b64encode (resp_content response_data))))
               cache_data) in
        try_except
          (match Json.dumps (PDict cache_data) with
           | Some text => redis_setex cache_key (CACHE_EXPIRATION cfg) text
           | None => raise TypeError
           end)
          (fun e =>
             match e with
             | TypeError | JSONDecodeError => logger ERROR "Error caching response"
             | _ => raise e
             end).

Definition invalidate_matching (url_pattern key : string) : M unit :=
  try_except
    (cached_data ← redis_get key;
     match cached_data with
     | Some text =>
         if PyStr.nonempty text then
           match Json.loads text with
           | Some (PDict d) =>
               match py_in url_pattern (default (PStr EmptyString) (PyDict.get "url" d)) with
               | Some true => redis_delete key
               | Some false => mret tt
               | None => raise TypeError
               end
           | Some _ => raise AttributeError
           | None => raise JSONDecodeError
           end
         else mret tt
     | None => mret tt
     end)
    (fun e =>
       match e with
       | TypeError | JSONDecodeError => mret tt
       | _ => raise e
       end).

Definition invalidate_cache (url_pattern : option string) : M unit :=
  match url_pattern with
  | Some p =>
      if PyStr.nonempty p then
        keys ← redis_scan; for_each keys (invalidate_matching p)
      else
        keys ← redis_scan; for_each keys redis_delete
  | None =>
      keys ← redis_scan; for_each keys redis_delete
  end.

End CacheManager.

(** ** RequestFilter *)

Module RequestFilter.

Fixpoint matches_any (rules : list string) (url_lower : string) : bool :=
  match rules with
  | [] => false
  | rule :: rules' =>
      if (PyStr.nonempty rule && PyStr.contains (PyStr.lower rule) url_lower)%bool then true
      else matches_any rules' url_lower
  end.

Definition should_filter (filter_rules : list string) (url : string)
    (headers : list (string * string)) : bool :=
  match filter_rules with
  | [] => false
  | _ => matches_any filter_rules (PyStr.lower url)
  end.

End RequestFilter.

(** ** ProxyServer *)

(** How the read and parse phase of [_handle_client_request] ended. *)
Inductive read_outcome : Type :=
| ReadRaises (e : exn)                 (* [recv] raised *)
| ReadNothing                          (* the peer closed before sending a byte *)
| ReadBadRequestLine                   (* the first line is not three tokens *)
| ReadRequest (method path : string) (headers : list (string * string))
              (body : option bytes).

(** The states that a parsed request can be sent to. *)
Inductive classification : Type :=
| FILTERED
| STATS
| CACHED (cached_response : pyval)
| FORWARD.

(** What [server_socket.accept()] returned. *)
Inductive accept_outcome : Type :=
| AcceptTimesOut
| AcceptFails
| Accepted (c : nat) (client_ip : string).

Section ProxyServer.
Variable E : env.
Variable cfg : config.

Definition join_lines (lines : list string) : string :=
  match lines with
  | [] => EmptyString
  | l :: ls => fold_left (fun acc x => String.append acc (String.append crlf x)) ls l
  end.

(** The test that guards [gzip.compress]; [and] evaluates from the left
    and stops at the first false operand.  [None] is an exception. *)
Definition should_compress (headers : list (string * pyval)) (content : bytes)
  : option bool :=
  if ENABLE_COMPRESSION cfg then
    if (1024 <? length content)%nat then
      accepts ← py_in "gzip" (default (PStr EmptyString) (PyDict.get "Accept-Encoding" headers));
      if (accepts : bool) then
        py_in "text" (default (PStr EmptyString) (PyDict.get "Content-Type" headers))
      else Some false
    else Some false
  else Some false.

(** The headers and the body that go on the wire. *)
Definition reply_headers_content (headers : list (string * pyval)) (content : bytes)
  : option (list (string * pyval) * bytes) :=
  compress ← should_compress headers content;
  let '(content, headers) :=
    if (compress : bool)
    then (gzip_compress E content, PyDict.set "Content-Encoding" (PStr "gzip") headers)
    else (content, headers) in
  Some (PyDict.set "Content-Length" (PStr (str_of_int (Z.of_nat (length content)))) headers,
        content).

Definition header_line (kv : string * pyval) : option string :=
  v ← py_format (snd kv); Some (String.append (fst kv) (String.append ": " v)).

(** The bytes that [_send_response_to_client] hands to [sendall];
    [None] when an exception is raised on the way.  The status code is an
    integer, as [_forward_request] sets it and [cache_response] stores
    it; a status of another type, which only a cache entry written by
    another program can hold, gives [None] here. *)
Definition compose_response (response_data : pyval) : option bytes :=
  match response_data with
  | PDict d =>
      match default (PInt 200) (PyDict.get "status_code" d),
            default (PDict []) (PyDict.get "headers" d),
            default (PBytes []) (PyDict.get "content" d) with
      | PInt status_code, PDict headers, PBytes content =>
          phrase ← status_phrase E status_code;
          let status_line :=
            String.append "HTTP/1.1 "
              (String.append (str_of_int status_code)
                 (String.append " " (String.append phrase crlf))) in
          '(headers, content) ← reply_headers_content headers content;
          header_lines ← mapM header_line headers;
          let header_str := join_lines header_lines in
          Some (encode_utf8
                  (String.append status_line
                     (String.append header_str (String.append crlf crlf)))
                ++ content)
      | _, _, _ => None
      end
  | _ => None
  end.

Definition _send_response_to_client (c : nat) (response_data : pyval) : M unit :=
  try_except
    (match compose_response response_data with
     | Some data => sendall c data
     | None => raise OtherError
     end)
    (fun _ => logger ERROR "Error sending response to client").

Definition error_response (status_code : Z) (reason : string) : bytes :=
  let code := str_of_int status_code in
  encode_utf8
    (String.append "HTTP/1.1 " (String.append code (String.append " " (String.append reason
    (String.append crlf (String.append "Content-Type: text/html"
    (String.append crlf (String.append "Connection: close"
    (String.append crlf (String.append crlf
    (String.append "<html><body><h1>" (String.append code (String.append " "
    (String.append reason "</h1></body></html>")))))))))))))).

Definition _send_error_response (c : nat) (status_code : Z) (reason : string) : M unit :=
  try_except (sendall c (error_response status_code reason)) (fun _ => mret tt).

Definition stats_response (stats_json : string) : bytes :=
  encode_utf8
    (String.append "HTTP/1.1 200 OK"
    (String.append crlf (String.append "Content-Type: application/json"
    (String.append crlf (String.append "Content-Length: "
    (String.append (str_of_int (Z.of_nat (String.length stats_json)))
    (String.append crlf (String.append crlf stats_json)))))))).

Definition _handle_stats_request (c : nat) : M unit := fun w =>
  let stats_json := render_stats E (stats w) (request_methods w) (now w) in
  sendall c (stats_response stats_json) w.

(** [random.choice(self._backend_servers)]. *)
Definition _select_backend_server : M string :=
  match BACKEND_SERVERS cfg with
  | [] => raise IndexError
  | b :: bs =>
      mret (nth (random_index E mod length (b :: bs)) (b :: bs) b)
  end.

Definition session_request (method url : string) (headers : list (string * string))
    (body : option bytes) : M response :=
  match origin E method url headers (if bytes_truthy body then body else None) with
  | OriginResponse status hs content =>
      mret {| resp_status_code := status; resp_headers := hs;
              resp_content := content; resp_url := url |}
  | OriginTimesOut => raise OriginTimeout
  | OriginTransportFails => raise OriginTransportError
  | OriginOtherFailure => raise OtherError
  end.

Definition _forward_request (c : nat) (method path : string)
    (headers : list (string * string)) (body : option bytes) : M unit :=
  try_except
    (backend_server ← _select_backend_server;
     let url :=
       if PyStr.startswith path "http" then path else String.append backend_server path in
     logger INFO "Forwarding request";;
     response_data ← session_request method url headers body;
     (if (String.eqb method "GET" && (200 <=? resp_status_code response_data)
          && (resp_status_code response_data <? 400))%bool
      then cache_response E cfg method path headers response_data body
      else mret tt);;
     _send_response_to_client c (PDict (response_dict response_data));;
     Statistics.increment "requests_success" 1;;
     Statistics.increment "bytes_transferred"
       (Z.of_nat (length (resp_content response_data))))
    (fun e =>
       match e with
       | OriginTimeout =>
           logger WARNING "Backend request timeout";;
           _send_error_response c 504 "Gateway Timeout";;
           Statistics.increment "requests_error" 1
       | OriginTransportError =>
           logger ERROR "Backend request error";;
           _send_error_response c 502 "Bad Gateway";;
           Statistics.increment "requests_error" 1
       | _ =>
           logger ERROR "Error forwarding request";;
           _send_error_response c 500 "Internal Server Error";;
           Statistics.increment "requests_error" 1
       end).

(** The branch that the handler takes once the request is parsed and
    counted: the tests of [_handle_client_request], in its order. *)
Definition classify (method path : string) (headers : list (string * string))
    (body : option bytes) : M classification :=
  if RequestFilter.should_filter (REQUEST_FILTERS cfg) path headers then mret FILTERED
  else if String.eqb path "/proxy-stats" then mret STATS
  else
    cached_response ←
      (if String.eqb method "GET"
       then get_cached_response E method path headers body
       else mret None);
    match cached_response with
    | Some cached => if truthy cached then mret (CACHED cached) else mret FORWARD
    | None => mret FORWARD
    end.

(** What the handler does in each branch. *)
Definition dispatch (c : nat) (method path : string) (headers : list (string * string))
    (body : option bytes) (branch : classification) : M unit :=
  match branch with
  | FILTERED =>
      logger INFO "Filtered request";;
      _send_error_response c 403 "Forbidden"
  | STATS => _handle_stats_request c
  | CACHED cached_response => _send_response_to_client c cached_response
  | FORWARD => _forward_request c method path headers body
  end.

(** The body of the [try] block of [_handle_client_request]. *)
Definition handle_request (c : nat) (r : read_outcome) : M unit :=
  match r with
  | ReadRaises e => raise e
  | ReadNothing => mret tt
  | ReadBadRequestLine =>
      logger ERROR "Invalid request line";;
      _send_error_response c 400 "Bad Request"
  | ReadRequest method path headers body =>
      Statistics.increment "requests_total" 1;;
      Statistics.update_method_stat method;;
      branch ← classify method path headers body;
      dispatch c method path headers body branch
  end.

(** Its [except] clauses. *)
Definition handler_except (c : nat) (e : exn) : M unit :=
  match e with
  | SocketTimeout =>
      logger WARNING "Connection timeout";;
      _send_error_response c 408 "Request Timeout"
  | _ =>
      logger ERROR "Error handling request";;
      _send_error_response c 500 "Internal Server Error"
  end.

(** Its [finally] clause. *)
Definition handler_finally (c : nat) : M unit :=
  close c;; Statistics.decrement "active_connections" 1.

Definition _handle_client_request (c : nat) (r : read_outcome) : M unit :=
  try_finally (try_except (handle_request c r) (handler_except c)) (handler_finally c).

(** The world once a parsed request has been counted, where [classify]
    runs. *)
Definition counted (method : string) (w : world) : world :=
  snd ((Statistics.increment "requests_total" 1;;
        Statistics.update_method_stat method) w).

(** The socket that [accept] returns for connection [c]. *)
Definition new_socket (c : nat) : M unit := fun w =>
  (Ok tt, set_sockets (<[c := {| peer_open := true; sent := []; closed := false |}]>
                         (sockets w)) w).

(** [request_queue.put]: the item is queued; on a full queue the call
    waits for room and does not raise. *)
Definition queue_put (item : nat * string) : M unit := fun w =>
  (Ok tt, set_request_queue (request_queue w ++ [item]) w).

(** One turn of the accept loop of [start]. *)
Definition accept_step (a : accept_outcome) : M unit :=
  try_except
    (match a with
     | AcceptTimesOut => raise SocketTimeout
     | AcceptFails => raise SocketError
     | Accepted c client_ip =>
         new_socket c;;
         limited ← is_rate_limited cfg client_ip;
         if (limited : bool) then
           logger WARNING "Rate limited client";;
           Statistics.increment "rate_limited_requests" 1;;
           close c
         else
           queue_put (c, client_ip);;
           Statistics.increment "active_connections" 1
     end)
    (fun e =>
       match e with
       | SocketTimeout => mret tt
       | _ => logger ERROR "Error accepting connection"
       end).

End ProxyServer.

(** A fresh server: empty store that answers, counters at zero. *)
Definition initial_world (start_time : Z) : world := {|
  now := start_time;
  redis_up := true;
  store := ∅;
  stats := Statistics.initial start_time;
  request_methods := Statistics.initial_methods;
  sockets := ∅;
  request_queue := [];
  log := []
|}.

Definition set_redis_up (up : bool) (w : world) : world :=
  {| now := now w; redis_up := up; store := store w; stats := stats w;
     request_methods := request_methods w; sockets := sockets w;
     request_queue := request_queue w; log := log w |}.

(** ** Concrete instances for the examples *)

Module Examples.

(** An environment whose origin always gives the same outcome.  The
    digest is the identity and the compressor returns a fixed marker:
    both are stand-ins that no statement below depends on. *)
Definition example_env (o : origin_outcome) : env := {|
  md5_hexdigest := fun s => s;
  utf8_decode_ignore := string_of_list_ascii;
  gzip_compress := fun _ => list_ascii_of_string "<gzip>";
  status_phrase := fun code =>
    if code =? 200 then Some "ok"
    else if code =? 404 then Some "not_found"
    else if code =? 500 then Some "internal_server_error"
    else None;
  render_stats := fun _ _ _ => "{}";
  random_index := 0;
  origin := fun _ _ _ _ => o
|}.

Definition hello : bytes := list_ascii_of_string "hello".

Definition E_hello : env :=
  example_env (OriginResponse 200 [("Content-Type", "text/plain")] hello).

(** A 2000-byte HTML page, served without any [Accept-Encoding] header. *)
Definition page : bytes := repeat "a"%char 2000.

Definition E_page : env :=
  example_env (OriginResponse 200 [("Content-Type", "text/html")] page).

Definition client : string := "203.0.113.7".

(** A server that has just accepted connection 1. *)
Definition w_conn : world := snd (new_socket 1%nat (initial_world 1000)).

(** The same with an unreachable store. *)
Definition w_down : world := set_redis_up false w_conn.

Definition cfg_filter_stats : config := {|
  CONNECTION_TIMEOUT := 30; CACHE_EXPIRATION := 300;
  BACKEND_SERVERS := ["http://localhost:8000"]; ENABLE_COMPRESSION := true;
  RATE_LIMIT_REQUESTS := 100; RATE_LIMIT_WINDOW := 60;
  REQUEST_FILTERS := ["stats"]
|}.

Definition cfg_limit_2 : config := {|
  CONNECTION_TIMEOUT := 30; CACHE_EXPIRATION := 300;
  BACKEND_SERVERS := ["http://localhost:8000"]; ENABLE_COMPRESSION := true;
  RATE_LIMIT_REQUESTS := 2; RATE_LIMIT_WINDOW := 60;
  REQUEST_FILTERS := ["ads"; "trackers"; "malware"]
|}.

(** The cache key of a request, as [_generate_cache_key] computes it. *)
Definition key_of (E : env) (method url : string) (headers : list (string * string))
    (body : option bytes) : string :=
  match _generate_cache_key E method url headers body (initial_world 0) with
  | (Ok k, _) => k
  | (Raise _, _) => EmptyString
  end.

(** A store whose entry for [GET /x] is not a JSON document. *)
Definition w_corrupt : world :=
  set_store {[ key_of E_hello "GET" "/x" [] None :=
                 {| Redis.value := Redis.RString "not json"; Redis.expires := None |} ]}
    w_conn.

Definition get_x : read_outcome := ReadRequest "GET" "/x" [] None.

Definition response_with (hs : list (string * string)) : response := {|
  resp_status_code := 200; resp_headers := hs; resp_content := hello;
  resp_url := "http://localhost:8000/x"
|}.

Definition r_text : response := response_with [("Content-Type", "text/plain")].
Definition r_no_store : response := response_with [("Cache-Control", "private, no-store")].
Definition r_max_age : response := response_with [("Cache-Control", "max-age=0")].
Definition r_capitals : response := response_with [("Cache-Control", "No-Store")].
Definition r_lower_name : response := response_with [("cache-control", "no-store")].

(** An origin that answers [cache-control: no-store], the header name in
    lower case, and two [GET /x] in a row on connections 1 and 2. *)
Definition E_no_store : env :=
  example_env (OriginResponse 200 [("cache-control", "no-store")] hello).

Definition w_first_get : world :=
  snd (_handle_client_request E_no_store DEFAULT_CONFIG 1%nat
         (ReadRequest "GET" "/x" [] None) w_conn).

Definition w_second_get : world :=
  snd (_handle_client_request E_no_store DEFAULT_CONFIG 2%nat
         (ReadRequest "GET" "/x" [] None) (snd (new_socket 2%nat w_first_get))).

Definition fresh_socket : socket := {| peer_open := true; sent := []; closed := false |}.

(** A server that starts with an unreachable store. *)
Definition w_unreachable : world := set_redis_up false (initial_world 1000).

(** Connection 1 asked for [/x] and was served from the origin; then
    connection 2 arrives. *)
Definition w_served : world :=
  snd (_handle_client_request E_hello DEFAULT_CONFIG 1%nat get_x w_conn).

Definition w_cached : world := snd (new_socket 2%nat w_served).

Definition w_busy : world :=
  snd (accept_step DEFAULT_CONFIG (Accepted 2%nat client) w_served).

(** [n] connections from the same client, accepted one after the other
    without the clock moving; connection numbers start after [c]. *)
Fixpoint accept_burst (cfg : config) (n c : nat) (w : world) : world :=
  match n with
  | O => w
  | S n' => accept_burst cfg n' (S c) (snd (accept_step cfg (Accepted (S c) client) w))
  end.

End Examples.

(** ** Notions used in the statements

    What a computation leaves alone, the two counters of forwarded
    requests, and the cache entry of a response before and after its trip
    through the store. *)

Definition preserves {X A : Type} (obs : world -> X) (m : M A) : Prop :=
  forall w, obs (snd (m w)) = obs w.

(** The two counters that only a forwarded request may move. *)
Definition success_counters (w : world) : option Z * option Z :=
  (stats w !! "requests_success", stats w !! "bytes_transferred").

Definition all_str (d : list (string * pyval)) : Prop :=
  Forall (fun kv => exists s, snd kv = PStr s) d.

(** What [cache_response] serialises: [response_data] with its body
    replaced by the base64 text. *)
Definition cache_data (r : response) : list (string * pyval) :=
  [("status_code", PInt (resp_status_code r));
   ("headers", PDict (headers_dict (resp_headers r)));
   ("url", PStr (resp_url r));
   ("content_base64",
    PStr (string_of_list_ascii (Base64.b64encode (resp_content r))))].

(** What [get_cached_response] hands back for it. *)
Definition restored (r : response) : list (string * pyval) :=
  [("status_code", PInt (resp_status_code r));
   ("headers", PDict (headers_dict (resp_headers r)));
   ("url", PStr (resp_url r));
   ("content", PBytes (resp_content r))].

(** The test of [cache_response] for a response that forbids caching. *)
Definition forbids_caching (r : response) : bool :=
  let cache_control :=
    default EmptyString (PyDict.get "Cache-Control" (resp_headers r)) in
  (PyStr.contains "no-store" cache_control || PyStr.contains "no-cache" cache_control)%bool.

(** ** Notions used for the rate limiter *)

(** The sliding window of a client, as the store shows it at [now]. *)
Definition window (now : Z) (key : string) (db : gmap string Redis.entry) : gmap string Z :=
  match Redis.lookup now key db with
  | Some {| Redis.value := Redis.RZSet z |} => z
  | _ => ∅
  end.

(** What [ZREMRANGEBYSCORE key 0 hi] leaves of a sorted set. *)
Definition trimmed (hi : Z) (z : gmap string Z) : gmap string Z :=
  filter (fun ms => negb ((0 <=? snd ms) && (snd ms <=? hi)) = true) z.

(** The key does not hold a string. *)
Definition not_a_string (now : Z) (key : string) (db : gmap string Redis.entry) : Prop :=
  forall s ex, Redis.lookup now key db <> Some {| Redis.value := Redis.RString s; Redis.expires := ex |}.

(** A sorted set whose members are the seconds of past connections,
    written as [is_rate_limited] writes them. *)
Definition seconds_window (now : Z) (z : gmap string Z) : Prop :=
  forall m s, z !! m = Some s -> m = str_of_int s /\ 0 <= s <= now.

(** Every limiter key of the store holds such a set. *)
Definition limiter_store (w : world) : Prop :=
  forall client_ip e, store w !! rate_limit_key client_ip = Some e ->
    exists z, Redis.value e = Redis.RZSet z /\ seconds_window (now w) z.

(** Connections accepted one after the other; each comes [d] seconds
    after the one before, on socket [c], from address [client_ip]. *)
Fixpoint accept_all (cfg : config) (arrivals : list (Z * nat * string)) (w : world) : world :=
  match arrivals with
  | [] => w
  | (d, c, client_ip) :: rest =>
      accept_all cfg rest (snd (accept_step cfg (Accepted c client_ip) (advance d w)))
  end.

Definition rate_limited_requests (w : world) : option Z := stats w !! "rate_limited_requests".

(** ** Further notions and instances *)

Module Fixtures.
Import Examples.

Definition other_client : string := "198.51.100.9".

(** Three connections of [client], one second apart. *)
Definition three_apart : list (Z * nat * string) :=
  [(1, 1%nat, client); (1, 2%nat, client); (1, 3%nat, client)].

(** Three connections of [client] within the same second. *)
Definition three_at_once : list (Z * nat * string) :=
  [(0, 1%nat, client); (0, 2%nat, client); (0, 3%nat, client)].

(** A server that has queued two connections of [client] under the limit
    of 2, one second later. *)
Definition w_two_seen : world :=
  advance 1 (accept_all cfg_limit_2 [(1, 1%nat, client); (1, 2%nat, client)]
               (initial_world 1000)).

(** A response for [/y]. *)
Definition r_y : response := {|
  resp_status_code := 200; resp_headers := [("Content-Type", "text/plain")];
  resp_content := hello; resp_url := "http://localhost:8000/y"
|}.

(** A server whose cache holds the responses for [GET /x] and [GET /y]. *)
Definition w_two_entries : world :=
  snd (cache_response E_hello DEFAULT_CONFIG "GET" "/y" [] r_y None
         (snd (cache_response E_hello DEFAULT_CONFIG "GET" "/x" [] r_text None w_conn))).

(** Connection 1 asks for a url that the default rules block. *)
Definition get_banner : read_outcome := ReadRequest "GET" "/Ads/banner.js" [] None.

Definition w_refused : world :=
  snd (_handle_client_request E_hello DEFAULT_CONFIG 1%nat get_banner w_conn).

(** An origin that times out, and one that answers [404]. *)
Definition E_timeout : env := example_env OriginTimesOut.

Definition E_missing : env :=
  example_env (OriginResponse 404 [("Content-Type", "text/plain")] hello).

Definition r_missing : response := {|
  resp_status_code := 404; resp_headers := [("Content-Type", "text/plain")];
  resp_content := hello; resp_url := "http://localhost:8000/x"
|}.

(** A fresh server that has accepted and queued connection 1. *)
Definition w_accepted : world :=
  snd (accept_step DEFAULT_CONFIG (Accepted 1%nat client) (initial_world 1000)).

(** The headers of a small request. *)
Definition two_headers : list (string * string) :=
  [("Host", "a.example"); ("Accept", "text/html")].


End Fixtures.

(** Arrivals that are all from [client_ip], each at least one second after
    the one before. *)
Definition spaced_from (client_ip : string) (arrivals : list (Z * nat * string)) : Prop :=
  Forall (fun a => 1 <= a.1.1 /\ a.2 = client_ip) arrivals.

(** The seconds from now to the last of the [arrivals]. *)
Definition span (arrivals : list (Z * nat * string)) : Z :=
  foldr (fun a acc => a.1.1 + acc) 0 arrivals.

(** What the store shows of a client who connected [k] times, in
    distinct seconds after [t0], while the window holds them all. *)
Definition seen (t0 W : Z) (client_ip : string) (k : nat) (w : world) : Prop :=
  (forall s ex, store w !! rate_limit_key client_ip
                  <> Some {| Redis.value := Redis.RString s; Redis.expires := ex |}) /\
  exists z,
    (forall now', now w <= now' <= t0 + W ->
       window now' (rate_limit_key client_ip) (store w) = z) /\
    size z = k /\
    (forall m s, z !! m = Some s -> m = str_of_int s /\ t0 < s <= now w).

(** The [url] recorded in the entry that [key] holds, for an entry that
    [invalidate_cache] reads without an exception: a JSON object whose
    [url], if it has one, is a string. *)
Definition entry_url (now : Z) (db : gmap string Redis.entry) (key : string) : option string :=
  match Redis.lookup now key db with
  | Some {| Redis.value := Redis.RString text |} =>
      match Json.loads text with
      | Some (PDict d) =>
          match PyDict.get "url" d with
          | Some (PStr u) => Some u
          | None => Some EmptyString
          | Some _ => None
          end
      | _ => None
      end
  | _ => None
  end.

(** Every key of the store holds such an entry. *)
Definition cache_entries_only (w : world) : Prop :=
  forall k e, Redis.lookup (now w) k (store w) = Some e ->
    exists u, entry_url (now w) (store w) k = Some u.

(** [key] holds an entry whose [url] contains [url_pattern]. *)
Definition url_matches (url_pattern : string) (now : Z) (db : gmap string Redis.entry)
    (key : string) : bool :=
  match entry_url now db key with
  | Some u => PyStr.contains url_pattern u
  | None => false
  end.

(** The counter [stat], if there is one. *)
Definition counter_of (stat : string) (w : world) : option Z := stats w !! stat.

(** The url that [_forward_request] asks the origin for: the path itself
    when it starts with [http], else the chosen backend followed by the
    path; [None] when no backend is configured. *)
Definition backend_url (E : env) (cfg : config) (path : string) : option string :=
  match BACKEND_SERVERS cfg with
  | [] => None
  | b :: bs =>
      Some (if PyStr.startswith path "http" then path
            else String.append (nth (random_index E mod length (b :: bs)) (b :: bs) b) path)
  end.

(** The body handed to [session.request]: none when it is empty. *)
Definition sent_body (body : option bytes) : option bytes :=
  if bytes_truthy body then body else None.

(** The counters once a forwarded request has been relayed: one more
    success, [n] more bytes. *)
Definition counted_success (n s : Z) (st : gmap string Z) : gmap string Z :=
  match st !! "bytes_transferred" with
  | Some b => <["bytes_transferred" := b + n]> (<["requests_success" := s + 1]> st)
  | None => <["requests_success" := s + 1]> st
  end.

(** The reply that each [except] clause of [_forward_request] sends. *)
Definition failure_replies : list (origin_outcome * Z * string) :=
  [(OriginTimesOut, 504, "Gateway Timeout");
   (OriginTransportFails, 502, "Bad Gateway");
   (OriginOtherFailure, 500, "Internal Server Error")].

(** Connection [c] has a socket. *)
Definition has_socket (c : nat) (w : world) : bool :=
  match sockets w !! c with Some _ => true | None => false end.

(** ** The server at work, one thing after the other *)

Inductive event : Type :=
| Tick (d : Z)                                   (* the clock moves on *)
| StoreUp (up : bool)                            (* the store comes back, or goes away *)
| Accept (a : accept_outcome)                    (* a turn of the accept loop *)
| Handle (E : env) (c : nat) (r : read_outcome). (* a worker handles a connection *)

Definition step (cfg : config) (ev : event) (w : world) : world :=
  match ev with
  | Tick d => advance d w
  | StoreUp up => set_redis_up up w
  | Accept a => snd (accept_step cfg a w)
  | Handle E c r => snd (_handle_client_request E cfg c r w)
  end.

Definition run (cfg : config) (events : list event) (w : world) : world :=
  fold_left (fun w ev => step cfg ev w) events w.

(** The keys of [request_methods]. *)
Definition methods : list string := ["GET"; "POST"; "PUT"; "DELETE"; "OTHER"].

Definition method_count (m : string) (w : world) : Z :=
  default 0 (request_methods w !! m).

(** The requests counted under some method. *)
Definition methods_total (w : world) : Z :=
  foldr (fun m acc => method_count m w + acc) 0 methods.

(** The counters agree: every request counted is counted under one
    method, and at most once as a success or as an error. *)
Definition accounted (w : world) : Prop :=
  exists t s e,
    stats w !! "requests_total" = Some t /\
    stats w !! "requests_success" = Some s /\
    stats w !! "requests_error" = Some e /\
    0 <= s /\ 0 <= e /\ s + e <= t /\
    methods_total w = t /\
    forall m, is_Some (request_methods w !! m) <-> m ∈ methods.

(** The counters that [accounted] reads. *)
Definition tally (w : world) : option Z * option Z * option Z * gmap string Z :=
  (stats w !! "requests_total", stats w !! "requests_success",
   stats w !! "requests_error", request_methods w).

(** A counter that is none of the three. *)
Definition untallied (stat : string) : Prop :=
  stat <> "requests_total" /\ stat <> "requests_success" /\ stat <> "requests_error".

(** The world once a counted request has been served, successes and
    errors having been [s] and [e]: the request is in neither, or in
    one of the two. *)
Definition served (s e : Z) (w w' : world) : Prop :=
  stats w' !! "requests_total" = stats w !! "requests_total" /\
  request_methods w' = request_methods w /\
  exists s' e',
    stats w' !! "requests_success" = Some s' /\
    stats w' !! "requests_error" = Some e' /\
    s <= s' /\ e <= e' /\ s' + e' <= s + e + 1.

(** ** Reading and parsing a request

    The first part of [_handle_client_request]: the bytes are read until
    the blank line that ends the headers, then cut into the request line,
    the headers and the body. *)

Module Wire.

Definition CR : ascii := ascii_of_N 13.
Definition LF : ascii := ascii_of_N 10.
Definition is_cr (c : ascii) : bool := (N_of_ascii c =? 13)%N.
Definition is_lf (c : ascii) : bool := (N_of_ascii c =? 10)%N.
Definition is_colon (c : ascii) : bool := (N_of_ascii c =? 58)%N.

(** [b"\r\n\r\n"]. *)
Definition blank_line : bytes := [CR; LF; CR; LF].

(** [str.isspace] on the code points below 256. *)
Definition is_space (c : ascii) : bool :=
  let n := N_of_ascii c in
  (((9 <=? n) && (n <=? 13)) || ((28 <=? n) && (n <=? 32)) || (n =? 133) || (n =? 160))%N.

(** The bytes that [bytes.strip] removes. *)
Definition is_space_byte (c : ascii) : bool :=
  let n := N_of_ascii c in (((9 <=? n) && (n <=? 13)) || (n =? 32))%N.

Definition cons_head (c : ascii) (parts : list bytes) : list bytes :=
  match parts with
  | [] => [[c]]
  | p :: ps => (c :: p) :: ps
  end.

(** [data.split(b"\r\n")]. *)
Fixpoint split_crlf (s : bytes) : list bytes :=
  match s with
  | [] => [[]]
  | c :: s' =>
      match s' with
      | c' :: s'' =>
          if (is_cr c && is_lf c')%bool then [] :: split_crlf s''
          else cons_head c (split_crlf s')
      | [] => cons_head c (split_crlf s')
      end
  end.

(** [s.split()]: the runs of characters that are not white space;
    [cur] is the run being read, last character first. *)
Fixpoint words_from (cur s : list ascii) : list (list ascii) :=
  match s with
  | [] => match cur with [] => [] | _ => [rev cur] end
  | c :: s' =>
      if is_space c then
        match cur with
        | [] => words_from [] s'
        | _ => rev cur :: words_from [] s'
        end
      else words_from (c :: cur) s'
  end.

Definition words (s : list ascii) : list (list ascii) := words_from [] s.

Fixpoint lstrip (space : ascii -> bool) (s : list ascii) : list ascii :=
  match s with
  | [] => []
  | c :: s' => if space c then lstrip space s' else s
  end.

(** [s.strip()]. *)
Definition strip (space : ascii -> bool) (s : list ascii) : list ascii :=
  rev (lstrip space (rev (lstrip space s))).

(** [s.split(':', 1)] when it gives two parts; [None] when there is no
    colon, and the unpacking raises [ValueError]. *)
Fixpoint split_colon (s : list ascii) : option (list ascii * list ascii) :=
  match s with
  | [] => None
  | c :: s' =>
      if is_colon c then Some ([], s')
      else match split_colon s' with
           | Some (name, value) => Some (c :: name, value)
           | None => None
           end
  end.

Section Parse.
Variable E : env.

(** The loop over [request_lines[1:]]. *)
Fixpoint parse_headers (lines : list bytes) (headers : list (string * string))
  : list (string * string) :=
  match lines with
  | [] => headers
  | line :: rest =>
      match strip is_space_byte line with
      | [] => headers
      | line =>
          match split_colon (list_ascii_of_string (utf8_decode_ignore E line)) with
          | Some (header_name, header_value) =>
              parse_headers rest
                (PyDict.set (string_of_list_ascii (strip is_space header_name))
                   (string_of_list_ascii (strip is_space header_value)) headers)
          | None => parse_headers rest headers
          end
      end
  end.

(** What follows the first [b"\r\n\r\n"]: [request_data[header_end + 4:]]
    when [find] succeeds. *)
Fixpoint after_blank_line (s : bytes) : option bytes :=
  if PyStr.starts_with blank_line s then Some (drop 4 s)
  else match s with
       | [] => None
       | _ :: s' => after_blank_line s'
       end.

Definition parse_body (request_data : bytes) : option bytes :=
  match after_blank_line request_data with
  | Some (b :: bs) => Some (b :: bs)
  | _ => None
  end.

(** From [if not request_data] to the extraction of the body. *)
Definition parse_request (request_data : bytes) : read_outcome :=
  match request_data with
  | [] => ReadNothing
  | _ =>
      let request_lines := split_crlf request_data in
      let request_line := utf8_decode_ignore E (hd [] request_lines) in
      match words (list_ascii_of_string request_line) with
      | [method; path; version] =>
          ReadRequest (string_of_list_ascii method) (string_of_list_ascii path)
            (parse_headers (tl request_lines) []) (parse_body request_data)
      | _ => ReadBadRequestLine
      end
  end.

End Parse.

(** What a call of [recv] gives. *)
Inductive recv_result : Type :=
| Received (chunk : bytes)       (* an empty chunk: the peer has closed *)
| RecvTimesOut
| RecvFails.

(** The loop on [recv]; a peer that sends nothing more lets the call
    run into the timeout of the socket. *)
Fixpoint recv_all (reads : list recv_result) (request_data : bytes) : result bytes :=
  match reads with
  | [] => Raise SocketTimeout
  | Received chunk :: rest =>
      match chunk with
      | [] => Ok request_data
      | _ =>
          let request_data := request_data ++ chunk in
          if PyStr.contains_l blank_line request_data then Ok request_data
          else recv_all rest request_data
      end
  | RecvTimesOut :: _ => Raise SocketTimeout
  | RecvFails :: _ => Raise SocketError
  end.

Definition read_request (E : env) (reads : list recv_result) : read_outcome :=
  match recv_all reads [] with
  | Ok request_data => parse_request E request_data
  | Raise e => ReadRaises e
  end.

Definition is_ascii_byte (c : ascii) : bool := (N_of_ascii c <? 128)%N.

(** A token of the request line: ASCII characters, at least one, none of
    them white space. *)
Definition token (s : string) : bool :=
  (PyStr.nonempty s &&
   forallb (fun c => negb (is_space c) && is_ascii_byte c) (list_ascii_of_string s))%bool.

(** A header name or value as it is once parsed: ASCII characters
    without a carriage return, the first and the last not white space. *)
Definition field (s : string) : bool :=
  let l := list_ascii_of_string s in
  (forallb (fun c => negb (is_cr c) && is_ascii_byte c) l &&
   match l with [] => false | c :: _ => negb (is_space c) end &&
   match rev l with [] => false | c :: _ => negb (is_space c) end)%bool.

Definition well_formed_header (h : string * string) : bool :=
  (field (fst h) && forallb (fun c => negb (is_colon c)) (list_ascii_of_string (fst h)) &&
   field (snd h))%bool.

(** The request as a client writes it. *)
Definition crlf_bytes : bytes := [CR; LF].

Definition render_header (h : string * string) : bytes :=
  list_ascii_of_string (fst h) ++ list_ascii_of_string ": "
  ++ list_ascii_of_string (snd h) ++ crlf_bytes.

Definition render_request (method path version : string) (headers : list (string * string))
    (body : bytes) : bytes :=
  list_ascii_of_string method ++ list_ascii_of_string " "
  ++ list_ascii_of_string path ++ list_ascii_of_string " "
  ++ list_ascii_of_string version ++ crlf_bytes
  ++ concat (map render_header headers) ++ crlf_bytes ++ body.

End Wire.

(** The handler, from the bytes that arrive on the connection. *)
Definition handle_connection (E : env) (cfg : config) (c : nat)
    (reads : list Wire.recv_result) : M unit :=
  _handle_client_request E cfg c (Wire.read_request E reads).

(** What the cache is made of: the store and the two counters of
    [get_cached_response]. *)
Definition cache_state (w : world)
  : gmap string Redis.entry * option Z * option Z :=
  (store w, stats w !! "cache_hits", stats w !! "cache_misses").

(** ** The lists of the configuration

    [BACKEND_SERVERS] and [REQUEST_FILTERS] are read from the
    environment as comma-separated text; the command line gives the
    backends a second time. *)

Module Config.

Definition is_comma (c : ascii) : bool := (N_of_ascii c =? 44)%N.

(** [text.split(",")]. *)
Fixpoint split_comma (s : list ascii) : list (list ascii) :=
  match s with
  | [] => [[]]
  | c :: s' =>
      if is_comma c then [] :: split_comma s'
      else Wire.cons_head c (split_comma s')
  end.

(** [",".join(items)]. *)
Fixpoint join_comma (items : list (list ascii)) : list ascii :=
  match items with
  | [] => []
  | [x] => x
  | x :: rest => x ++ ","%char :: join_comma rest
  end.

(** [[s.strip() for s in text.split(",") if s.strip()]]. *)
Definition parse_list (text : string) : list string :=
  map string_of_list_ascii
    (List.filter (fun s => match s with [] => false | _ => true end)
       (map (Wire.strip Wire.is_space) (split_comma (list_ascii_of_string text)))).

(** [CONFIG["BACKEND_SERVERS"]] when the environment gives [text]. *)
Definition backend_servers_of (text : string) : list string :=
  match parse_list text with
  | [] => BACKEND_SERVERS DEFAULT_CONFIG
  | servers => servers
  end.

(** [CONFIG["REQUEST_FILTERS"]] when the environment gives [text]. *)
Definition request_filters_of (text : string) : list string := parse_list text.

(** The default of [--backend], and what the program makes of the
    argument: [",".join(...)] and [args.backend.split(",")]. *)
Definition backend_argument (servers : list string) : string :=
  string_of_list_ascii (join_comma (map list_ascii_of_string servers)).

Definition backends_of_argument (arg : string) : list string :=
  map string_of_list_ascii (split_comma (list_ascii_of_string arg)).

(** An item of a parsed list: not empty, no comma, no white space at
    either end. *)
Definition tidy (s : string) : bool :=
  let l := list_ascii_of_string s in
  (forallb (fun c => negb (is_comma c)) l &&
   match l with [] => false | c :: _ => negb (Wire.is_space c) end &&
   match rev l with [] => false | c :: _ => negb (Wire.is_space c) end)%bool.

End Config.

(** * Facts *)

(** ** base64 round trip *)

Module Base64Facts.
Import Base64.

Lemma dec_enc (s : sextet) : dec (enc s) = Some s.
Proof.
  destruct s as [[[[[b5 b4] b3] b2] b1] b0].
  destruct b5, b4, b3, b2, b1, b0; reflexivity.
Qed.

Lemma enc_not_pad (s : sextet) : Ascii.eqb (enc s) pad = false.
Proof.
  destruct s as [[[[[b5 b4] b3] b2] b1] b0].
  destruct b5, b4, b3, b2, b1, b0; reflexivity.
Qed.

Lemma enc_is_ascii (s : sextet) : is_ascii_char (enc s) = true.
Proof.
  destruct s as [[[[[b5 b4] b3] b2] b1] b0].
  destruct b5, b4, b3, b2, b1, b0; reflexivity.
Qed.

Lemma a2b_enc (s : sextet) cs q pads :
  a2b_base64 (enc s :: cs) q pads =
    match q with
    | Q0 => a2b_base64 cs (Q1 s) 0%nat
    | Q1 s1 => cons (join12 s1 s) <$> a2b_base64 cs (Q2 s) 0%nat
    | Q2 s2 => cons (join23 s2 s) <$> a2b_base64 cs (Q3 s) 0%nat
    | Q3 s3 => cons (join34 s3 s) <$> a2b_base64 cs Q0 0%nat
    end.
Proof. cbn [a2b_base64]. rewrite enc_not_pad, dec_enc. reflexivity. Qed.

Lemma join_split3 (a b c : ascii) :
  let '(s1, s2, s3, s4) := split3 a b c in
  join12 s1 s2 = a /\ join23 s2 s3 = b /\ join34 s3 s4 = c.
Proof. destruct a, b, c. cbn. auto. Qed.

Lemma a2b_b64encode_len (n : nat) :
  forall bs : bytes, (length bs <= n)%nat -> a2b_base64 (b64encode bs) Q0 0%nat = Some bs.
Proof.
  induction n as [n IH] using lt_wf_ind. intros bs Hlen.
  destruct bs as [|a [|b [|c rest]]].
  - reflexivity.
  - cbn [b64encode]. pose proof (join_split3 a zero zero) as J.
    destruct (split3 a zero zero) as [[[s1 s2] s3] s4]. destruct J as (J1 & _ & _).
    rewrite !a2b_enc. cbn. rewrite J1. reflexivity.
  - cbn [b64encode]. pose proof (join_split3 a b zero) as J.
    destruct (split3 a b zero) as [[[s1 s2] s3] s4]. destruct J as (J1 & J2 & _).
    rewrite !a2b_enc. cbn. rewrite J1, J2. reflexivity.
  - cbn [b64encode]. pose proof (join_split3 a b c) as J.
    destruct (split3 a b c) as [[[s1 s2] s3] s4]. destruct J as (J1 & J2 & J3).
    rewrite !a2b_enc. cbn [length] in Hlen.
    rewrite (IH (length rest)) by lia. cbn. rewrite J1, J2, J3. reflexivity.
Qed.

Lemma b64encode_ascii (n : nat) :
  forall bs : bytes, (length bs <= n)%nat -> forallb is_ascii_char (b64encode bs) = true.
Proof.
  induction n as [n IH] using lt_wf_ind. intros bs Hlen.
  destruct bs as [|a [|b [|c rest]]]; cbn [b64encode].
  - reflexivity.
  - destruct (split3 a zero zero) as [[[s1 s2] s3] s4].
    cbn [forallb]. rewrite !enc_is_ascii. reflexivity.
  - destruct (split3 a b zero) as [[[s1 s2] s3] s4].
    cbn [forallb]. rewrite !enc_is_ascii. reflexivity.
  - destruct (split3 a b c) as [[[s1 s2] s3] s4].
    cbn [forallb length] in *. rewrite !enc_is_ascii.
    rewrite (IH (length rest)) by lia. reflexivity.
Qed.

Lemma b64decode_b64encode (bs : bytes) : b64decode (b64encode bs) = Some bs.
Proof.
  unfold b64decode.
  rewrite (b64encode_ascii (length bs)) by lia.
  apply (a2b_b64encode_len (length bs)). lia.
Qed.

End Base64Facts.

(** ** json round trip *)

Module JsonFacts.
Import Json.

Lemma scanstring_escape_char (c : ascii) (t : list ascii) :
  scanstring (escape_char c ++ t) =
    match scanstring t with
    | Some (str, rest) => Some (c :: str, rest)
    | None => None
    end.
Proof.
  destruct c as [[] [] [] [] [] [] [] []];
    match goal with
    | |- context [escape_char ?c] =>
        let e := eval vm_compute in (escape_char c) in
        change (escape_char c) with e
    end;
    cbn [app]; simpl; destruct (scanstring t) as [[? ?]|]; reflexivity.
Qed.

Lemma scanstring_escape_body (s rest : list ascii) :
  scanstring (escape_body s ++ dquote :: rest) = Some (s, rest).
Proof.
  induction s as [|c s IH].
  - reflexivity.
  - unfold escape_body in *. cbn [map concat]. rewrite <- app_assoc.
    rewrite scanstring_escape_char, IH. reflexivity.
Qed.

Lemma read_uint_print (d : Decimal.uint) (rest : list ascii) :
  no_digit_head rest -> read_uint (print_uint d ++ rest) = (d, rest).
Proof.
  intros Hr. induction d; cbn; try (rewrite IHd; reflexivity).
  destruct rest as [|c r]; [reflexivity|]. cbn in *. unfold is_digit in Hr.
  destruct (digit_of c); [discriminate | reflexivity].
Qed.

Lemma nzhead_not_D0 (d x : Decimal.uint) : Decimal.nzhead d <> Decimal.D0 x.
Proof. induction d; cbn; congruence. Qed.

Lemma to_uint_normal (n : N) :
  N.to_uint n = Decimal.D0 Decimal.Nil \/
  exists c t, print_uint (N.to_uint n) = c :: t /\ is_digit c = true /\ (N_of_ascii c =? 48)%N = false.
Proof.
  pose proof (DecimalN.Unsigned.to_of (N.to_uint n)) as H.
  rewrite DecimalN.Unsigned.of_to in H.
  destruct (N.to_uint n) as [|d|d|d|d|d|d|d|d|d|d];
    try (right; eexists _, _; cbn; repeat split; reflexivity).
  - exfalso. symmetry in H. exact (unorm_nonnil _ H).
  - left. rewrite unorm_D0 in H. unfold Decimal.unorm in H.
    destruct (Decimal.nzhead d) eqn:E.
    + exact H.
    + symmetry in H. exfalso. exact (nzhead_not_D0 _ _ (eq_trans E H)).
    + discriminate H.
    + discriminate H.
    + discriminate H.
    + discriminate H.
    + discriminate H.
    + discriminate H.
    + discriminate H.
    + discriminate H.
    + discriminate H.
Qed.

Lemma delim_facts (c : ascii) :
  is_delim c = true ->
  is_digit c = false /\ (N_of_ascii c =? 46)%N = false /\
  ((N_of_ascii c =? 101) || (N_of_ascii c =? 69))%N = false /\ is_ws c = false.
Proof.
  destruct c as [[] [] [] [] [] [] [] []]; vm_compute; intros H;
    try discriminate H; repeat split.
Qed.

Lemma tail_no_digit rest : tail_ok rest -> no_digit_head rest.
Proof. destruct rest; cbn; [easy|]. intros H. apply delim_facts in H. tauto. Qed.

Lemma read_frac_tail rest : tail_ok rest -> read_frac rest = ([], rest).
Proof.
  destruct rest as [|c [|c' r]]; cbn; try reflexivity.
  intros H. apply delim_facts in H as (_ & -> & _). reflexivity.
Qed.

Lemma read_exp_tail rest : tail_ok rest -> read_exp rest = ([], rest).
Proof.
  destruct rest as [|c r]; cbn; try reflexivity.
  intros H. apply delim_facts in H as (_ & _ & -> & _). reflexivity.
Qed.

Lemma read_int_part_print (n : N) (rest : list ascii) :
  tail_ok rest ->
  read_int_part (print_uint (N.to_uint n) ++ rest) = Some (N.to_uint n, rest).
Proof.
  intros Hr. destruct (to_uint_normal n) as [E | (c & t & E & Hd & Hz)].
  - rewrite E. reflexivity.
  - pose proof (read_uint_print (N.to_uint n) rest (tail_no_digit _ Hr)) as R.
    rewrite E in *. cbn [app] in *. unfold read_int_part. rewrite Hz, Hd, R. reflexivity.
Qed.

Lemma print_uint_head (n : N) :
  exists c t, print_uint (N.to_uint n) = c :: t /\ is_digit c = true.
Proof.
  destruct (to_uint_normal n) as [E | (c & t & E & Hd & _)].
  - rewrite E. eexists _, _. split; reflexivity.
  - eauto.
Qed.

Lemma print_int_head (z : Z) :
  exists c t, print_int z = c :: t /\ number_head c = true.
Proof.
  unfold number_head. destruct z as [|p|p]; cbn [print_int].
  - destruct (print_uint_head (Z.to_N 0)) as (c & t & -> & Hd).
    exists c, t. rewrite Hd. split; reflexivity.
  - destruct (print_uint_head (Z.to_N (Zpos p))) as (c & t & -> & Hd).
    exists c, t. rewrite Hd. split; reflexivity.
  - eexists _, _. split; reflexivity.
Qed.

Lemma digit_not_minus (c : ascii) : is_digit c = true -> (N_of_ascii c =? 45)%N = false.
Proof.
  destruct c as [[] [] [] [] [] [] [] []]; vm_compute; intros H;
    try discriminate H; reflexivity.
Qed.

Lemma match_unsigned_print (neg : bool) (n : N) (rest : list ascii) :
  tail_ok rest ->
  match_unsigned neg (print_uint (N.to_uint n) ++ rest) =
    Some (PInt (if neg then - Z.of_N n else Z.of_N n), rest).
Proof.
  intros Hr. unfold match_unsigned.
  rewrite read_int_part_print by assumption. cbn.
  rewrite read_frac_tail, read_exp_tail by assumption.
  rewrite DecimalN.Unsigned.of_to. reflexivity.
Qed.

Lemma match_number_print (z : Z) (rest : list ascii) :
  tail_ok rest -> match_number (print_int z ++ rest) = Some (PInt z, rest).
Proof.
  intros Hr. unfold match_number.
  destruct z as [|p|p]; cbn [print_int].
  - pose proof (match_unsigned_print false (Z.to_N 0) rest Hr) as M.
    destruct (print_uint_head (Z.to_N 0)) as (c & t & E & Hd).
    rewrite E in *. cbn [app] in *. rewrite (digit_not_minus _ Hd). exact M.
  - pose proof (match_unsigned_print false (Z.to_N (Zpos p)) rest Hr) as M.
    destruct (print_uint_head (Z.to_N (Zpos p))) as (c & t & E & Hd).
    rewrite E in *. cbn [app] in *. rewrite (digit_not_minus _ Hd).
    rewrite M. reflexivity.
  - cbn [app]. replace (N_of_ascii "-" =? 45)%N with true by reflexivity.
    rewrite match_unsigned_print by assumption. reflexivity.
Qed.

(** *** Dispatch on the first character *)

Lemma skip_ws_head_ok t rest : head_ok t -> skip_ws (t ++ rest) = t ++ rest.
Proof. destruct t as [|c t]; cbn; [easy|]. intros [-> _]. reflexivity. Qed.

Lemma skip_ws_delim rest : tail_ok rest -> skip_ws rest = rest.
Proof.
  destruct rest as [|c r]; cbn; [reflexivity|].
  intros H. apply delim_facts in H as (_ & _ & _ & ->). reflexivity.
Qed.

Lemma number_head_ok (c : ascii) (t : list ascii) : number_head c = true -> head_ok (c :: t).
Proof.
  destruct c as [[] [] [] [] [] [] [] []]; vm_compute; intros H;
    try discriminate H; split; reflexivity.
Qed.

Lemma scan_once_number (f : nat) (c : ascii) (r : list ascii) res :
  number_head c = true ->
  match_number (c :: r) = Some res ->
  scan_once (S f) (c :: r) = Some res.
Proof.
  intros Hc Hm.
  assert (E : scan_once (S f) (c :: r) =
              match match_number (c :: r) with
              | Some res => Some res
              | None =>
                  match strip_prefix "NaN" (c :: r), strip_prefix "Infinity" (c :: r),
                        strip_prefix "-Infinity" (c :: r) with
                  | Some rest, _, _ => Some (PFloat "NaN", rest)
                  | _, Some rest, _ => Some (PFloat "Infinity", rest)
                  | _, _, Some rest => Some (PFloat "-Infinity", rest)
                  | _, _, _ => None
                  end
              end).
  { clear Hm. destruct c as [[] [] [] [] [] [] [] []];
      try (exfalso; vm_compute in Hc; discriminate Hc); reflexivity. }
  rewrite E, Hm. reflexivity.
Qed.

Lemma scan_once_string (f : nat) (r : list ascii) :
  scan_once (S f) (dquote :: r) =
    match scanstring r with
    | Some (str, rest) => Some (PStr (string_of_list_ascii str), rest)
    | None => None
    end.
Proof. cbn. destruct (scanstring r) as [[? ?]|]; reflexivity. Qed.

Lemma scan_once_array (f : nat) (r : list ascii) :
  scan_once (S f) ("["%char :: r) =
    match skip_ws r with
    | c1 :: r1 =>
        if (N_of_ascii c1 =? 93)%N then Some (PList [], r1)
        else match array_items f (c1 :: r1) with
             | Some (vs, rest) => Some (PList vs, rest)
             | None => None
             end
    | [] => None
    end.
Proof.
  cbn. destruct (skip_ws r) as [|c1 r1]; [reflexivity|].
  destruct (N_of_ascii c1 =? 93)%N; [reflexivity|].
  destruct (array_items f (c1 :: r1)) as [[? ?]|]; reflexivity.
Qed.

Lemma scan_once_object (f : nat) (r : list ascii) :
  scan_once (S f) ("{"%char :: r) =
    match skip_ws r with
    | c1 :: r1 =>
        if (N_of_ascii c1 =? 125)%N then Some (PDict [], r1)
        else if (N_of_ascii c1 =? 34)%N then
          match object_items f r1 with
          | Some (pairs, rest) => Some (PDict (PyDict.of_pairs pairs), rest)
          | None => None
          end
        else None
    | [] => None
    end.
Proof.
  cbn. destruct (skip_ws r) as [|c1 r1]; [reflexivity|].
  destruct (N_of_ascii c1 =? 125)%N; [reflexivity|].
  destruct (N_of_ascii c1 =? 34)%N; [|reflexivity].
  destruct (object_items f r1) as [[? ?]|]; reflexivity.
Qed.

Lemma array_items_S (f : nat) (s : list ascii) :
  array_items (S f) s =
    match scan_once f s with
    | Some (v, r) =>
        match skip_ws r with
        | c :: r1 =>
            if (N_of_ascii c =? 93)%N then Some ([v], r1)
            else if (N_of_ascii c =? 44)%N then
              match array_items f (skip_ws r1) with
              | Some (vs, rest) => Some (v :: vs, rest)
              | None => None
              end
            else None
        | [] => None
        end
    | None => None
    end.
Proof.
  cbn. destruct (scan_once f s) as [[v r]|]; [|reflexivity]. cbn.
  destruct (skip_ws r) as [|c r1]; [reflexivity|].
  destruct (N_of_ascii c =? 93)%N; [reflexivity|].
  destruct (N_of_ascii c =? 44)%N; [|reflexivity].
  destruct (array_items f (skip_ws r1)) as [[? ?]|]; reflexivity.
Qed.

Lemma object_items_S (f : nat) (s : list ascii) :
  object_items (S f) s =
    match scanstring s with
    | Some (k, r) =>
        match skip_ws r with
        | colon :: r1 =>
            if (N_of_ascii colon =? 58)%N then
              match scan_once f (skip_ws r1) with
              | Some (v, r2) =>
                  match skip_ws r2 with
                  | c :: r3 =>
                      if (N_of_ascii c =? 125)%N then Some ([(string_of_list_ascii k, v)], r3)
                      else if (N_of_ascii c =? 44)%N then
                        match skip_ws r3 with
                        | q :: r4 =>
                            if (N_of_ascii q =? 34)%N then
                              match object_items f r4 with
                              | Some (kvs, rest) => Some ((string_of_list_ascii k, v) :: kvs, rest)
                              | None => None
                              end
                            else None
                        | [] => None
                        end
                      else None
                  | [] => None
                  end
              | None => None
              end
            else None
        | [] => None
        end
    | None => None
    end.
Proof.
  cbn. destruct (scanstring s) as [[k r]|]; [|reflexivity]. cbn.
  destruct (skip_ws r) as [|colon r1]; [reflexivity|].
  destruct (N_of_ascii colon =? 58)%N; [|reflexivity].
  destruct (scan_once f (skip_ws r1)) as [[v r2]|]; [|reflexivity]. cbn.
  destruct (skip_ws r2) as [|c r3]; [reflexivity|].
  destruct (N_of_ascii c =? 125)%N; [reflexivity|].
  destruct (N_of_ascii c =? 44)%N; [|reflexivity].
  destruct (skip_ws r3) as [|q r4]; [reflexivity|].
  destruct (N_of_ascii q =? 34)%N; [|reflexivity].
  destruct (object_items f r4) as [[? ?]|]; reflexivity.
Qed.

(** *** Dictionaries with distinct keys *)

Lemma existsb_eqb_elem (k : string) (l : list string) :
  existsb (String.eqb k) l = true <-> k ∈ l.
Proof.
  induction l as [|x l IH]; cbn.
  - split; [discriminate | intros H; inversion H].
  - rewrite orb_true_iff, IH, elem_of_cons, String.eqb_eq. reflexivity.
Qed.

Lemma distinct_NoDup (l : list string) : distinct l = true <-> NoDup l.
Proof.
  induction l as [|x l IH]; cbn.
  - split; [constructor | reflexivity].
  - rewrite andb_true_iff, negb_true_iff, NoDup_cons, IH.
    rewrite <- existsb_eqb_elem. destruct (existsb (String.eqb x) l); intuition congruence.
Qed.

Lemma set_fresh {V} (k : string) (v : V) (d : list (string * V)) :
  k ∉ map fst d -> PyDict.set k v d = d ++ [(k, v)].
Proof.
  induction d as [|[k' v'] d IH]; cbn; [reflexivity|].
  rewrite not_elem_of_cons. intros [Hne Hnin].
  destruct (String.eqb_spec k k'); [contradiction|]. rewrite IH by assumption. reflexivity.
Qed.

Lemma of_pairs_acc {V} (l acc : list (string * V)) :
  NoDup (map fst (acc ++ l)) ->
  fold_left (fun d kv => PyDict.set (fst kv) (snd kv) d) l acc = acc ++ l.
Proof.
  revert acc. induction l as [|[k v] l IH]; intros acc Hnd; cbn.
  - rewrite app_nil_r. reflexivity.
  - assert (Hk : k ∉ map fst acc).
    { rewrite map_app in Hnd. apply NoDup_app in Hnd as (_ & Hd & _).
      intros Hin. apply (Hd k Hin). cbn. left. }
    rewrite (set_fresh k v acc Hk), IH.
    + rewrite <- app_assoc. reflexivity.
    + rewrite <- app_assoc. exact Hnd.
Qed.

Lemma of_pairs_distinct {V} (l : list (string * V)) :
  distinct (map fst l) = true -> PyDict.of_pairs l = l.
Proof.
  intros H. unfold PyDict.of_pairs. rewrite of_pairs_acc; [reflexivity|].
  cbn. apply distinct_NoDup, H.
Qed.

(** *** Round trip of a value *)

Lemma skip_ws_space (x : list ascii) : skip_ws (" "%char :: x) = skip_ws x.
Proof. reflexivity. Qed.

Lemma skip_ws_keep (c : ascii) (x : list ascii) :
  is_ws c = false -> skip_ws (c :: x) = c :: x.
Proof. intros H. cbn. rewrite H. reflexivity. Qed.

Ltac eval_tests :=
  repeat match goal with
    | |- context [(N_of_ascii ?c =? ?n)%N] =>
        lazymatch c with
        | Ascii _ _ _ _ _ _ _ _ => idtac
        | dquote => idtac
        end;
        let b := eval vm_compute in (N_of_ascii c =? n)%N in
        change (N_of_ascii c =? n)%N with b; cbv beta iota
    end.

Ltac list_norm := repeat (rewrite <- app_assoc || rewrite <- app_comm_cons).

Ltac scan_step :=
  repeat first
    [ rewrite skip_ws_space
    | rewrite skip_ws_keep by reflexivity
    | progress cbv beta iota
    | progress eval_tests ].

Lemma array_items_join (l : list pyval) :
  Forall round_trips l -> forallb jsonable l = true -> l <> [] ->
  forall ts, mapM (dumps_l false) l = Some ts ->
    head_ok (join_elems ts) /\ (need weight l <= S (length (join_elems ts)))%nat /\
    forall fuel rest, (need weight l <= fuel)%nat ->
      array_items fuel (join_elems ts ++ rest) = Some (l, rest).
Proof.
  induction l as [|x l IH]; intros Hrt Hj Hne ts Hm; [congruence|].
  apply Forall_cons in Hrt as [Hx Hl]. cbn [forallb] in Hj.
  apply andb_true_iff in Hj as [Hjx Hjl].
  cbn in Hm. destruct (dumps_l false x) as [t|] eqn:Ex; [|discriminate]. cbn in Hm.
  destruct (mapM (dumps_l false) l) as [ts'|] eqn:El; [|discriminate]. cbn in Hm.
  injection Hm as <-.
  destruct (Hx Hjx t Ex) as (Hh & Hw & Hs).
  destruct l as [|y l'].
  - cbn in El. injection El as <-. cbn [join_elems]. unfold need, list_sum. cbn [map fold_right].
    split; [|split].
    + destruct t; [destruct Hh | exact Hh].
    + rewrite length_app. cbn. lia.
    + intros fuel rest Hf. destruct fuel as [|f]; [lia|].
      rewrite array_items_S, <- app_assoc, (Hs f) by (cbn; first [lia | reflexivity]).
      reflexivity.
  - specialize (IH Hl Hjl ltac:(discriminate) ts' eq_refl) as (Hh' & Hw' & Hs').
    assert (Hts : exists t2 ts2, ts' = t2 :: ts2).
    { cbn in El. destruct (dumps_l false y); [|discriminate]. cbn in El.
      destruct (mapM (dumps_l false) l'); [|discriminate]. cbn in El.
      injection El as <-. eauto. }
    destruct Hts as (t2 & ts2 & ->).
    change (join_elems (t :: t2 :: ts2)) with (t ++ item_sep ++ join_elems (t2 :: ts2)).
    unfold need, list_sum in *. cbn [map fold_right] in *.
    split; [|split].
    + destruct t; [destruct Hh | exact Hh].
    + rewrite !length_app. cbn [item_sep chars list_ascii_of_string length]. lia.
    + intros fuel rest Hf. destruct fuel as [|f]; [lia|].
      rewrite array_items_S, <- !app_assoc, (Hs f) by (cbn; first [lia | reflexivity]).
      cbn [item_sep chars list_ascii_of_string app]. scan_step.
      rewrite skip_ws_head_ok by exact Hh'.
      rewrite Hs' by lia. reflexivity.
Qed.

Lemma mapM_cons_Some {A B} (f : A -> option B) (x : A) (l : list A) (ys : list B) :
  mapM f (x :: l) = Some ys ->
  exists y ys', f x = Some y /\ mapM f l = Some ys' /\ ys = y :: ys'.
Proof.
  change (mapM f (x :: l)) with (y ← f x; k ← mapM f l; mret (y :: k)).
  destruct (f x) as [y|]; [|discriminate]. cbn.
  destruct (mapM f l) as [ys'|]; [|discriminate]. cbn.
  intros [= <-]. eauto.
Qed.

Lemma object_items_join (d : list (string * pyval)) :
  Forall (fun kv => round_trips (snd kv)) d ->
  forallb (fun kv => jsonable (snd kv)) d = true -> d <> [] ->
  forall ms, mapM dump_member d = Some ms ->
    exists body,
      join_members ms = dquote :: body /\
      (need (fun kv => weight (snd kv)) d <= length body)%nat /\
      forall fuel rest, (need (fun kv => weight (snd kv)) d <= fuel)%nat ->
        object_items fuel (body ++ rest) = Some (d, rest).
Proof.
  induction d as [|[k x] d IH]; intros Hrt Hj Hne ms Hm; [congruence|].
  apply Forall_cons in Hrt as [Hx Hl]. cbn [forallb snd] in Hj, Hx.
  apply andb_true_iff in Hj as [Hjx Hjl].
  apply mapM_cons_Some in Hm as ([k0 t0] & ms' & Ex0 & El & ->).
  unfold dump_member in Ex0. cbn [fst snd] in Ex0.
  destruct (dumps_l false x) as [t|] eqn:Ex; [|discriminate]. cbn in Ex0.
  injection Ex0 as <- <-.
  destruct (Hx Hjx t Ex) as (Hh & Hw & Hs).
  destruct d as [|y d'].
  - cbn in El. injection El as <-.
    exists (escape_body (chars k) ++ dquote :: key_sep ++ t ++ chars "}").
    unfold need, list_sum. cbn [map fold_right snd].
    split; [|split].
    + unfold join_members, member, quote, quote_l. cbn [fst snd].
      repeat (rewrite <- app_assoc || rewrite <- app_comm_cons). reflexivity.
    + repeat (rewrite length_app || cbn [length key_sep item_sep chars list_ascii_of_string]).
      lia.
    + intros fuel rest Hf. destruct fuel as [|f]; [lia|].
      rewrite object_items_S. list_norm. rewrite scanstring_escape_body.
      cbn [key_sep chars list_ascii_of_string app]. scan_step.
      rewrite skip_ws_head_ok by exact Hh.
      rewrite (Hs f) by (cbn; first [lia | reflexivity]).
      scan_step.
      unfold chars. rewrite string_of_list_ascii_of_string. reflexivity.
  - specialize (IH Hl Hjl ltac:(discriminate) ms' El) as (body' & Hb' & Hw' & Hs').
    exists (escape_body (chars k) ++ dquote :: key_sep ++ t ++ item_sep ++ dquote :: body').
    assert (Hms : exists m2 ms2, ms' = m2 :: ms2).
    { apply mapM_cons_Some in El as (m2 & ms2 & _ & _ & ->). eauto. }
    destruct Hms as (m2 & ms2 & ->).
    change (join_members ((k, t) :: m2 :: ms2))
      with (member (k, t) ++ item_sep ++ join_members (m2 :: ms2)).
    rewrite Hb'.
    unfold need, list_sum in *. cbn [map fold_right snd] in *.
    split; [|split].
    + unfold member, quote, quote_l. cbn [fst snd].
      repeat (rewrite <- app_assoc || rewrite <- app_comm_cons). reflexivity.
    + repeat (rewrite length_app || cbn [length key_sep item_sep chars list_ascii_of_string]).
      lia.
    + intros fuel rest Hf. destruct fuel as [|f]; [lia|].
      rewrite object_items_S. list_norm. rewrite scanstring_escape_body.
      cbn [key_sep chars list_ascii_of_string app]. scan_step.
      rewrite skip_ws_head_ok by exact Hh.
      rewrite (Hs f) by (cbn; first [lia | reflexivity]).
      cbn [item_sep chars list_ascii_of_string app]. scan_step.
      rewrite Hs' by lia.
      unfold chars. rewrite string_of_list_ascii_of_string. reflexivity.
Qed.

Theorem scan_once_dumps (v : pyval) : round_trips v.
Proof.
  induction v as [| b | z | lit | s | b | l IH | d IH] using pyval_nested_ind;
    unfold round_trips; intros Hj t Ht; cbn in Hj; try discriminate Hj.
  - injection Ht as <-. split; [split; reflexivity | split; [cbn; lia | intros [|f] rest Hf _; [cbn in Hf; lia | reflexivity]]].
  - destruct b; injection Ht as <-; (split; [split; reflexivity | split; [cbn; lia | intros [|f] rest Hf _; [cbn in Hf; lia | reflexivity]]]).
  - cbn in Ht. injection Ht as <-.
    destruct (print_int_head z) as (c & t & E & Hc).
    split; [|split].
    + rewrite E. apply number_head_ok, Hc.
    + cbn. lia.
    + intros [|f] rest Hf Hr; [cbn in Hf; lia|].
      pose proof (match_number_print z rest Hr) as M.
      rewrite E in *. cbn [app] in *. apply scan_once_number; assumption.
  - cbn in Ht. injection Ht as <-. split; [|split].
    + split; reflexivity.
    + cbn. lia.
    + intros [|f] rest Hf Hr; [cbn in Hf; lia|].
      unfold quote, quote_l. cbn [app]. rewrite scan_once_string, <- app_assoc.
      cbn [app]. rewrite scanstring_escape_body.
      unfold chars. rewrite string_of_list_ascii_of_string. reflexivity.
  - cbn [dumps_l] in Ht.
    destruct (mapM (dumps_l false) l) as [ts|] eqn:El; [|discriminate]. cbn in Ht.
    injection Ht as <-. destruct l as [|x l'].
    + cbn in El. injection El as <-. split; [split; reflexivity | split; [cbn; lia | intros [|f] rest Hf _; [cbn in Hf; lia | reflexivity]]].
    + destruct (array_items_join (x :: l') IH Hj ltac:(discriminate) ts El) as (Hh & Hw & Hs).
      change (weight (PList (x :: l'))) with (S (need weight (x :: l'))).
      split; [|split].
      * split; reflexivity.
      * cbn [length]. lia.
      * intros [|f] rest Hf Hr; [lia|].
        cbn [app]. rewrite scan_once_array, skip_ws_head_ok by exact Hh.
        destruct (join_elems ts) as [|c1 r1] eqn:Ej; [destruct Hh|].
        cbn [app]. destruct Hh as [_ ->].
        change (c1 :: r1 ++ rest) with ((c1 :: r1) ++ rest).
        rewrite Hs by lia. reflexivity.
  - apply andb_true_iff in Hj as [Hd Hj].
    cbn [dumps_l] in Ht. change (fun kv : string * pyval => t ← dumps_l false (snd kv); Some (fst kv, t))
      with dump_member in Ht.
    destruct (mapM dump_member d) as [ms|] eqn:El; [|discriminate]. cbn in Ht.
    injection Ht as <-. destruct d as [|kv d'].
    + cbn in El. injection El as <-. split; [split; reflexivity | split; [cbn; lia | intros [|f] rest Hf _; [cbn in Hf; lia | reflexivity]]].
    + destruct (object_items_join (kv :: d') IH Hj ltac:(discriminate) ms El)
        as (body & Hb & Hw & Hs).
      change (weight (PDict (kv :: d'))) with (S (need (fun kv => weight (snd kv)) (kv :: d'))).
      rewrite Hb. split; [|split].
      * split; reflexivity.
      * cbn [length]. lia.
      * intros [|f] rest Hf Hr; [lia|].
        cbn [app]. rewrite scan_once_object.
        cbn [skip_ws]. change (is_ws dquote) with false. cbv iota.
        change (N_of_ascii dquote =? 125)%N with false.
        change (N_of_ascii dquote =? 34)%N with true. cbv iota.
        rewrite Hs by lia. rewrite of_pairs_distinct by exact Hd. reflexivity.
Qed.

(** [json.loads(json.dumps(v)) == v]. *)
Theorem loads_dumps (v : pyval) (s : string) :
  jsonable v = true -> dumps v = Some s -> loads s = Some v.
Proof.
  intros Hj Hd. unfold dumps in Hd.
  destruct (dumps_l false v) as [t|] eqn:Et; [|discriminate]. cbn in Hd.
  injection Hd as <-.
  destruct (scan_once_dumps v Hj t Et) as (Hh & Hw & Hs).
  unfold loads, chars. rewrite list_ascii_of_string_of_list_ascii.
  pose proof (skip_ws_head_ok t [] Hh) as Hsk. rewrite app_nil_r in Hsk. rewrite Hsk.
  specialize (Hs (2 * length t + 2)%nat [] ltac:(lia) I). rewrite app_nil_r in Hs.
  rewrite Hs. reflexivity.
Qed.

End JsonFacts.

(** ** The store *)

Module StoreFacts.

Lemma set_store_id (w : world) : set_store (store w) w = w.
Proof. destruct w; reflexivity. Qed.

Lemma elem_of_scan (now : Z) (db : gmap string Redis.entry) (k : string) :
  k ∈ Redis.scan now db <-> exists e, db !! k = Some e /\ Redis.live now e = true.
Proof.
  unfold Redis.scan. rewrite list_elem_of_fmap. split.
  - intros ([k' e] & -> & H). apply elem_of_map_to_list in H.
    apply map_lookup_filter_Some in H as [H1 H2]. eauto.
  - intros (e & H1 & H2). exists (k, e). split; [reflexivity|].
    apply elem_of_map_to_list. apply map_lookup_filter_Some. auto.
Qed.

Lemma lookup_delete_all (keys : list string) (db : gmap string Redis.entry) (k : string) :
  Redis.delete_all keys db !! k = if decide (k ∈ keys) then None else db !! k.
Proof.
  revert db. induction keys as [|x keys IH]; intros db; cbn.
  - destruct (decide (k ∈ [])) as [H|_]; [inversion H | reflexivity].
  - fold (Redis.delete_all keys (Redis.del x db)). rewrite IH. unfold Redis.del.
    destruct (decide (k ∈ keys)) as [Hin|Hnin].
    + rewrite decide_True by (right; exact Hin). reflexivity.
    + destruct (decide (k = x)) as [->|Hne].
      * rewrite decide_True by left. apply lookup_delete_eq.
      * rewrite decide_False by (rewrite elem_of_cons; tauto).
        apply lookup_delete_ne. congruence.
Qed.

Lemma for_each_delete (keys : list string) (w : world) :
  redis_up w = true ->
  for_each keys redis_delete w = (Ok tt, set_store (Redis.delete_all keys (store w)) w).
Proof.
  revert w. induction keys as [|x keys IH]; intros w Hup; cbn.
  - rewrite set_store_id. reflexivity.
  - unfold mbind, M_bind, redis_delete at 1. rewrite Hup.
    rewrite IH by exact Hup. destruct w; reflexivity.
Qed.

Lemma lookup_after_delete_scan (now : Z) (db : gmap string Redis.entry) (k : string) :
  Redis.lookup now k (Redis.delete_all (Redis.scan now db) db) = None.
Proof.
  unfold Redis.lookup. rewrite lookup_delete_all.
  destruct (decide (k ∈ Redis.scan now db)) as [Hin|Hnin]; [reflexivity|].
  destruct (db !! k) as [e|] eqn:Ek; [|reflexivity].
  destruct (Redis.live now e) eqn:El; [|reflexivity].
  exfalso. apply Hnin, elem_of_scan. eauto.
Qed.

Lemma scan_nil (now : Z) (db : gmap string Redis.entry) :
  (forall k, Redis.lookup now k db = None) -> Redis.scan now db = [].
Proof.
  intros H. destruct (Redis.scan now db) as [|k l] eqn:Es; [reflexivity|].
  exfalso. assert (Hk : k ∈ k :: l) by left. rewrite <- Es in Hk.
  apply elem_of_scan in Hk as (e & H1 & H2).
  specialize (H k). unfold Redis.lookup in H. rewrite H1, H2 in H. discriminate.
Qed.

End StoreFacts.

(** ** Computations that leave an observation of the world alone *)

Module Frame.

Section Preserves.
Context {X : Type} (obs : world -> X).
Local Abbreviation preserves := (preserves obs).

Lemma preserves_ret {A} (a : A) : preserves (mret a).
Proof. intros w. reflexivity. Qed.

Lemma preserves_raise {A} (e : exn) : preserves (@raise A e).
Proof. intros w. reflexivity. Qed.

Lemma preserves_bind {A B} (m : M A) (k : A -> M B) :
  preserves m -> (forall a, preserves (k a)) -> preserves (m ≫= k).
Proof.
  intros Hm Hk w. unfold mbind, M_bind. specialize (Hm w).
  destruct (m w) as [[a|e] w1]; cbn in *; [rewrite Hk|]; exact Hm.
Qed.

Lemma preserves_try_except {A} (m : M A) (h : exn -> M A) :
  preserves m -> (forall e, preserves (h e)) -> preserves (try_except m h).
Proof.
  intros Hm Hh w. unfold try_except. specialize (Hm w).
  destruct (m w) as [[a|e] w1]; cbn in *; [|rewrite Hh]; exact Hm.
Qed.

Lemma preserves_try_finally {A} (m : M A) (f : M unit) :
  preserves m -> preserves f -> preserves (try_finally m f).
Proof.
  intros Hm Hf w. unfold try_finally. specialize (Hm w).
  destruct (m w) as [r w1]; cbn in *. rewrite Hf. exact Hm.
Qed.

Lemma preserves_for_each {A} (l : list A) (body : A -> M unit) :
  (forall x, preserves (body x)) -> preserves (for_each l body).
Proof.
  intros H. induction l as [|x l IH]; cbn.
  - apply preserves_ret.
  - apply preserves_bind; [apply H | intros _; exact IH].
Qed.

(** Observations that do not read the log, the sockets or the store. *)
Hypothesis obs_log : forall l w, obs (set_log l w) = obs w.
Hypothesis obs_sockets : forall s w, obs (set_sockets s w) = obs w.
Hypothesis obs_store : forall db w, obs (set_store db w) = obs w.
Hypothesis obs_methods : forall m w, obs (set_request_methods m w) = obs w.

Lemma preserves_logger l msg : preserves (logger l msg).
Proof. intros w. apply obs_log. Qed.

Lemma preserves_sendall c data : preserves (sendall c data).
Proof.
  intros w. unfold sendall. destruct (sockets w !! c) as [s|]; [|reflexivity].
  destruct (peer_open s && negb (closed s))%bool; [apply obs_sockets | reflexivity].
Qed.

Lemma preserves_close c : preserves (close c).
Proof.
  intros w. unfold close. destruct (sockets w !! c) as [s|]; [apply obs_sockets | reflexivity].
Qed.

Lemma preserves_redis_get k : preserves (redis_get k).
Proof. intros w. unfold redis_get. destruct (redis_up w); reflexivity. Qed.

Lemma preserves_redis_setex k ttl v : preserves (redis_setex k ttl v).
Proof.
  intros w. unfold redis_setex, Redis.setex. destruct (redis_up w); [|reflexivity].
  destruct (ttl <=? 0); cbn; apply obs_store.
Qed.

Lemma preserves_update_method_stat method : preserves (Statistics.update_method_stat method).
Proof.
  intros w. unfold Statistics.update_method_stat.
  destruct (request_methods w !! method); apply obs_methods.
Qed.

End Preserves.

End Frame.

(** ** The counters of forwarded requests *)

Module SuccessCounters.
Import Frame.
Local Abbreviation obs := success_counters.

Lemma obs_log l w : obs (set_log l w) = obs w.
Proof. reflexivity. Qed.
Lemma obs_sockets s w : obs (set_sockets s w) = obs w.
Proof. reflexivity. Qed.
Lemma obs_store db w : obs (set_store db w) = obs w.
Proof. reflexivity. Qed.
Lemma obs_methods m w : obs (set_request_methods m w) = obs w.
Proof. reflexivity. Qed.

Lemma keep_increment (stat : string) (v : Z) :
  stat <> "requests_success" -> stat <> "bytes_transferred" ->
  preserves obs (Statistics.increment stat v).
Proof.
  intros H1 H2 w. unfold Statistics.increment. destruct (stats w !! stat); [|reflexivity].
  unfold obs. cbn. rewrite !lookup_insert_ne by congruence. reflexivity.
Qed.

Lemma keep_decrement (stat : string) (v : Z) :
  stat <> "requests_success" -> stat <> "bytes_transferred" ->
  preserves obs (Statistics.decrement stat v).
Proof.
  intros H1 H2 w. unfold Statistics.decrement. destruct (stats w !! stat); [|reflexivity].
  unfold obs. cbn. rewrite !lookup_insert_ne by congruence. reflexivity.
Qed.

Ltac keep :=
  repeat first
    [ apply preserves_ret
    | apply preserves_raise
    | apply (preserves_logger obs obs_log)
    | apply (preserves_sendall obs obs_sockets)
    | apply (preserves_close obs obs_sockets)
    | apply (preserves_redis_get obs)
    | apply (preserves_redis_setex obs obs_store)
    | apply (preserves_update_method_stat obs obs_methods)
    | apply keep_increment; discriminate
    | apply keep_decrement; discriminate
    | apply preserves_bind; [|intros ?]
    | apply preserves_try_except; [|intros ?]
    | apply preserves_try_finally ].

Lemma keep_generate_cache_key E method url headers body :
  preserves obs (_generate_cache_key E method url headers body).
Proof.
  unfold _generate_cache_key.
  destruct (Json.dumps_sorted _); keep.
Qed.

Lemma keep_restore_content v : preserves obs (restore_content v).
Proof.
  unfold restore_content.
  destruct v as [| | | | s | | l | d]; try solve [keep].
  - destruct (py_in _ _) as [[]|]; keep.
  - destruct (py_in _ _) as [[]|]; keep.
  - destruct (PyDict.get _ d) as [[| | | | b64 | | |]|]; try solve [keep].
    destruct (Base64.b64decode _); keep.
Qed.

Lemma keep_get_cached_response E method url headers body :
  preserves obs (get_cached_response E method url headers body).
Proof.
  unfold get_cached_response. destruct (negb _); [keep|].
  apply preserves_bind; [apply keep_generate_cache_key | intros key].
  apply preserves_bind; [keep | intros [data|]]; [|keep].
  destruct (PyStr.nonempty data); [|keep].
  apply preserves_bind; [keep | intros _].
  destruct (Json.loads data); [apply keep_restore_content | keep].
Qed.

Lemma keep_classify E cfg method path headers body :
  preserves obs (classify E cfg method path headers body).
Proof.
  unfold classify. destruct (RequestFilter.should_filter _ _ _); [keep|].
  destruct (String.eqb path _); [keep|].
  apply preserves_bind.
  - destruct (String.eqb method _); [apply keep_get_cached_response | keep].
  - intros [cached|]; [destruct (truthy cached)|]; keep.
Qed.

Lemma keep_send_response E cfg c response_data :
  preserves obs (_send_response_to_client E cfg c response_data).
Proof. unfold _send_response_to_client. destruct (compose_response _ _ _); keep. Qed.

Lemma keep_send_error c code reason : preserves obs (_send_error_response c code reason).
Proof. unfold _send_error_response. keep. Qed.

Lemma keep_handle_stats E c : preserves obs (_handle_stats_request E c).
Proof. intros w. unfold _handle_stats_request. apply (preserves_sendall obs obs_sockets). Qed.

Lemma keep_handler_except c e : preserves obs (handler_except c e).
Proof. unfold handler_except. destruct e; keep; apply keep_send_error. Qed.

Lemma keep_handler_finally c : preserves obs (handler_finally c).
Proof. unfold handler_finally. keep. Qed.

Lemma keep_counted method w : obs (counted method w) = obs w.
Proof. unfold counted. revert w. fold (preserves obs (Statistics.increment "requests_total" 1;;
        Statistics.update_method_stat method)). keep. Qed.

End SuccessCounters.

(** ** The handler, branch by branch *)

Module HandlerFacts.

Lemma increment_run (stat : string) (v : Z) (w : world) :
  Statistics.increment stat v w = (Ok tt, snd (Statistics.increment stat v w)).
Proof. unfold Statistics.increment. destruct (stats w !! stat); reflexivity. Qed.

Lemma update_method_stat_run (method : string) (w : world) :
  Statistics.update_method_stat method w =
    (Ok tt, snd (Statistics.update_method_stat method w)).
Proof.
  unfold Statistics.update_method_stat. destruct (request_methods w !! method); reflexivity.
Qed.

(** A parsed request is counted, classified, then dispatched. *)
Lemma handle_request_run E cfg c method path headers body w :
  handle_request E cfg c (ReadRequest method path headers body) w =
    match classify E cfg method path headers body (counted method w) with
    | (Ok branch, w2) => dispatch E cfg c method path headers body branch w2
    | (Raise e, w2) => (Raise e, w2)
    end.
Proof.
  unfold handle_request, counted, mbind, M_bind.
  rewrite increment_run. cbn [snd].
  rewrite update_method_stat_run. cbn [snd]. reflexivity.
Qed.

Lemma handler_run E cfg c r w :
  _handle_client_request E cfg c r w =
    let '(res, w1) := try_except (handle_request E cfg c r) (handler_except c) w in
    (res, snd (handler_finally c w1)).
Proof. reflexivity. Qed.

End HandlerFacts.

(** ** The cache *)

Module CacheFacts.
Import Json.

Lemma dumps_l_encodable (sk : bool) (v : pyval) :
  encodable v = true -> is_Some (dumps_l sk v).
Proof.
  induction v as [| b | z | lit | s | b | l IH | d IH] using pyval_nested_ind;
    intros He; cbn in He; try discriminate He; cbn [dumps_l]; try (eexists; reflexivity).
  - destruct b; eexists; reflexivity.
  - assert (Hm : is_Some (mapM (dumps_l sk) l)).
    { apply mapM_is_Some. rewrite Forall_forall. intros x Hx.
      rewrite Forall_forall in IH. apply IH; [exact Hx|].
      rewrite forallb_forall in He. apply He. apply list_elem_of_In, Hx. }
    destruct Hm as [ts ->]. eexists; reflexivity.
  - assert (Hm : is_Some (mapM (fun kv => t ← dumps_l sk (snd kv); Some (fst kv, t)) d)).
    { apply mapM_is_Some. rewrite Forall_forall. intros kv Hx.
      rewrite Forall_forall in IH. cbn.
      destruct (IH kv Hx) as [t ->]; [|eexists; reflexivity].
      rewrite forallb_forall in He. apply He. apply list_elem_of_In, Hx. }
    destruct Hm as [ms ->]. eexists; reflexivity.
Qed.

Lemma jsonable_encodable (v : pyval) : jsonable v = true -> encodable v = true.
Proof.
  induction v as [| b | z | lit | s | b | l IH | d IH] using pyval_nested_ind;
    cbn; intros H; try reflexivity; try discriminate H.
  - rewrite forallb_forall in *. rewrite Forall_forall in IH.
    intros x Hx. apply IH; [apply list_elem_of_In, Hx | apply H, Hx].
  - apply andb_true_iff in H as [_ H].
    rewrite forallb_forall in *. rewrite Forall_forall in IH.
    intros x Hx. apply IH; [apply list_elem_of_In, Hx | apply H, Hx].
Qed.

Lemma all_str_set (k s : string) (d : list (string * pyval)) :
  all_str d -> all_str (PyDict.set k (PStr s) d).
Proof.
  unfold all_str. induction d as [|[k' v'] d IH]; intros H; cbn.
  - constructor; [eexists; reflexivity | constructor].
  - apply Forall_cons in H as [Hv Hd]. destruct (String.eqb k k').
    + constructor; [eexists; reflexivity | exact Hd].
    + constructor; [exact Hv | apply IH, Hd].
Qed.

Lemma all_str_cache_headers (headers : list (string * string)) :
  all_str (cache_headers headers).
Proof.
  unfold cache_headers.
  assert (G : forall acc, all_str acc ->
    all_str (fold_left (fun d kv =>
       let k := PyStr.lower (fst kv) in
       if relevant_header k then PyDict.set k (PStr (snd kv)) d else d) headers acc)).
  { induction headers as [|kv hs IH]; intros acc Ha; cbn; [exact Ha|].
    apply IH. destruct (relevant_header _); [apply all_str_set|]; exact Ha. }
  apply G. constructor.
Qed.

Lemma all_str_encodable (d : list (string * pyval)) :
  all_str d -> forallb (fun kv => encodable (snd kv)) d = true.
Proof.
  intros H. apply forallb_forall. intros kv Hin.
  unfold all_str in H. rewrite Forall_forall in H.
  destruct (H kv (proj2 (list_elem_of_In _ _) Hin)) as [s ->]. reflexivity.
Qed.

Lemma all_str_headers_dict (hs : list (string * string)) : all_str (headers_dict hs).
Proof.
  unfold all_str, headers_dict. apply Forall_fmap, Forall_forall.
  intros kv _. eexists; reflexivity.
Qed.

(** The cache key is a function of the request alone, and never fails. *)
Lemma generate_cache_key_total E method url headers body :
  exists key, forall w, _generate_cache_key E method url headers body w = (Ok key, w).
Proof.
  unfold _generate_cache_key.
  match goal with
  | |- context [dumps_sorted ?v] => assert (He : encodable v = true)
  end.
  { pose proof (all_str_encodable _ (all_str_cache_headers headers)) as Hh.
    destruct body as [b|]; [destruct (_ && _)%bool|]; cbn; rewrite Hh; reflexivity. }
  unfold dumps_sorted.
  match goal with
  | |- context [dumps_l true ?v] => destruct (dumps_l_encodable true v He) as [t ->]
  end.
  eexists. intros w. reflexivity.
Qed.


(** What [cache_response] serialises: [response_data] with its body
    replaced by the base64 text. *)
Lemma cache_data_eq (r : response) :
  PyDict.del "content"
    (PyDict.set "content_base64"
       (PStr (string_of_list_ascii (Base64.b64encode (resp_content r))))
       (response_dict r)) = cache_data r.
Proof. reflexivity. Qed.

Lemma jsonable_headers_dict (hs : list (string * string)) :
  distinct (map fst hs) = true -> jsonable (PDict (headers_dict hs)) = true.
Proof.
  intros H. cbn [jsonable]. apply andb_true_iff. split.
  - unfold headers_dict. rewrite map_map. cbn. exact H.
  - apply forallb_forall. intros kv Hin. unfold headers_dict in Hin.
    apply in_map_iff in Hin as (x & <- & _). reflexivity.
Qed.

Lemma jsonable_cache_data (r : response) :
  distinct (map fst (resp_headers r)) = true -> jsonable (PDict (cache_data r)) = true.
Proof.
  intros H. pose proof (jsonable_headers_dict _ H) as Hh.
  unfold cache_data. cbn [jsonable map fst snd forallb distinct existsb] in *.
  rewrite Hh. reflexivity.
Qed.

Lemma dumps_cache_data (r : response) :
  exists text, dumps (PDict (cache_data r)) = Some text /\ PyStr.nonempty text = true.
Proof.
  assert (He : encodable (PDict (cache_data r)) = true).
  { unfold cache_data. cbn [encodable forallb snd].
    change (encodable (PDict (headers_dict (resp_headers r))))
      with (forallb (fun kv => encodable (snd kv)) (headers_dict (resp_headers r))).
    rewrite (all_str_encodable _ (all_str_headers_dict _)). reflexivity. }
  destruct (dumps_l_encodable false _ He) as [t Ht].
  unfold dumps. rewrite Ht. eexists. split; [reflexivity|].
  cbn [dumps_l] in Ht. destruct (mapM _ _) as [ms|]; [|discriminate].
  cbn in Ht. injection Ht as <-. reflexivity.
Qed.

Lemma restore_cache_data (r : response) (w : world) :
  restore_content (PDict (cache_data r)) w = (Ok (Some (PDict (restored r))), w).
Proof.
  unfold restore_content, cache_data. cbn [PyDict.get String.eqb Ascii.eqb Bool.eqb].
  cbn. rewrite list_ascii_of_string_of_list_ascii, Base64Facts.b64decode_b64encode.
  reflexivity.
Qed.


(** A GET response that passes the admission tests is written under the
    request's key with the configured time to live. *)
Lemma cache_response_stores E cfg url headers body (r : response) (w : world) key :
  (forall w, _generate_cache_key E "GET" url headers body w = (Ok key, w)) ->
  redis_up w = true -> 0 < CACHE_EXPIRATION cfg ->
  resp_status_code r < 400 -> forbids_caching r = false ->
  exists text,
    dumps (PDict (cache_data r)) = Some text /\ PyStr.nonempty text = true /\
    cache_response E cfg "GET" url headers r body w =
      (Ok tt, set_store (<[key := {| Redis.value := Redis.RString text;
                                      Redis.expires := Some (now w + CACHE_EXPIRATION cfg) |}]>
                           (store w)) w).
Proof.
  intros Hkey Hup Httl Hst Hcc.
  destruct (dumps_cache_data r) as (text & Hd & Hne). exists text. repeat split; auto.
  unfold cache_response. cbn [String.eqb Ascii.eqb Bool.eqb negb].
  unfold mbind, M_bind. rewrite Hkey.
  replace (400 <=? resp_status_code r) with false by (symmetry; apply Z.leb_gt; lia).
  unfold forbids_caching in Hcc. rewrite Hcc.
  rewrite cache_data_eq, Hd. unfold try_except, redis_setex, Redis.setex.
  rewrite Hup. replace (CACHE_EXPIRATION cfg <=? 0) with false
    by (symmetry; apply Z.leb_gt; lia).
  reflexivity.
Qed.

End CacheFacts.

Module ReplyFacts.

Lemma counted_sockets method w : sockets (counted method w) = sockets w.
Proof.
  unfold counted, mbind, M_bind, Statistics.increment, Statistics.update_method_stat.
  destruct (stats w !! "requests_total"); cbn;
    destruct (request_methods w !! method); reflexivity.
Qed.

Lemma counted_now method w : now (counted method w) = now w.
Proof.
  unfold counted, mbind, M_bind, Statistics.increment, Statistics.update_method_stat.
  destruct (stats w !! "requests_total"); cbn;
    destruct (request_methods w !! method); reflexivity.
Qed.

(** Writing to a socket that is open on both sides. *)
Lemma sendall_open c data w s :
  sockets w !! c = Some s -> peer_open s = true -> closed s = false ->
  sendall c data w =
    (Ok tt, set_sockets (<[c := {| peer_open := true; sent := sent s ++ [data];
                                    closed := false |}]> (sockets w)) w).
Proof. intros H Hp Hc. unfold sendall. rewrite H, Hp, Hc. reflexivity. Qed.

(** The [finally] clause closes the socket and keeps what was sent. *)
Lemma handler_finally_socket c w s :
  sockets w !! c = Some s ->
  sockets (snd (handler_finally c w)) !! c =
    Some {| peer_open := peer_open s; sent := sent s; closed := true |}.
Proof.
  intros H. unfold handler_finally, mbind, M_bind, close. rewrite H.
  unfold Statistics.decrement. cbn.
  destruct (stats w !! "active_connections"); cbn; apply lookup_insert_eq.
Qed.

End ReplyFacts.

Module AcceptFacts.

(** [is_rate_limited] touches the store only, and fails only as the
    store client does. *)
Lemma is_rate_limited_frame cfg client_ip w r w1 :
  is_rate_limited cfg client_ip w = (r, w1) ->
  (exists db, w1 = set_store db w) /\
  (forall e, r = Raise e -> e = RedisConnectionError \/ e = RedisResponseError).
Proof.
  unfold is_rate_limited. destruct (redis_up w).
  - destruct (Redis.zremrangebyscore _ _ _ _ _) as [r1 db1].
    destruct (Redis.zadd _ _ _ _ _) as [r2 db2].
    destruct (Redis.expire _ _ _ _) as [r4 db3].
    destruct (Redis.zcard _ _ db2) as [n|e3].
    all: destruct r1, r2, r4; intros [= <- <-];
      (split; [eexists; reflexivity | intros e' [=]; subst; auto]).
  - intros [= <- <-]. split.
    + exists (store w). symmetry. apply StoreFacts.set_store_id.
    + intros e' [= <-]. auto.
Qed.

End AcceptFacts.

(** ** The rate limiter *)

Module RateLimiterFacts.

Lemma is_rate_limited_run (cfg : config) (client_ip : string) (w : world) :
  redis_up w = true -> 0 < RATE_LIMIT_WINDOW cfg ->
  not_a_string (now w) (rate_limit_key client_ip) (store w) ->
  is_rate_limited cfg client_ip w =
    (Ok (RATE_LIMIT_REQUESTS cfg <?
           Z.of_nat (size (<[str_of_int (now w) := now w]>
                             (trimmed (now w - RATE_LIMIT_WINDOW cfg)
                                (window (now w) (rate_limit_key client_ip) (store w)))))),
     set_store
       (<[rate_limit_key client_ip :=
            {| Redis.value :=
                 Redis.RZSet (<[str_of_int (now w) := now w]>
                                (trimmed (now w - RATE_LIMIT_WINDOW cfg)
                                   (window (now w) (rate_limit_key client_ip) (store w))));
               Redis.expires := Some (now w + RATE_LIMIT_WINDOW cfg) |}]> (store w)) w).
Proof.
  intros Hup HW Hns. unfold is_rate_limited. rewrite Hup.
  set (key := rate_limit_key client_ip) in *. set (t := now w) in *.
  set (W := RATE_LIMIT_WINDOW cfg) in *.
  assert (HWf : (W <=? 0) = false) by (apply Z.leb_gt; lia).
  unfold window, Redis.zremrangebyscore.
  destruct (Redis.lookup t key (store w)) as [[[s|z] ex]|] eqn:El.
  - exfalso. exact (Hns s ex El).
  - fold (trimmed (t - W) z).
    assert (Hlive : Redis.live t {| Redis.value := Redis.RZSet z; Redis.expires := ex |} = true).
    { unfold Redis.lookup in El. destruct (store w !! key) as [e|]; [|discriminate].
      destruct (Redis.live t e) eqn:E; [|discriminate]. injection El as ->. exact E. }
    destruct (decide (size (trimmed (t - W) z) = 0%nat)) as [Hz|Hnz].
    + apply map_size_empty_iff in Hz. rewrite Hz.
      unfold Redis.zadd, Redis.lookup. rewrite lookup_delete_eq.
      unfold Redis.zcard, Redis.lookup. rewrite lookup_insert_eq. cbn.
      unfold Redis.expire, Redis.lookup. rewrite lookup_insert_eq. cbn. rewrite HWf.
      rewrite insert_insert_eq, insert_delete_eq. reflexivity.
    + unfold Redis.zadd, Redis.lookup. rewrite lookup_insert_eq.
      change (Redis.live t {| Redis.value := Redis.RZSet (trimmed (t - W) z); Redis.expires := ex |})
        with (Redis.live t {| Redis.value := Redis.RZSet z; Redis.expires := ex |}).
      rewrite Hlive.
      unfold Redis.zcard, Redis.lookup. rewrite lookup_insert_eq.
      change (Redis.live t {| Redis.value := Redis.RZSet (<[str_of_int t:=t]> (trimmed (t - W) z));
                              Redis.expires := ex |})
        with (Redis.live t {| Redis.value := Redis.RZSet z; Redis.expires := ex |}).
      rewrite Hlive.
      unfold Redis.expire, Redis.lookup. rewrite lookup_insert_eq.
      change (Redis.live t {| Redis.value := Redis.RZSet (<[str_of_int t:=t]> (trimmed (t - W) z));
                              Redis.expires := ex |})
        with (Redis.live t {| Redis.value := Redis.RZSet z; Redis.expires := ex |}).
      rewrite Hlive, HWf. cbn. rewrite !insert_insert_eq. reflexivity.
  - unfold trimmed. rewrite map_filter_empty.
    unfold Redis.zadd. rewrite El.
    unfold Redis.zcard, Redis.lookup. rewrite lookup_insert_eq. cbn.
    unfold Redis.expire, Redis.lookup. rewrite lookup_insert_eq. cbn. rewrite HWf.
    rewrite insert_insert_eq. reflexivity.
Qed.

Lemma print_int_inj (a b : Z) : Json.print_int a = Json.print_int b -> a = b.
Proof.
  intros H.
  pose proof (JsonFacts.match_number_print a [] I) as Ha.
  pose proof (JsonFacts.match_number_print b [] I) as Hb.
  rewrite H in Ha. rewrite Ha in Hb. congruence.
Qed.

Lemma str_of_int_inj (a b : Z) : str_of_int a = str_of_int b -> a = b.
Proof.
  unfold str_of_int. intros H. apply print_int_inj.
  rewrite <- (list_ascii_of_string_of_list_ascii (Json.print_int a)), H.
  apply list_ascii_of_string_of_list_ascii.
Qed.

(** A window whose members are seconds of an interval of [n] seconds has
    at most [n] members. *)
Lemma window_size (a n : Z) (z : gmap string Z) :
  0 <= n ->
  (forall m s, z !! m = Some s -> m = str_of_int s /\ a < s <= a + n) ->
  Z.of_nat (size z) <= n.
Proof.
  intros Hn Hz.
  assert (Hsub : (map_to_list z).*1 ⊆+ (str_of_int <$> seqZ (a + 1) n)).
  { apply NoDup_submseteq; [apply NoDup_fst_map_to_list|].
    intros m Hm. apply list_elem_of_fmap in Hm as [[m' s] [-> Hin]].
    apply elem_of_map_to_list in Hin. destruct (Hz _ _ Hin) as [-> Hs]. cbn.
    apply list_elem_of_fmap. exists s. split; [reflexivity|].
    apply elem_of_seqZ. lia. }
  apply submseteq_length in Hsub.
  rewrite !length_fmap, length_seqZ in Hsub.
  rewrite <- length_map_to_list. lia.
Qed.

Lemma trimmed_lookup (hi : Z) (z : gmap string Z) (m : string) (s : Z) :
  trimmed hi z !! m = Some s <-> z !! m = Some s /\ ~ (0 <= s <= hi).
Proof.
  unfold trimmed. rewrite map_lookup_filter_Some. cbn.
  rewrite negb_true_iff, andb_false_iff, !Z.leb_gt. intuition lia.
Qed.

Lemma window_seconds (w : world) (client_ip : string) :
  limiter_store w -> seconds_window (now w) (window (now w) (rate_limit_key client_ip) (store w)).
Proof.
  intros Hs. unfold window, Redis.lookup.
  destruct (store w !! rate_limit_key client_ip) as [e|] eqn:El; [|intros m s; rewrite lookup_empty; discriminate].
  destruct (Hs _ _ El) as (z & Hv & Hz).
  destruct (Redis.live (now w) e); [|intros m s; rewrite lookup_empty; discriminate].
  destruct e as [v ex]. cbn in Hv. subst v. exact Hz.
Qed.

Lemma limiter_store_not_a_string (w : world) (client_ip : string) :
  limiter_store w -> not_a_string (now w) (rate_limit_key client_ip) (store w).
Proof.
  intros Hs s ex Hl. unfold Redis.lookup in Hl.
  destruct (store w !! rate_limit_key client_ip) as [e|] eqn:El; [|discriminate].
  destruct (Redis.live (now w) e); [|discriminate]. injection Hl as ->.
  destruct (Hs _ _ El) as (z & Hv & _). discriminate.
Qed.

(** The members that [is_rate_limited] counts all lie in the last
    [RATE_LIMIT_WINDOW] seconds, one for each second. *)
Lemma counted_window (W : Z) (w : world) (client_ip : string) (m : string) (s : Z) :
  limiter_store w -> 0 <= now w -> 0 < W ->
  <[str_of_int (now w) := now w]>
    (trimmed (now w - W) (window (now w) (rate_limit_key client_ip) (store w))) !! m = Some s ->
  m = str_of_int s /\ 0 <= s <= now w /\ now w - W < s.
Proof.
  intros Hs Hnow HW Hl. apply lookup_insert_Some in Hl as [[<- <-] | [_ Hl]].
  - split; [reflexivity | lia].
  - apply trimmed_lookup in Hl as [Hl Hout].
    destruct (window_seconds w client_ip Hs _ _ Hl) as [-> Hr].
    split; [reflexivity | lia].
Qed.

(** With a window of at most [RATE_LIMIT_REQUESTS] seconds no connection
    is refused, and the store stays as the limiter writes it. *)
Lemma accept_step_never_limits (cfg : config) (c : nat) (client_ip : string) (w : world) :
  0 < RATE_LIMIT_WINDOW cfg <= RATE_LIMIT_REQUESTS cfg ->
  redis_up w = true -> 0 <= now w -> limiter_store w ->
  let w' := snd (accept_step cfg (Accepted c client_ip) w) in
  redis_up w' = true /\ now w' = now w /\ limiter_store w' /\
  rate_limited_requests w' = rate_limited_requests w /\
  request_queue w' = request_queue w ++ [(c, client_ip)].
Proof.
  intros HW Hup Hnow Hs.
  pose proof (is_rate_limited_run cfg client_ip (snd (new_socket c w)) Hup (proj1 HW)
                (limiter_store_not_a_string _ client_ip Hs)) as Hrun.
  cbn [new_socket snd set_sockets now store] in Hrun.
  set (z' := <[str_of_int (now w) := now w]> _) in Hrun.
  assert (Hz' : forall m s, z' !! m = Some s ->
                  m = str_of_int s /\ 0 <= s <= now w /\ now w - RATE_LIMIT_WINDOW cfg < s).
  { intros m s. apply counted_window; [exact Hs | exact Hnow | lia]. }
  assert (Hsize : Z.of_nat (size z') <= RATE_LIMIT_WINDOW cfg).
  { apply (window_size (now w - RATE_LIMIT_WINDOW cfg)); [lia|].
    intros m s Hl. destruct (Hz' m s Hl) as (-> & ? & ?). split; [reflexivity | lia]. }
  assert (Hlt : (RATE_LIMIT_REQUESTS cfg <? Z.of_nat (size z')) = false) by (apply Z.ltb_ge; lia).
  rewrite Hlt in Hrun.
  unfold accept_step, try_except, mbind, M_bind. cbn [new_socket].
  rewrite Hrun. unfold queue_put. cbn.
  rewrite HandlerFacts.increment_run. cbn [snd].
  unfold Statistics.increment, rate_limited_requests. cbn.
  split; [|split; [|split; [|split]]].
  - destruct (stats w !! "active_connections"); exact Hup.
  - destruct (stats w !! "active_connections"); reflexivity.
  - assert (Hst : forall ip e,
               <[rate_limit_key client_ip :=
                   {| Redis.value := Redis.RZSet z';
                      Redis.expires := Some (now w + RATE_LIMIT_WINDOW cfg) |}]> (store w)
                 !! rate_limit_key ip = Some e ->
               exists z, Redis.value e = Redis.RZSet z /\ seconds_window (now w) z).
    { intros ip e Hl. apply lookup_insert_Some in Hl as [[_ <-] | [_ Hl]].
      - exists z'. split; [reflexivity|]. intros m s Hm.
        destruct (Hz' m s Hm) as (-> & ? & _). split; [reflexivity | assumption].
      - exact (Hs ip e Hl). }
    destruct (stats w !! "active_connections"); exact Hst.
  - destruct (stats w !! "active_connections"); cbn; [|reflexivity].
    rewrite lookup_insert_ne by discriminate. reflexivity.
  - destruct (stats w !! "active_connections"); reflexivity.
Qed.

Lemma advance_limiter_store (d : Z) (w : world) :
  0 <= d -> limiter_store w -> limiter_store (advance d w).
Proof.
  intros Hd Hs ip e Hl. destruct (Hs ip e Hl) as (z & Hv & Hz).
  exists z. split; [exact Hv|]. intros m s Hm. destruct (Hz m s Hm) as [-> ?].
  cbn. split; [reflexivity | lia].
Qed.

(** The limiter never fires when [RATE_LIMIT_WINDOW <= RATE_LIMIT_REQUESTS]:
    however many connections a client opens and however fast, every one
    of them is queued and [rate_limited_requests] does not move. *)
Theorem limiter_never_fires (cfg : config) (arrivals : list (Z * nat * string)) (w : world) :
  0 < RATE_LIMIT_WINDOW cfg <= RATE_LIMIT_REQUESTS cfg ->
  Forall (fun a => 0 <= a.1.1) arrivals ->
  redis_up w = true -> 0 <= now w -> limiter_store w ->
  rate_limited_requests (accept_all cfg arrivals w) = rate_limited_requests w /\
  request_queue (accept_all cfg arrivals w) =
    request_queue w ++ map (fun a => (a.1.2, a.2)) arrivals.
Proof.
  intros HW Hd. revert w.
  induction Hd as [|[[d c] ip] rest Hd0 _ IH]; intros w Hup Hnow Hs.
  - cbn. rewrite app_nil_r. split; reflexivity.
  - cbn [accept_all]. cbn in Hd0.
    destruct (accept_step_never_limits cfg c ip (advance d w) HW Hup)
      as (Hup' & Hnow' & Hs' & Hr' & Hq').
    { cbn. lia. }
    { apply advance_limiter_store; assumption. }
    destruct (IH _ Hup') as [Hr Hq].
    { rewrite Hnow'. cbn. lia. }
    { exact Hs'. }
    rewrite Hr, Hq, Hr', Hq'. cbn. rewrite <- app_assoc. split; reflexivity.
Qed.

Lemma initial_limiter_store (t : Z) : limiter_store (initial_world t).
Proof. intros ip e Hl. cbn in Hl. rewrite lookup_empty in Hl. discriminate. Qed.

(** The configuration that ships: 100 requests, 60 seconds. *)
Corollary default_limiter_never_fires (t : Z) (arrivals : list (Z * nat * string)) :
  0 <= t -> Forall (fun a => 0 <= a.1.1) arrivals ->
  rate_limited_requests (accept_all DEFAULT_CONFIG arrivals (initial_world t)) = Some 0.
Proof.
  intros Ht Hd.
  destruct (limiter_never_fires DEFAULT_CONFIG arrivals (initial_world t)) as [-> _];
    [cbn; lia | exact Hd | reflexivity | exact Ht | apply initial_limiter_store | reflexivity].
Qed.

End RateLimiterFacts.

(** ** Facts used by the further properties *)

Module LimiterFrame.

Lemma zremrangebyscore_other now k lo hi db k' :
  k' <> k -> snd (Redis.zremrangebyscore now k lo hi db) !! k' = db !! k'.
Proof.
  intros Hk. unfold Redis.zremrangebyscore.
  destruct (Redis.lookup now k db) as [[[s|z] ex]|]; cbn; try reflexivity.
  destruct (decide _); cbn.
  - apply lookup_delete_ne. congruence.
  - apply lookup_insert_ne. congruence.
Qed.

Lemma zadd_other now k m s db k' :
  k' <> k -> snd (Redis.zadd now k m s db) !! k' = db !! k'.
Proof.
  intros Hk. unfold Redis.zadd.
  destruct (Redis.lookup now k db) as [[[s'|z] ex]|]; cbn; try reflexivity;
    apply lookup_insert_ne; congruence.
Qed.

Lemma expire_other now k ttl db k' :
  k' <> k -> snd (Redis.expire now k ttl db) !! k' = db !! k'.
Proof.
  intros Hk. unfold Redis.expire.
  destruct (Redis.lookup now k db) as [e|]; cbn; try reflexivity.
  destruct (ttl <=? 0); cbn.
  - apply lookup_delete_ne. congruence.
  - apply lookup_insert_ne. congruence.
Qed.

Lemma is_rate_limited_store cfg client_ip w :
  redis_up w = true ->
  store (snd (is_rate_limited cfg client_ip w)) =
    snd (Redis.expire (now w) (rate_limit_key client_ip) (RATE_LIMIT_WINDOW cfg)
      (snd (Redis.zadd (now w) (rate_limit_key client_ip) (str_of_int (now w)) (now w)
        (snd (Redis.zremrangebyscore (now w) (rate_limit_key client_ip) 0
                (now w - RATE_LIMIT_WINDOW cfg) (store w)))))).
Proof.
  intros Hup. unfold is_rate_limited. rewrite Hup.
  destruct (Redis.zremrangebyscore _ _ _ _ _) as [r1 db1].
  destruct (Redis.zadd _ _ _ _ _) as [r2 db2].
  destruct (Redis.expire _ _ _ _) as [r4 db3].
  destruct (Redis.zcard _ _ db2) as [n|e3].
  all: destruct r1, r2, r4; reflexivity.
Qed.

Lemma is_rate_limited_other cfg client_ip w k :
  k <> rate_limit_key client_ip ->
  store (snd (is_rate_limited cfg client_ip w)) !! k = store w !! k.
Proof.
  intros Hk. destruct (redis_up w) eqn:Hup.
  - rewrite is_rate_limited_store by assumption.
    rewrite expire_other, zadd_other, zremrangebyscore_other by assumption. reflexivity.
  - unfold is_rate_limited. rewrite Hup. reflexivity.
Qed.

Lemma rate_limit_key_inj a b : rate_limit_key a = rate_limit_key b -> a = b.
Proof. unfold rate_limit_key. cbn. intros [= H]. exact H. Qed.

Lemma is_rate_limited_rest cfg client_ip w :
  let w' := snd (is_rate_limited cfg client_ip w) in
  now w' = now w /\ redis_up w' = redis_up w /\ stats w' = stats w /\
  request_methods w' = request_methods w /\ sockets w' = sockets w /\
  request_queue w' = request_queue w /\ log w' = log w.
Proof.
  destruct (is_rate_limited cfg client_ip w) as [r w1] eqn:E.
  destruct (AcceptFacts.is_rate_limited_frame _ _ _ _ _ E) as ([db ->] & _).
  cbn. repeat split.
Qed.

End LimiterFrame.

Module LimiterRuns.
Import RateLimiterFacts.

Lemma trimmed_all hi z : (forall m s, z !! m = Some s -> hi < s) -> trimmed hi z = z.
Proof.
  intros H. unfold trimmed. apply map_filter_id. intros m s Hl. cbn.
  apply negb_true_iff, andb_false_iff. right. apply Z.leb_gt. exact (H m s Hl).
Qed.

Lemma not_a_string_of_store now' key db :
  (forall s ex, db !! key <> Some {| Redis.value := Redis.RString s; Redis.expires := ex |}) ->
  not_a_string now' key db.
Proof.
  intros H s ex Hl. unfold Redis.lookup in Hl.
  destruct (db !! key) as [e|] eqn:E; [|discriminate].
  destruct (Redis.live now' e); [|discriminate]. injection Hl as ->. exact (H s ex eq_refl).
Qed.

(** One call, [d] seconds after the last, for a client seen [k] times. *)
Lemma is_rate_limited_seen cfg client_ip t0 k d w :
  redis_up w = true -> 0 < RATE_LIMIT_WINDOW cfg ->
  1 <= d -> t0 <= now w -> now w + d <= t0 + RATE_LIMIT_WINDOW cfg ->
  seen t0 (RATE_LIMIT_WINDOW cfg) client_ip k w ->
  exists w1,
    is_rate_limited cfg client_ip (advance d w)
      = (Ok (RATE_LIMIT_REQUESTS cfg <? Z.of_nat (S k)), w1) /\
    seen t0 (RATE_LIMIT_WINDOW cfg) client_ip (S k) w1.
Proof.
  intros Hup HW Hd Ht0 Hin (Hns & z & Hwin & Hsize & Hz).
  pose proof (is_rate_limited_run cfg client_ip (advance d w) Hup HW
                (not_a_string_of_store _ _ _ Hns)) as Hrun.
  cbn [now store advance] in Hrun.
  rewrite (Hwin (now w + d)) in Hrun by lia.
  rewrite trimmed_all in Hrun by (intros m s Hl; destruct (Hz m s Hl); lia).
  assert (Hfresh : z !! str_of_int (now w + d) = None).
  { destruct (z !! str_of_int (now w + d)) as [s|] eqn:E; [|reflexivity].
    destruct (Hz _ _ E) as [Heq Hr]. apply str_of_int_inj in Heq. lia. }
  assert (Hsize' : size (<[str_of_int (now w + d) := now w + d]> z) = S k).
  { rewrite map_size_insert_None by exact Hfresh. congruence. }
  rewrite Hsize' in Hrun.
  eexists. split; [exact Hrun|].
  split.
  - cbn. intros s ex. rewrite lookup_insert_eq. discriminate.
  - exists (<[str_of_int (now w + d) := now w + d]> z). split; [|split].
    + cbn. intros now' Hn. unfold window, Redis.lookup. rewrite lookup_insert_eq.
      unfold Redis.live. cbn.
      assert (Hl : (now' <? now w + d + RATE_LIMIT_WINDOW cfg) = true) by (apply Z.ltb_lt; lia).
      rewrite Hl. reflexivity.
    + exact Hsize'.
    + cbn. intros m s Hl. apply lookup_insert_Some in Hl as [[<- <-] | [_ Hl]].
      * split; [reflexivity | lia].
      * destruct (Hz m s Hl). split; [assumption | lia].
Qed.

Lemma is_rate_limited_keeps cfg client_ip w r w1 :
  is_rate_limited cfg client_ip w = (r, w1) ->
  now w1 = now w /\ redis_up w1 = redis_up w /\ stats w1 = stats w /\
  request_queue w1 = request_queue w /\ sockets w1 = sockets w /\ log w1 = log w.
Proof.
  intros E. destruct (AcceptFacts.is_rate_limited_frame _ _ _ _ _ E) as ([db ->] & _).
  cbn. repeat split.
Qed.

(** The turn of the accept loop, once the limiter has answered. *)
Lemma accept_step_answered cfg c client_ip w (limited : bool) w1 :
  is_rate_limited cfg client_ip (snd (new_socket c w)) = (Ok limited, w1) ->
  accept_step cfg (Accepted c client_ip) w =
    if limited then
      (logger WARNING "Rate limited client";;
       Statistics.increment "rate_limited_requests" 1;;
       close c) w1
    else
      (queue_put (c, client_ip);;
       Statistics.increment "active_connections" 1) w1.
Proof.
  intros H. unfold accept_step, try_except.
  unfold mbind at 1. unfold M_bind at 1. cbn [new_socket].
  unfold mbind at 1. unfold M_bind at 1.
  change (set_sockets (<[c:={| peer_open := true; sent := []; closed := false |}]> (sockets w)) w)
    with (snd (new_socket c w)).
  rewrite H. destruct limited.
  - unfold mbind, M_bind, logger. cbn.
    rewrite HandlerFacts.increment_run. cbn.
    unfold close. destruct (sockets _ !! c); reflexivity.
  - unfold mbind, M_bind, queue_put. cbn.
    rewrite HandlerFacts.increment_run. reflexivity.
Qed.

Lemma seen_frame t0 W client_ip k w w' :
  store w' = store w -> now w' = now w ->
  seen t0 W client_ip k w -> seen t0 W client_ip k w'.
Proof. unfold seen. intros -> ->. exact id. Qed.

Lemma accept_step_seen cfg c client_ip t0 k d w r :
  redis_up w = true -> 0 < RATE_LIMIT_WINDOW cfg ->
  1 <= d -> t0 <= now w -> now w + d <= t0 + RATE_LIMIT_WINDOW cfg ->
  seen t0 (RATE_LIMIT_WINDOW cfg) client_ip k w ->
  rate_limited_requests w = Some r ->
  let limited := RATE_LIMIT_REQUESTS cfg <? Z.of_nat (S k) in
  let w' := snd (accept_step cfg (Accepted c client_ip) (advance d w)) in
  redis_up w' = true /\ now w' = now w + d /\
  seen t0 (RATE_LIMIT_WINDOW cfg) client_ip (S k) w' /\
  rate_limited_requests w' = Some (if limited then r + 1 else r) /\
  request_queue w' = request_queue w ++ (if limited then [] else [(c, client_ip)]).
Proof.
  intros Hup HW Hd Ht0 Hin Hseen Hr limited w'.
  assert (Hseen0 : seen t0 (RATE_LIMIT_WINDOW cfg) client_ip k (snd (new_socket c w)))
    by (revert Hseen; apply seen_frame; reflexivity).
  destruct (is_rate_limited_seen cfg client_ip t0 k d (snd (new_socket c w)) Hup HW Hd Ht0 Hin Hseen0)
    as (w1 & Hrun & Hseen1).
  change (advance d (snd (new_socket c w))) with (snd (new_socket c (advance d w))) in Hrun.
  destruct (is_rate_limited_keeps _ _ _ _ _ Hrun) as (Hn & Hu & Hs & Hq & Hk & Hl).
  subst w'. rewrite (accept_step_answered _ _ _ _ _ _ Hrun).
  fold limited. unfold rate_limited_requests in *.
  destruct limited.
  - unfold mbind, M_bind, logger, Statistics.increment. cbn.
    rewrite Hs. cbn. rewrite Hr. cbn.
    unfold close. cbn.
    destruct (sockets w1 !! c); cbn; rewrite ?lookup_insert_eq, ?app_nil_r;
      (split; [rewrite Hu; exact Hup|]); (split; [exact Hn|]);
      (split; [revert Hseen1; apply seen_frame; reflexivity|]);
      (split; [reflexivity | exact Hq]).
  - unfold mbind, M_bind, queue_put, Statistics.increment. cbn.
    destruct (stats w1 !! "active_connections") eqn:Ea; cbn;
      rewrite ?lookup_insert_ne by discriminate;
      (split; [rewrite Hu; exact Hup|]); (split; [exact Hn|]);
      (split; [revert Hseen1; apply seen_frame; reflexivity|]);
      rewrite Hs, Hq; (split; [exact Hr | reflexivity]).
Qed.

Lemma accept_all_seen cfg client_ip t0 n arrivals :
  0 < RATE_LIMIT_WINDOW cfg -> RATE_LIMIT_REQUESTS cfg = Z.of_nat n ->
  spaced_from client_ip arrivals ->
  forall k w r,
    redis_up w = true -> t0 <= now w ->
    now w + span arrivals <= t0 + RATE_LIMIT_WINDOW cfg ->
    seen t0 (RATE_LIMIT_WINDOW cfg) client_ip k w ->
    rate_limited_requests w = Some r ->
    rate_limited_requests (accept_all cfg arrivals w)
      = Some (r + Z.of_nat (length arrivals - (n - k))) /\
    request_queue (accept_all cfg arrivals w)
      = request_queue w ++ map (fun a => (a.1.2, a.2)) (take (n - k) arrivals).
Proof.
  intros HW HN Hsp. induction Hsp as [|[[d c] ip] rest [Hd Hip] Hrest IH];
    intros k w r Hup Ht0 Hspan Hseen Hr.
  - cbn. rewrite take_nil, app_nil_r, Z.add_0_r. split; [exact Hr | reflexivity].
  - cbn in Hd, Hip. subst ip. cbn [accept_all]. cbn [span foldr] in Hspan. cbn in Hspan.
    fold (span rest) in Hspan.
    assert (Hrest_nonneg : 0 <= span rest).
    { clear -Hrest. induction Hrest as [|a l [Ha _] _ IHl]; cbn; [lia|].
      fold (span l). lia. }
    destruct (accept_step_seen cfg c client_ip t0 k d w r Hup HW Hd Ht0 ltac:(lia) Hseen Hr)
      as (Hup' & Hnow' & Hseen' & Hr' & Hq').
    destruct (IH (S k) _ _ Hup' ltac:(lia) ltac:(lia) Hseen' Hr') as [Hr'' Hq''].
    rewrite Hr'', Hq'', Hq'. rewrite HN.
    destruct (Z.of_nat n <? Z.of_nat (S k)) eqn:El.
    + apply Z.ltb_lt in El.
      replace (n - k)%nat with 0%nat by lia. replace (n - S k)%nat with 0%nat by lia.
      cbn [take map length]. rewrite !app_nil_r, Nat.sub_0_r. split; [f_equal; lia | reflexivity].
    + apply Z.ltb_ge in El.
      replace (n - k)%nat with (S (n - S k)) by lia.
      cbn [take map length]. rewrite <- app_assoc. cbn. split; [reflexivity | reflexivity].
Qed.

Lemma seen_initial t0 W client_ip : seen t0 W client_ip 0 (initial_world t0).
Proof.
  split.
  - intros s ex. cbn. rewrite lookup_empty. discriminate.
  - exists ∅. split; [|split].
    + intros now' _. unfold window, Redis.lookup. cbn. rewrite lookup_empty. reflexivity.
    + apply map_size_empty.
    + intros m s. rewrite lookup_empty. discriminate.
Qed.

End LimiterRuns.

Module CacheKeyFacts.

Lemma lower_char_idem (c : ascii) : PyStr.lower_char (PyStr.lower_char c) = PyStr.lower_char c.
Proof. destruct c as [[] [] [] [] [] [] [] []]; reflexivity. Qed.

Lemma lower_idem (s : string) : PyStr.lower (PyStr.lower s) = PyStr.lower s.
Proof.
  unfold PyStr.lower. rewrite list_ascii_of_string_of_list_ascii, map_map.
  f_equal. apply map_ext. intros c. apply lower_char_idem.
Qed.

Lemma cache_headers_app (h1 h2 : list (string * string)) :
  cache_headers (h1 ++ h2) =
    fold_left
      (fun d kv =>
         let k := PyStr.lower (fst kv) in
         if relevant_header k then PyDict.set k (PStr (snd kv)) d else d)
      h2 (cache_headers h1).
Proof. unfold cache_headers. apply fold_left_app. Qed.

Lemma cache_headers_skip (h1 h2 : list (string * string)) (k v : string) :
  relevant_header (PyStr.lower k) = false ->
  cache_headers (h1 ++ (k, v) :: h2) = cache_headers (h1 ++ h2).
Proof.
  intros Hk. rewrite !cache_headers_app. cbn [fold_left fst snd]. rewrite Hk. reflexivity.
Qed.

Lemma cache_headers_case (h1 h2 : list (string * string)) (k v : string) :
  cache_headers (h1 ++ (k, v) :: h2) = cache_headers (h1 ++ (PyStr.lower k, v) :: h2).
Proof.
  rewrite !cache_headers_app. cbn [fold_left fst snd]. rewrite lower_idem. reflexivity.
Qed.

End CacheKeyFacts.

Module InvalidateFacts.

Lemma loads_empty : Json.loads EmptyString = None.
Proof. reflexivity. Qed.

Lemma invalidate_matching_entry (p k u : string) (w : world) :
  redis_up w = true ->
  entry_url (now w) (store w) k = Some u ->
  invalidate_matching p k w =
    (Ok tt, if PyStr.contains p u then set_store (Redis.del k (store w)) w else w).
Proof.
  intros Hup Hu. unfold entry_url in Hu.
  unfold invalidate_matching, try_except, mbind, M_bind, redis_get, Redis.get.
  rewrite Hup.
  destruct (Redis.lookup (now w) k (store w)) as [[[text|z] ex]|]; try discriminate.
  destruct text as [|c text']; [rewrite loads_empty in Hu; discriminate|].
  cbn [PyStr.nonempty].
  destruct (Json.loads (String c text')) as [[| | | | | | |d]|]; try discriminate.
  destruct (PyDict.get "url" d) as [[| | | |u'| | |]|]; try discriminate.
  - injection Hu as ->. unfold default; cbn [from_option id py_in].
    destruct (PyStr.contains p u); [|reflexivity].
    unfold redis_delete. rewrite Hup. reflexivity.
  - injection Hu as <-. unfold default; cbn [from_option id py_in].
    destruct (PyStr.contains p EmptyString); [|reflexivity].
    unfold redis_delete. rewrite Hup. reflexivity.
Qed.

Lemma entry_url_del (now : Z) (db : gmap string Redis.entry) (k k' : string) :
  k' <> k -> entry_url now (Redis.del k db) k' = entry_url now db k'.
Proof.
  intros Hk. unfold entry_url, Redis.lookup, Redis.del.
  rewrite lookup_delete_ne by congruence. reflexivity.
Qed.

Lemma for_each_invalidate (p : string) (keys : list string) :
  NoDup keys ->
  forall w,
    redis_up w = true ->
    (forall k, k ∈ keys -> exists u, entry_url (now w) (store w) k = Some u) ->
    for_each keys (invalidate_matching p) w =
      (Ok tt,
       set_store
         (Redis.delete_all (List.filter (url_matches p (now w) (store w)) keys) (store w)) w).
Proof.
  induction 1 as [|k keys Hk Hnd IH]; intros w Hup Hall.
  - cbn. rewrite StoreFacts.set_store_id. reflexivity.
  - destruct (Hall k) as [u Hu]; [left|].
    cbn [for_each]. unfold mbind at 1. unfold M_bind at 1.
    rewrite (invalidate_matching_entry p k u w Hup Hu).
    cbn [List.filter]. unfold url_matches at 1. rewrite Hu.
    destruct (PyStr.contains p u).
    + rewrite IH.
      * cbn [now store set_store redis_up].
        assert (Hf : List.filter (url_matches p (now w) (Redis.del k (store w))) keys
                     = List.filter (url_matches p (now w) (store w)) keys).
        { apply filter_ext_in. intros k' Hin. unfold url_matches.
          rewrite entry_url_del; [reflexivity|].
          intros ->. apply Hk. apply list_elem_of_In. exact Hin. }
        rewrite Hf. destruct w; reflexivity.
      * exact Hup.
      * intros k' Hin. cbn [now store set_store]. rewrite entry_url_del.
        -- apply Hall. right. exact Hin.
        -- intros ->. exact (Hk Hin).
    + apply IH; [exact Hup|]. intros k' Hin. apply Hall. right. exact Hin.
Qed.

Lemma NoDup_scan (now : Z) (db : gmap string Redis.entry) : NoDup (Redis.scan now db).
Proof. unfold Redis.scan. apply NoDup_fst_map_to_list. Qed.

(** What one visit of [invalidate_cache] can do to the world. *)
Lemma invalidate_matching_frame (p k : string) (w : world) r w' :
  invalidate_matching p k w = (r, w') ->
  now w' = now w /\ redis_up w' = redis_up w /\
  (store w' = store w \/ store w' = Redis.del k (store w)).
Proof.
  unfold invalidate_matching, try_except, mbind, M_bind, redis_get.
  destruct (redis_up w) eqn:Hup; [|intros [= <- <-]; auto].
  destruct (Redis.get (now w) k (store w)) as [[text|]|e].
  - destruct (PyStr.nonempty text); [|intros [= <- <-]; auto].
    destruct (Json.loads text) as [[| | | | | | |d]|]; try (intros [= <- <-]; auto).
    destruct (py_in p _) as [[]|]; try (intros [= <- <-]; auto).
    unfold redis_delete. rewrite Hup. intros [= <- <-]. cbn. auto.
  - intros [= <- <-]. auto.
  - destruct e; intros [= <- <-]; auto.
Qed.

Lemma invalidate_matching_window (p k : string) (w : world) z ex :
  redis_up w = true ->
  Redis.lookup (now w) k (store w)
    = Some {| Redis.value := Redis.RZSet z; Redis.expires := ex |} ->
  invalidate_matching p k w = (Raise RedisResponseError, w).
Proof.
  intros Hup Hl. unfold invalidate_matching, try_except, mbind, M_bind, redis_get, Redis.get.
  rewrite Hup, Hl. reflexivity.
Qed.

Lemma for_each_invalidate_window (p k : string) z ex (keys : list string) :
  NoDup keys -> k ∈ keys ->
  forall w,
    redis_up w = true ->
    Redis.lookup (now w) k (store w)
      = Some {| Redis.value := Redis.RZSet z; Redis.expires := ex |} ->
    exists e w', for_each keys (invalidate_matching p) w = (Raise e, w').
Proof.
  induction 1 as [|k0 keys Hk0 Hnd IH]; intros Hin w Hup Hl.
  - inversion Hin.
  - cbn [for_each]. unfold mbind at 1. unfold M_bind at 1.
    destruct (decide (k = k0)) as [<-|Hne].
    + rewrite (invalidate_matching_window p k w z ex Hup Hl). eauto.
    + destruct (invalidate_matching p k0 w) as [[[]|e] w1] eqn:E; [|eauto].
      destruct (invalidate_matching_frame _ _ _ _ _ E) as (Hn & Hu & Hs).
      apply IH.
      * apply elem_of_cons in Hin as [?|?]; [congruence | assumption].
      * congruence.
      * rewrite Hn. unfold Redis.lookup in *.
        destruct Hs as [-> | ->]; [exact Hl|].
        unfold Redis.del. rewrite lookup_delete_ne by congruence. exact Hl.
Qed.

End InvalidateFacts.

Module FilterFacts.

Lemma matches_any_iff (rules : list string) (url_lower : string) :
  RequestFilter.matches_any rules url_lower = true <->
  exists rule, rule ∈ rules /\ rule <> EmptyString /\
               PyStr.contains (PyStr.lower rule) url_lower = true.
Proof.
  induction rules as [|r rules IH]; cbn.
  - split; [discriminate | intros (rule & Hin & _); inversion Hin].
  - destruct (PyStr.nonempty r && PyStr.contains (PyStr.lower r) url_lower)%bool eqn:E.
    + split; [intros _ | reflexivity].
      apply andb_true_iff in E as [Hne Hc]. exists r. split; [left|].
      split; [destruct r; [discriminate | discriminate] | exact Hc].
    + rewrite IH. split.
      * intros (rule & Hin & Hne & Hc). exists rule. split; [right; exact Hin | auto].
      * intros (rule & Hin & Hne & Hc). apply elem_of_cons in Hin as [-> | Hin].
        -- exfalso. rewrite Hc, andb_true_r in E. destruct r; [congruence | discriminate].
        -- exists rule. auto.
Qed.

(** The counters once the request is counted and the handler is done. *)
Lemma counted_stats method w t :
  stats w !! "requests_total" = Some t ->
  stats (counted method w) = <["requests_total" := t + 1]> (stats w).
Proof.
  intros Ht. unfold counted, mbind, M_bind, Statistics.increment. rewrite Ht. cbn.
  unfold Statistics.update_method_stat. cbn.
  destruct (request_methods w !! method); reflexivity.
Qed.

Lemma counted_store method w : store (counted method w) = store w.
Proof.
  unfold counted, mbind, M_bind, Statistics.increment, Statistics.update_method_stat.
  destruct (stats w !! "requests_total"); cbn;
    destruct (request_methods w !! method); reflexivity.
Qed.

End FilterFacts.

(** ** What each function of the server leaves alone

    An observation of the world is kept by a function of the server as
    soon as it is kept by the primitives that the function calls. *)

Module Footprint.
Import Frame.

Section Generic.
Context {X : Type} (obs : world -> X) (P : string -> Prop).
Local Abbreviation keeps := (preserves obs).

Hypothesis obs_log : forall l w, obs (set_log l w) = obs w.
Hypothesis obs_methods : forall m w, obs (set_request_methods m w) = obs w.
Hypothesis keep_sendall : forall c data, keeps (sendall c data).
Hypothesis keep_close : forall c, keeps (close c).
Hypothesis keep_increment : forall stat v, P stat -> keeps (Statistics.increment stat v).
Hypothesis keep_decrement : forall stat v, P stat -> keeps (Statistics.decrement stat v).
Hypothesis keep_setex : forall k ttl v, keeps (redis_setex k ttl v).

Ltac fp :=
  repeat first
    [ apply preserves_ret
    | apply preserves_raise
    | apply (preserves_logger obs obs_log)
    | apply keep_sendall
    | apply keep_close
    | apply (preserves_redis_get obs)
    | apply keep_setex
    | apply (preserves_update_method_stat obs obs_methods)
    | apply keep_increment; assumption
    | apply keep_decrement; assumption
    | apply preserves_bind; [|intros ?]
    | apply preserves_try_except; [|intros ?]
    | apply preserves_try_finally ].

Lemma fp_generate_cache_key E method url headers body :
  keeps (_generate_cache_key E method url headers body).
Proof. unfold _generate_cache_key. destruct (Json.dumps_sorted _); fp. Qed.

Lemma fp_restore_content v : keeps (restore_content v).
Proof.
  unfold restore_content.
  destruct v as [| | | | s | | l | d]; try solve [fp].
  - destruct (py_in _ _) as [[]|]; fp.
  - destruct (py_in _ _) as [[]|]; fp.
  - destruct (PyDict.get _ d) as [[| | | | b64 | | |]|]; try solve [fp].
    destruct (Base64.b64decode _); fp.
Qed.

Lemma fp_get_cached_response E method url headers body :
  P "cache_hits" -> P "cache_misses" ->
  keeps (get_cached_response E method url headers body).
Proof.
  intros Hh Hm. unfold get_cached_response. destruct (negb _); [fp|].
  apply preserves_bind; [apply fp_generate_cache_key | intros key].
  apply preserves_bind; [fp | intros [data|]]; [|fp].
  destruct (PyStr.nonempty data); [|fp].
  apply preserves_bind; [fp | intros _].
  destruct (Json.loads data); [apply fp_restore_content | fp].
Qed.

Lemma fp_cache_response E cfg method url headers r body :
  keeps (cache_response E cfg method url headers r body).
Proof.
  unfold cache_response. destruct (negb _); [fp|].
  apply preserves_bind; [apply fp_generate_cache_key | intros key].
  destruct (400 <=? _); [fp|]. destruct (_ || _)%bool; [fp|].
  apply preserves_try_except.
  - destruct (Json.dumps _); fp.
  - intros e. destruct e; fp.
Qed.

Lemma fp_classify E cfg method path headers body :
  P "cache_hits" -> P "cache_misses" ->
  keeps (classify E cfg method path headers body).
Proof.
  intros Hh Hm. unfold classify. destruct (RequestFilter.should_filter _ _ _); [fp|].
  destruct (String.eqb path _); [fp|].
  apply preserves_bind.
  - destruct (String.eqb method _); [apply fp_get_cached_response; assumption | fp].
  - intros [cached|]; [destruct (truthy cached)|]; fp.
Qed.

Lemma fp_send_response E cfg c response_data :
  keeps (_send_response_to_client E cfg c response_data).
Proof. unfold _send_response_to_client. destruct (compose_response _ _ _); fp. Qed.

Lemma fp_send_error c code reason : keeps (_send_error_response c code reason).
Proof. unfold _send_error_response. fp. Qed.

Lemma fp_handle_stats E c : keeps (_handle_stats_request E c).
Proof. intros w. unfold _handle_stats_request. apply keep_sendall. Qed.

Lemma fp_select_backend E cfg : keeps (_select_backend_server E cfg).
Proof. unfold _select_backend_server. destruct (BACKEND_SERVERS cfg); fp. Qed.

Lemma fp_session_request E method url headers body :
  keeps (session_request E method url headers body).
Proof. unfold session_request. destruct (origin E _ _ _ _); fp. Qed.

Lemma fp_forward_request E cfg c method path headers body :
  P "requests_success" -> P "bytes_transferred" -> P "requests_error" ->
  keeps (_forward_request E cfg c method path headers body).
Proof.
  intros Hs Hb He. unfold _forward_request. apply preserves_try_except.
  - apply preserves_bind; [apply fp_select_backend | intros backend].
    apply preserves_bind; [fp | intros _].
    apply preserves_bind; [apply fp_session_request | intros r].
    apply preserves_bind.
    + destruct (_ && _)%bool; [apply fp_cache_response | fp].
    + intros _. apply preserves_bind; [apply fp_send_response | intros _]. fp.
  - intros e. destruct e; fp; try apply fp_send_error.
Qed.

Lemma fp_dispatch E cfg c method path headers body branch :
  P "requests_success" -> P "bytes_transferred" -> P "requests_error" ->
  keeps (dispatch E cfg c method path headers body branch).
Proof.
  intros Hs Hb He. destruct branch; cbn [dispatch].
  - fp; try apply fp_send_error.
  - apply fp_handle_stats.
  - apply fp_send_response.
  - apply fp_forward_request; assumption.
Qed.

Lemma fp_handle_request E cfg c r :
  P "requests_total" -> P "cache_hits" -> P "cache_misses" ->
  P "requests_success" -> P "bytes_transferred" -> P "requests_error" ->
  keeps (handle_request E cfg c r).
Proof.
  intros Ht Hh Hm Hs Hb He. destruct r; cbn [handle_request]; try solve [fp].
  apply preserves_bind; [fp | intros _].
  apply preserves_bind; [fp | intros _].
  apply preserves_bind; [apply fp_classify; assumption | intros branch].
  apply fp_dispatch; assumption.
Qed.

Lemma fp_handler_except c e : keeps (handler_except c e).
Proof. unfold handler_except. destruct e; fp; try apply fp_send_error. Qed.

Lemma fp_handler_finally c : P "active_connections" -> keeps (handler_finally c).
Proof. intros Ha. unfold handler_finally. fp. Qed.

Lemma fp_handle_client_request E cfg c r :
  P "requests_total" -> P "cache_hits" -> P "cache_misses" ->
  P "requests_success" -> P "bytes_transferred" -> P "requests_error" ->
  P "active_connections" ->
  keeps (_handle_client_request E cfg c r).
Proof.
  intros Ht Hh Hm Hs Hb He Ha. unfold _handle_client_request.
  apply preserves_try_finally; [|apply fp_handler_finally; exact Ha].
  apply preserves_try_except; [apply fp_handle_request; assumption|].
  intros e. apply fp_handler_except.
Qed.

End Generic.

(** *** One counter *)

Section Counter.
Variable stat : string.
Local Abbreviation counter_obs := (counter_of stat).

Lemma counter_sendall c data : preserves counter_obs (sendall c data).
Proof. apply preserves_sendall. reflexivity. Qed.

Lemma counter_close c : preserves counter_obs (close c).
Proof. apply preserves_close. reflexivity. Qed.

Lemma counter_increment s v : s <> stat -> preserves counter_obs (Statistics.increment s v).
Proof.
  intros Hs w. unfold Statistics.increment, counter_obs.
  destruct (stats w !! s); [|reflexivity]. cbn. apply lookup_insert_ne. exact Hs.
Qed.

Lemma counter_decrement s v : s <> stat -> preserves counter_obs (Statistics.decrement s v).
Proof.
  intros Hs w. unfold Statistics.decrement, counter_obs.
  destruct (stats w !! s); [|reflexivity]. cbn. apply lookup_insert_ne. exact Hs.
Qed.

Lemma counter_setex k ttl v : preserves counter_obs (redis_setex k ttl v).
Proof. apply preserves_redis_setex. reflexivity. Qed.

End Counter.

(** *** All the counters, for the functions that count nothing *)

Lemma stats_sendall c data : preserves stats (sendall c data).
Proof. apply preserves_sendall. reflexivity. Qed.

Lemma stats_close c : preserves stats (close c).
Proof. apply preserves_close. reflexivity. Qed.

Lemma stats_setex k ttl v : preserves stats (redis_setex k ttl v).
Proof. apply preserves_redis_setex. reflexivity. Qed.

Lemma stats_never s v : False -> preserves stats (Statistics.increment s v).
Proof. intros []. Qed.

Lemma stats_never' s v : False -> preserves stats (Statistics.decrement s v).
Proof. intros []. Qed.

(** *** The store, for the functions that write nothing to it *)

Lemma store_sendall c data : preserves store (sendall c data).
Proof. apply preserves_sendall. reflexivity. Qed.

Lemma store_close c : preserves store (close c).
Proof. apply preserves_close. reflexivity. Qed.

Lemma store_increment s v : True -> preserves store (Statistics.increment s v).
Proof. intros _ w. unfold Statistics.increment. destruct (stats w !! s); reflexivity. Qed.

Lemma store_decrement s v : True -> preserves store (Statistics.decrement s v).
Proof. intros _ w. unfold Statistics.decrement. destruct (stats w !! s); reflexivity. Qed.

End Footprint.

Module PyDictFacts.



End PyDictFacts.

Module ReplyRuns.

Lemma send_error_ok (c : nat) (code : Z) (reason : string) (w : world) :
  fst (_send_error_response c code reason w) = Ok tt.
Proof.
  unfold _send_error_response, try_except.
  destruct (sendall c _ w) as [[[]|e] w1]; reflexivity.
Qed.

Lemma send_response_ok (E : env) (cfg : config) (c : nat) (response_data : pyval) (w : world) :
  fst (_send_response_to_client E cfg c response_data w) = Ok tt.
Proof.
  unfold _send_response_to_client, try_except.
  destruct (compose_response E cfg response_data) as [data|]; [|reflexivity].
  destruct (sendall c data w) as [[[]|e] w1]; reflexivity.
Qed.

Lemma send_error_stats c code reason : preserves stats (_send_error_response c code reason).
Proof.
  apply (Footprint.fp_send_error stats); [apply Footprint.stats_sendall].
Qed.

Lemma send_error_store c code reason : preserves store (_send_error_response c code reason).
Proof.
  apply (Footprint.fp_send_error store); [apply Footprint.store_sendall].
Qed.

Lemma send_response_stats E cfg c rd : preserves stats (_send_response_to_client E cfg c rd).
Proof.
  apply (Footprint.fp_send_response stats); [reflexivity | apply Footprint.stats_sendall].
Qed.

Lemma send_response_store E cfg c rd : preserves store (_send_response_to_client E cfg c rd).
Proof.
  apply (Footprint.fp_send_response store); [reflexivity | apply Footprint.store_sendall].
Qed.

End ReplyRuns.

Module ForwardRuns.
Import Frame.

(** A step that leaves the counters alone, followed by anything. *)
Lemma bind_quiet {X A B} (obs : world -> X) (m : M A) (k : A -> M B) (w : world) :
  preserves obs m ->
  (exists e w1, m w = (Raise e, w1) /\ (m ≫= k) w = (Raise e, w1) /\ obs w1 = obs w) \/
  (exists a w1, m w = (Ok a, w1) /\ (m ≫= k) w = k a w1 /\ obs w1 = obs w).
Proof.
  intros Hm. specialize (Hm w). unfold mbind, M_bind.
  destruct (m w) as [[a|e] w1]; cbn in Hm; [right | left]; eauto.
Qed.

(** The three statements that end each [except] clause of
    [_forward_request]. *)
Lemma error_tail (l : level) (msg : string) (c : nat) (code : Z) (reason : string)
    (w : world) :
  exists w',
    (logger l msg;; _send_error_response c code reason;;
     Statistics.increment "requests_error" 1) w = (Ok tt, w') /\
    store w' = store w /\
    stats w' = match stats w !! "requests_error" with
               | Some e => <["requests_error" := e + 1]> (stats w)
               | None => stats w
               end.
Proof.
  unfold mbind, M_bind, logger.
  pose proof (ReplyRuns.send_error_ok c code reason (set_log (log w ++ [(l, msg)]) w)) as Hok.
  pose proof (ReplyRuns.send_error_stats c code reason (set_log (log w ++ [(l, msg)]) w)) as Hst.
  pose proof (ReplyRuns.send_error_store c code reason (set_log (log w ++ [(l, msg)]) w)) as Hdb.
  destruct (_send_error_response c code reason _) as [r w1]. cbn in Hok, Hst, Hdb. subst r.
  unfold Statistics.increment. rewrite Hst.
  destruct (stats w !! "requests_error") as [e|]; eexists; (split; [reflexivity|]);
    cbn; rewrite ?Hst; auto.
Qed.

Lemma handler_tail (c : nat) (ex : exn) (w : world) :
  exists w',
    match ex with
    | OriginTimeout =>
        logger WARNING "Backend request timeout";;
        _send_error_response c 504 "Gateway Timeout";;
        Statistics.increment "requests_error" 1
    | OriginTransportError =>
        logger ERROR "Backend request error";;
        _send_error_response c 502 "Bad Gateway";;
        Statistics.increment "requests_error" 1
    | _ =>
        logger ERROR "Error forwarding request";;
        _send_error_response c 500 "Internal Server Error";;
        Statistics.increment "requests_error" 1
    end w = (Ok tt, w') /\
    store w' = store w /\
    stats w' = match stats w !! "requests_error" with
               | Some e => <["requests_error" := e + 1]> (stats w)
               | None => stats w
               end.
Proof. destruct ex; apply error_tail. Qed.

(** The two statements that end the [try] block. *)
Lemma success_tail (n : Z) (w : world) (s : Z) :
  stats w !! "requests_success" = Some s ->
  exists w',
    (Statistics.increment "requests_success" 1;;
     Statistics.increment "bytes_transferred" n) w = (Ok tt, w') /\
    store w' = store w /\
    stats w' = match stats w !! "bytes_transferred" with
               | Some b => <["bytes_transferred" := b + n]>
                             (<["requests_success" := s + 1]> (stats w))
               | None => <["requests_success" := s + 1]> (stats w)
               end /\
    sockets w' = sockets w.
Proof.
  intros Hs. unfold mbind, M_bind, Statistics.increment. rewrite Hs. cbn.
  rewrite lookup_insert_ne by discriminate.
  destruct (stats w !! "bytes_transferred"); eexists; (split; [reflexivity|]); auto.
Qed.

Ltac quiet_step obs H :=
  match goal with
  | |- context [(?m ≫= ?k) ?w] =>
      let ex := fresh "ex" in
      let a := fresh "a" in
      let w1 := fresh "w" in
      let Hst := fresh "Hst" in
      let Hrun := fresh "Hrun" in
      destruct (bind_quiet obs m k w H)
        as [(ex & w1 & Hrun & -> & Hst) | (a & w1 & Hrun & -> & Hst)]
  end.

Lemma forward_outcome E cfg c method path headers body (w : world) (s e : Z) :
  stats w !! "requests_success" = Some s ->
  stats w !! "requests_error" = Some e ->
  exists w',
    _forward_request E cfg c method path headers body w = (Ok tt, w') /\
    ((exists n, stats w' = counted_success n s (stats w)) \/
     stats w' = <["requests_error" := e + 1]> (stats w)).
Proof.
  intros Hs He.
  assert (Hfail : forall ex w1, stats w1 = stats w ->
            exists w',
              match ex with
              | OriginTimeout =>
                  logger WARNING "Backend request timeout";;
                  _send_error_response c 504 "Gateway Timeout";;
                  Statistics.increment "requests_error" 1
              | OriginTransportError =>
                  logger ERROR "Backend request error";;
                  _send_error_response c 502 "Bad Gateway";;
                  Statistics.increment "requests_error" 1
              | _ =>
                  logger ERROR "Error forwarding request";;
                  _send_error_response c 500 "Internal Server Error";;
                  Statistics.increment "requests_error" 1
              end w1 = (Ok tt, w') /\
              ((exists n, stats w' = counted_success n s (stats w)) \/
               stats w' = <["requests_error" := e + 1]> (stats w))).
  { intros ex w1 Hst. destruct (handler_tail c ex w1) as (w' & Hrun & _ & Hst').
    exists w'. split; [exact Hrun|]. right. rewrite Hst', Hst, He. reflexivity. }
  unfold _forward_request, try_except.
  quiet_step (@stats) (Footprint.fp_select_backend stats E cfg); [apply Hfail; exact Hst|].
  quiet_step (@stats) (preserves_logger stats (fun _ _ => eq_refl) INFO "Forwarding request");
    [apply Hfail; congruence|].
  match goal with
  | |- context [session_request E method ?url headers body] =>
      quiet_step (@stats) (Footprint.fp_session_request stats E method url headers body)
  end; [apply Hfail; congruence|].
  match goal with
  | |- context [(?m ≫= ?k) ?w0] =>
      assert (Hc : preserves stats m)
  end.
  { destruct (_ && _)%bool; [|apply preserves_ret].
    apply (Footprint.fp_cache_response stats); [reflexivity | apply Footprint.stats_setex]. }
  quiet_step (@stats) Hc; [apply Hfail; congruence|].
  quiet_step (@stats) (ReplyRuns.send_response_stats E cfg c (PDict (response_dict a1)));
    [apply Hfail; congruence|].
  match goal with
  | |- context [(Statistics.increment "requests_success" 1;;
                 Statistics.increment "bytes_transferred" ?n) ?w5] =>
      destruct (success_tail n w5 s) as (w' & Hrun' & _ & Hst' & _); [congruence|];
      rewrite Hrun'; exists w'; split; [reflexivity|]; left; exists n
  end.
  rewrite Hst'. unfold counted_success.
  replace (stats w4) with (stats w) by congruence. reflexivity.
Qed.

Lemma error_tail_open (l : level) (msg : string) (c : nat) (code : Z) (reason : string)
    (w : world) (s : socket) (e : Z) :
  sockets w !! c = Some s -> peer_open s = true -> closed s = false ->
  stats w !! "requests_error" = Some e ->
  exists w',
    (logger l msg;; _send_error_response c code reason;;
     Statistics.increment "requests_error" 1) w = (Ok tt, w') /\
    sockets w' !! c
      = Some {| peer_open := true; sent := sent s ++ [error_response code reason];
                closed := false |} /\
    stats w' = <["requests_error" := e + 1]> (stats w) /\
    store w' = store w.
Proof.
  intros Hs Hp Hc He. unfold mbind, M_bind, logger.
  unfold _send_error_response, try_except.
  rewrite (ReplyFacts.sendall_open c _ (set_log (log w ++ [(l, msg)]) w) s Hs Hp Hc).
  unfold Statistics.increment. cbn. rewrite He. eexists. split; [reflexivity|].
  cbn. rewrite lookup_insert_eq. repeat split; reflexivity.
Qed.

Lemma select_backend_run E cfg path url (w : world) :
  backend_url E cfg path = Some url ->
  exists b, _select_backend_server E cfg w = (Ok b, w) /\
            (if PyStr.startswith path "http" then path else String.append b path) = url.
Proof.
  unfold backend_url, _select_backend_server.
  destruct (BACKEND_SERVERS cfg) as [|b bs]; [discriminate|].
  intros [= <-]. eexists. split; reflexivity.
Qed.

End ForwardRuns.

Module HandlerRuns.
Import Frame.

Lemma has_socket_sendall c c' data : preserves (has_socket c) (sendall c' data).
Proof.
  intros w. unfold sendall, has_socket.
  destruct (sockets w !! c') as [s|] eqn:E; [|reflexivity].
  destruct (peer_open s && negb (closed s))%bool; [|reflexivity]. cbn.
  destruct (decide (c = c')) as [->|Hne].
  - rewrite lookup_insert_eq, E. reflexivity.
  - rewrite lookup_insert_ne by congruence. reflexivity.
Qed.

Lemma has_socket_close c c' : preserves (has_socket c) (close c').
Proof.
  intros w. unfold close, has_socket.
  destruct (sockets w !! c') as [s|] eqn:E; [|reflexivity]. cbn.
  destruct (decide (c = c')) as [->|Hne].
  - rewrite lookup_insert_eq, E. reflexivity.
  - rewrite lookup_insert_ne by congruence. reflexivity.
Qed.

Lemma has_socket_increment c s v : True -> preserves (has_socket c) (Statistics.increment s v).
Proof. intros _ w. unfold Statistics.increment. destruct (stats w !! s); reflexivity. Qed.

Lemma has_socket_decrement c s v : True -> preserves (has_socket c) (Statistics.decrement s v).
Proof. intros _ w. unfold Statistics.decrement. destruct (stats w !! s); reflexivity. Qed.

Lemma has_socket_setex c k ttl v : preserves (has_socket c) (redis_setex k ttl v).
Proof. apply preserves_redis_setex. reflexivity. Qed.

(** The socket of the connection is still there when the [finally]
    clause runs. *)
Lemma has_socket_handled E cfg c r :
  preserves (has_socket c) (try_except (handle_request E cfg c r) (handler_except c)).
Proof.
  apply preserves_try_except.
  - apply (Footprint.fp_handle_request (has_socket c) (fun _ => True));
      first [ reflexivity | exact I | apply has_socket_sendall | apply has_socket_increment
            | apply has_socket_setex ].
  - intros e. apply (Footprint.fp_handler_except (has_socket c));
      first [ reflexivity | apply has_socket_sendall ].
Qed.

(** No statement before the [finally] clause touches
    [active_connections]. *)
Lemma active_connections_handled E cfg c r :
  preserves (counter_of "active_connections")
    (try_except (handle_request E cfg c r) (handler_except c)).
Proof.
  apply preserves_try_except.
  - apply (Footprint.fp_handle_request (counter_of "active_connections")
             (fun s => s <> "active_connections"));
      first [ reflexivity | discriminate | apply Footprint.counter_sendall
            | apply Footprint.counter_increment | apply Footprint.counter_setex ].
  - intros e. apply (Footprint.fp_handler_except (counter_of "active_connections"));
      first [ reflexivity | apply Footprint.counter_sendall ].
Qed.

Lemma handler_except_ok c e w : fst (handler_except c e w) = Ok tt.
Proof.
  unfold handler_except. destruct e; unfold mbind, M_bind, logger;
    apply ReplyRuns.send_error_ok.
Qed.

Lemma handled_ok E cfg c r w :
  fst (try_except (handle_request E cfg c r) (handler_except c) w) = Ok tt.
Proof.
  unfold try_except. destruct (handle_request E cfg c r w) as [[[]|e] w1];
    [reflexivity | apply handler_except_ok].
Qed.

End HandlerRuns.

Module RunFacts.
Import Frame.

Section Accepting.
Context {X : Type} (obs : world -> X) (P : string -> Prop).
Hypothesis obs_log : forall l w, obs (set_log l w) = obs w.
Hypothesis obs_sockets : forall s w, obs (set_sockets s w) = obs w.
Hypothesis obs_store : forall db w, obs (set_store db w) = obs w.
Hypothesis obs_queue : forall q w, obs (set_request_queue q w) = obs w.
Hypothesis keep_increment : forall stat v, P stat -> preserves obs (Statistics.increment stat v).

Lemma fp_is_rate_limited cfg client_ip : preserves obs (is_rate_limited cfg client_ip).
Proof.
  intros w. destruct (is_rate_limited cfg client_ip w) as [r w1] eqn:E.
  destruct (AcceptFacts.is_rate_limited_frame _ _ _ _ _ E) as ([db ->] & _).
  apply obs_store.
Qed.

Lemma fp_accept_step cfg a :
  P "rate_limited_requests" -> P "active_connections" ->
  preserves obs (accept_step cfg a).
Proof.
  intros Hr Ha. unfold accept_step. apply preserves_try_except.
  - destruct a as [| |c client_ip]; try apply preserves_raise.
    apply preserves_bind; [intros w; apply obs_sockets | intros _].
    apply preserves_bind; [apply fp_is_rate_limited | intros limited].
    destruct limited.
    + apply preserves_bind; [apply (preserves_logger obs obs_log) | intros _].
      apply preserves_bind; [apply keep_increment; exact Hr | intros _].
      apply (preserves_close obs obs_sockets).
    + apply preserves_bind; [intros w; apply obs_queue | intros _].
      apply keep_increment; exact Ha.
  - intros e. destruct e; first [apply preserves_ret | apply (preserves_logger obs obs_log)].
Qed.

End Accepting.

(** *** What leaves the tally alone *)

Lemma tally_sendall c data : preserves tally (sendall c data).
Proof. apply preserves_sendall. reflexivity. Qed.

Lemma tally_close c : preserves tally (close c).
Proof. apply preserves_close. reflexivity. Qed.

Lemma tally_setex k ttl v : preserves tally (redis_setex k ttl v).
Proof. apply preserves_redis_setex. reflexivity. Qed.

Lemma tally_increment stat v : untallied stat -> preserves tally (Statistics.increment stat v).
Proof.
  intros (H1 & H2 & H3) w. unfold Statistics.increment, tally.
  destruct (stats w !! stat); [|reflexivity]. cbn.
  rewrite !lookup_insert_ne by congruence. reflexivity.
Qed.

Lemma tally_decrement stat v : untallied stat -> preserves tally (Statistics.decrement stat v).
Proof.
  intros (H1 & H2 & H3) w. unfold Statistics.decrement, tally.
  destruct (stats w !! stat); [|reflexivity]. cbn.
  rewrite !lookup_insert_ne by congruence. reflexivity.
Qed.

Ltac tally_side :=
  first [ reflexivity
        | apply tally_sendall | apply tally_close | apply tally_setex
        | apply tally_increment | apply tally_decrement
        | (repeat split; discriminate) ].

Lemma tally_accept_step cfg a : preserves tally (accept_step cfg a).
Proof. apply (fp_accept_step tally untallied); tally_side. Qed.

Lemma tally_handler_except c e : preserves tally (handler_except c e).
Proof. apply (Footprint.fp_handler_except tally); tally_side. Qed.

Lemma tally_handler_finally c : preserves tally (handler_finally c).
Proof. apply (Footprint.fp_handler_finally tally untallied); tally_side. Qed.

Lemma tally_classify E cfg method path headers body :
  preserves tally (classify E cfg method path headers body).
Proof. apply (Footprint.fp_classify tally untallied); tally_side. Qed.

Lemma tally_send_error c code reason : preserves tally (_send_error_response c code reason).
Proof. apply (Footprint.fp_send_error tally); tally_side. Qed.

Lemma tally_send_response E cfg c rd : preserves tally (_send_response_to_client E cfg c rd).
Proof. apply (Footprint.fp_send_response tally); tally_side. Qed.

Lemma tally_handle_stats E c : preserves tally (_handle_stats_request E c).
Proof. apply (Footprint.fp_handle_stats tally); tally_side. Qed.

Lemma served_of_tally s e w w' :
  stats w !! "requests_success" = Some s -> stats w !! "requests_error" = Some e ->
  tally w' = tally w -> served s e w w'.
Proof.
  intros Hs He [= Ht Hs' He' Hm]. split; [exact Ht|]. split; [exact Hm|].
  exists s, e. rewrite Hs', He'. repeat split; auto; lia.
Qed.

Lemma served_then_tally s e w w1 w2 :
  served s e w w1 -> tally w2 = tally w1 -> served s e w w2.
Proof.
  intros (Ht & Hm & s' & e' & Hs' & He' & H) [= Ht2 Hs2 He2 Hm2].
  split; [congruence|]. split; [congruence|].
  exists s', e'. rewrite Hs2, He2. auto.
Qed.

Lemma methods_sendall c data : preserves request_methods (sendall c data).
Proof. apply preserves_sendall. reflexivity. Qed.

Lemma methods_setex k ttl v : preserves request_methods (redis_setex k ttl v).
Proof. apply preserves_redis_setex. reflexivity. Qed.

Lemma methods_increment stat v :
  True -> preserves request_methods (Statistics.increment stat v).
Proof. intros _ w. unfold Statistics.increment. destruct (stats w !! stat); reflexivity. Qed.

Lemma methods_forward E cfg c method path headers body :
  preserves request_methods (_forward_request E cfg c method path headers body).
Proof.
  apply (Footprint.fp_forward_request request_methods (fun _ => True));
    first [ reflexivity | exact I | apply methods_sendall | apply methods_setex
          | apply methods_increment ].
Qed.

Lemma served_forward E cfg c method path headers body w s e :
  stats w !! "requests_success" = Some s -> stats w !! "requests_error" = Some e ->
  fst (_forward_request E cfg c method path headers body w) = Ok tt /\
  served s e w (snd (_forward_request E cfg c method path headers body w)).
Proof.
  intros Hs He. pose proof (methods_forward E cfg c method path headers body w) as Hm.
  destruct (ForwardRuns.forward_outcome E cfg c method path headers body w s e Hs He)
    as (w' & Hrun & Hst).
  rewrite Hrun in *. cbn [fst snd] in *. split; [reflexivity|].
  destruct Hst as [[n Hst] | Hst]; rewrite ?Hst.
  - split; [|split; [exact Hm|]].
    + rewrite Hst. unfold counted_success. destruct (stats w !! "bytes_transferred");
        rewrite !lookup_insert_ne by discriminate; reflexivity.
    + exists (s + 1), e. rewrite Hst. unfold counted_success.
      destruct (stats w !! "bytes_transferred");
        rewrite ?lookup_insert_ne by discriminate;
        rewrite lookup_insert_eq, ?lookup_insert_ne by discriminate;
        repeat split; auto; lia.
  - split; [|split; [exact Hm|]].
    + rewrite Hst, lookup_insert_ne by discriminate. reflexivity.
    + exists s, (e + 1). rewrite Hst.
      rewrite lookup_insert_ne by discriminate. rewrite lookup_insert_eq.
      repeat split; auto; lia.
Qed.

(** A branch of the handler, and the [except] clause if it raises. *)
Lemma served_dispatch E cfg c method path headers body branch w s e :
  stats w !! "requests_success" = Some s -> stats w !! "requests_error" = Some e ->
  served s e w
    (snd (try_except (dispatch E cfg c method path headers body branch)
            (handler_except c) w)).
Proof.
  intros Hs He. unfold try_except. destruct branch; cbn [dispatch].
  - set (m := (logger INFO "Filtered request";;
               _send_error_response c 403 "Forbidden") : M unit).
    assert (Hp : preserves tally m).
    { apply preserves_bind; [apply preserves_logger; reflexivity | intros _].
      apply tally_send_error. }
    specialize (Hp w). destruct (m w) as [[[]|ex] w1]; cbn [snd] in *.
    + apply served_of_tally; assumption.
    + apply served_of_tally; try assumption. rewrite tally_handler_except. exact Hp.
  - pose proof (tally_handle_stats E c w) as Hp.
    destruct (_handle_stats_request E c w) as [[[]|ex] w1]; cbn [snd] in *.
    + apply served_of_tally; assumption.
    + apply served_of_tally; try assumption. rewrite tally_handler_except. exact Hp.
  - pose proof (tally_send_response E cfg c cached_response w) as Hp.
    destruct (_send_response_to_client E cfg c cached_response w) as [[[]|ex] w1];
      cbn [snd] in *.
    + apply served_of_tally; assumption.
    + apply served_of_tally; try assumption. rewrite tally_handler_except. exact Hp.
  - destruct (served_forward E cfg c method path headers body w s e Hs He) as [Hok Hsv].
    destruct (_forward_request E cfg c method path headers body w) as [[[]|ex] w1];
      cbn [fst snd] in *; [exact Hsv | discriminate].
Qed.

Lemma counted_tally method w :
  stats (counted method w) !! "requests_success" = stats w !! "requests_success" /\
  stats (counted method w) !! "requests_error" = stats w !! "requests_error".
Proof.
  unfold counted, mbind, M_bind, Statistics.increment, Statistics.update_method_stat.
  destruct (stats w !! "requests_total"); cbn;
    destruct (request_methods w !! method); cbn;
    rewrite ?lookup_insert_ne by discriminate; auto.
Qed.

(** A parsed request, from the count to the [finally] clause. *)
Lemma served_parsed E cfg c method path headers body w s e :
  stats w !! "requests_success" = Some s -> stats w !! "requests_error" = Some e ->
  served s e (counted method w)
    (snd (_handle_client_request E cfg c (ReadRequest method path headers body) w)).
Proof.
  intros Hs He. destruct (counted_tally method w) as [Hs0 He0].
  rewrite Hs in Hs0. rewrite He in He0.
  rewrite HandlerFacts.handler_run.
  assert (Hmid : served s e (counted method w)
                   (snd (try_except
                           (handle_request E cfg c (ReadRequest method path headers body))
                           (handler_except c) w))).
  { unfold try_except at 1. rewrite HandlerFacts.handle_request_run.
    pose proof (tally_classify E cfg method path headers body (counted method w)) as Hcl.
    destruct (classify E cfg method path headers body (counted method w))
      as [[branch|ex] w2]; cbn [snd] in Hcl.
    - assert (Hs2 : stats w2 !! "requests_success" = Some s)
        by (injection Hcl as _ -> _ _; exact Hs0).
      assert (He2 : stats w2 !! "requests_error" = Some e)
        by (injection Hcl as _ _ -> _; exact He0).
      pose proof (served_dispatch E cfg c method path headers body branch w2 s e Hs2 He2)
        as Hd.
      unfold try_except in Hd.
      destruct (dispatch E cfg c method path headers body branch w2) as [[[]|ex] w3];
        cbn [snd] in *.
      + destruct Hd as (Ht & Hm & Hrest). injection Hcl as Ht2 _ _ Hm2.
        split; [congruence|]. split; [congruence | exact Hrest].
      + destruct Hd as (Ht & Hm & Hrest). injection Hcl as Ht2 _ _ Hm2.
        split; [congruence|]. split; [congruence | exact Hrest].
    - apply served_of_tally; try assumption.
      rewrite tally_handler_except. exact Hcl. }
  destruct (try_except _ _ w) as [res w1]. cbn [snd] in *.
  eapply served_then_tally; [exact Hmid|]. apply tally_handler_finally.
Qed.

(** A connection whose request was never parsed. *)
Lemma tally_unparsed E cfg c r :
  (forall method path headers body, r <> ReadRequest method path headers body) ->
  preserves tally (_handle_client_request E cfg c r).
Proof.
  intros Hr. unfold _handle_client_request.
  apply preserves_try_finally; [|apply tally_handler_finally].
  apply preserves_try_except; [|intros e; apply tally_handler_except].
  destruct r; cbn [handle_request].
  - apply preserves_raise.
  - apply preserves_ret.
  - apply preserves_bind; [apply preserves_logger; reflexivity | intros _].
    apply tally_send_error.
  - exfalso. exact (Hr _ _ _ _ eq_refl).
Qed.

(** *** The count *)

Lemma methods_total_insert (m : string) (v : Z) (w w' : world) :
  m ∈ methods -> request_methods w !! m = Some v ->
  request_methods w' = <[m := v + 1]> (request_methods w) ->
  methods_total w' = methods_total w + 1.
Proof.
  intros Hin Hv Hw'. unfold methods_total, methods, method_count in *. cbn [foldr].
  rewrite Hw'.
  repeat (apply elem_of_cons in Hin as [-> | Hin]); [| | | | | inversion Hin].
  all: rewrite ?lookup_insert_eq, ?lookup_insert_ne by discriminate;
    rewrite ?lookup_insert_eq; rewrite Hv; cbn [default from_option id]; lia.
Qed.

Lemma counted_accounted (method : string) (w : world) (t : Z) :
  stats w !! "requests_total" = Some t ->
  (forall m, is_Some (request_methods w !! m) <-> m ∈ methods) ->
  stats (counted method w) !! "requests_total" = Some (t + 1) /\
  methods_total (counted method w) = methods_total w + 1 /\
  (forall m, is_Some (request_methods (counted method w) !! m) <-> m ∈ methods).
Proof.
  intros Ht Hkeys. unfold counted, mbind, M_bind, Statistics.increment. rewrite Ht. cbn.
  unfold Statistics.update_method_stat. cbn [request_methods set_stats].
  destruct (request_methods w !! method) as [v|] eqn:Ev; cbn [snd stats set_request_methods
    set_stats].
  - split; [apply lookup_insert_eq|].
    assert (Hin : method ∈ methods) by (apply Hkeys; rewrite Ev; eauto).
    split.
    + apply (methods_total_insert method v w _ Hin Ev). reflexivity.
    + intros m. cbn. rewrite lookup_insert_is_Some. rewrite <- Hkeys. split.
      * intros [<- | [_ H]]; [rewrite Ev; eauto | exact H].
      * intros H. destruct (decide (method = m)); auto.
  - split; [apply lookup_insert_eq|].
    assert (Hin : "OTHER" ∈ methods) by (unfold methods; apply list_elem_of_In; cbn; tauto).
    destruct (proj2 (Hkeys "OTHER") Hin) as [v0 Ev0].
    rewrite Ev0. cbn [default from_option id].
    split.
    + apply (methods_total_insert "OTHER" v0 w _ Hin Ev0). reflexivity.
    + intros m. cbn. rewrite lookup_insert_is_Some. rewrite <- Hkeys. split.
      * intros [<- | [_ H]]; [rewrite Ev0; eauto | exact H].
      * intros H. destruct (decide ("OTHER" = m)); auto.
Qed.

Lemma accounted_of_tally w w' : tally w' = tally w -> accounted w -> accounted w'.
Proof.
  intros [= Ht Hs He Hm] (t & s & e & H1 & H2 & H3 & H4 & H5 & H6 & H7 & H8).
  exists t, s, e. unfold methods_total, method_count in *. rewrite Ht, Hs, He, Hm.
  repeat split; auto; apply H8.
Qed.

Lemma accounted_step cfg ev w : accounted w -> accounted (step cfg ev w).
Proof.
  intros Hacc. destruct ev as [d|up|a|E c r]; cbn [step].
  - revert Hacc. apply accounted_of_tally. reflexivity.
  - revert Hacc. apply accounted_of_tally. reflexivity.
  - revert Hacc. apply accounted_of_tally. apply tally_accept_step.
  - destruct r as [ex| | |method path headers body].
    1-3: revert Hacc; apply accounted_of_tally; apply tally_unparsed; discriminate.
    destruct Hacc as (t & s & e & Ht & Hs & He & Hs0 & He0 & Hle & Hm & Hkeys).
    destruct (served_parsed E cfg c method path headers body w s e Hs He)
      as (Ht' & Hm' & s' & e' & Hs' & He' & Hss & Hee & Hsum).
    destruct (counted_accounted method w t Ht Hkeys) as (Htc & Hmc & Hkc).
    exists (t + 1), s', e'. rewrite Ht', Htc.
    unfold methods_total, method_count in *. rewrite Hm'.
    repeat split; auto; try lia; apply Hkc.
Qed.

Lemma accounted_run cfg events w : accounted w -> accounted (run cfg events w).
Proof.
  revert w. induction events as [|ev events IH]; intros w Hacc; [exact Hacc|].
  cbn. apply IH, accounted_step, Hacc.
Qed.

Lemma accounted_initial t0 : accounted (initial_world t0).
Proof.
  exists 0, 0, 0. repeat split; try reflexivity; try lia.
  - intros [v Hv]. unfold methods. cbn in Hv.
    unfold Statistics.initial_methods in Hv.
    destruct (decide (m = "GET")) as [->|]; [apply list_elem_of_In; cbn; tauto|].
    destruct (decide (m = "POST")) as [->|]; [apply list_elem_of_In; cbn; tauto|].
    destruct (decide (m = "PUT")) as [->|]; [apply list_elem_of_In; cbn; tauto|].
    destruct (decide (m = "DELETE")) as [->|]; [apply list_elem_of_In; cbn; tauto|].
    destruct (decide (m = "OTHER")) as [->|]; [apply list_elem_of_In; cbn; tauto|].
    cbn in Hv. rewrite !lookup_insert_ne in Hv by congruence.
    rewrite lookup_empty in Hv. discriminate.
  - intros Hin. unfold methods in Hin.
    repeat (apply elem_of_cons in Hin as [-> | Hin]); [| | | | | inversion Hin];
      cbn; eauto.
Qed.

End RunFacts.

Module WireFacts.
Import Wire.

Lemma recv_all_more (reads more : list recv_result) (acc data : bytes) :
  recv_all reads acc = Ok data -> recv_all (reads ++ more) acc = Ok data.
Proof.
  revert acc. induction reads as [|r reads IH]; intros acc; cbn; [discriminate|].
  destruct r as [chunk| |]; try discriminate.
  destruct chunk as [|b chunk]; [exact id|].
  destruct (PyStr.contains_l blank_line (acc ++ b :: chunk)); [exact id | apply IH].
Qed.

Lemma split_crlf_line (l rest : bytes) :
  forallb (fun c => negb (is_cr c)) l = true ->
  split_crlf (l ++ CR :: LF :: rest) = l :: split_crlf rest.
Proof.
  induction l as [|c l IH]; intros Hl.
  - reflexivity.
  - cbn in Hl. apply andb_true_iff in Hl as [Hc Hl]. apply negb_true_iff in Hc.
    change ((c :: l) ++ CR :: LF :: rest) with (c :: (l ++ CR :: LF :: rest)).
    cbn [split_crlf]. rewrite Hc. cbn [andb].
    rewrite (IH Hl).
    destruct (l ++ CR :: LF :: rest) as [|c' s''] eqn:E; [destruct l; discriminate|].
    reflexivity.
Qed.

Lemma words_from_token (tok cur rest : list ascii) :
  forallb (fun c => negb (is_space c)) tok = true ->
  words_from cur (tok ++ rest) = words_from (rev tok ++ cur) rest.
Proof.
  revert cur. induction tok as [|c tok IH]; intros cur Ht; [reflexivity|].
  cbn in Ht. apply andb_true_iff in Ht as [Hc Ht]. apply negb_true_iff in Hc.
  cbn [app words_from]. rewrite Hc, (IH _ Ht). cbn [rev]. rewrite <- app_assoc. reflexivity.
Qed.

Lemma words_three (m p v : list ascii) :
  m <> [] -> p <> [] -> v <> [] ->
  forallb (fun c => negb (is_space c)) m = true ->
  forallb (fun c => negb (is_space c)) p = true ->
  forallb (fun c => negb (is_space c)) v = true ->
  words (m ++ " "%char :: p ++ " "%char :: v) = [m; p; v].
Proof.
  intros Hm Hp Hv Hms Hps Hvs. unfold words.
  rewrite (words_from_token m [] _ Hms), app_nil_r. cbn [words_from].
  change (is_space " "%char) with true. cbv iota.
  destruct (rev m) as [|x xs] eqn:Em.
  { exfalso. apply Hm. rewrite <- (rev_involutive m), Em. reflexivity. }
  rewrite <- Em, rev_involutive.
  rewrite (words_from_token p [] _ Hps), app_nil_r. cbn [words_from].
  change (is_space " "%char) with true. cbv iota.
  destruct (rev p) as [|y ys] eqn:Ep.
  { exfalso. apply Hp. rewrite <- (rev_involutive p), Ep. reflexivity. }
  rewrite <- Ep, rev_involutive.
  rewrite <- (app_nil_r v) at 1.
  rewrite (words_from_token v [] [] Hvs), app_nil_r. cbn [words_from].
  destruct (rev v) as [|z zs] eqn:Ev.
  { exfalso. apply Hv. rewrite <- (rev_involutive v), Ev. reflexivity. }
  rewrite <- Ev, rev_involutive. reflexivity.
Qed.

Lemma space_byte_is_space (c : ascii) : is_space_byte c = true -> is_space c = true.
Proof. destruct c as [[] [] [] [] [] [] [] []]; vm_compute; auto. Qed.

Lemma lstrip_head (space : ascii -> bool) (c : ascii) (s : list ascii) :
  space c = false -> lstrip space (c :: s) = c :: s.
Proof. intros H. cbn. rewrite H. reflexivity. Qed.

Lemma strip_clean (space : ascii -> bool) (s : list ascii) :
  match s with [] => False | c :: _ => space c = false end ->
  match rev s with [] => False | c :: _ => space c = false end ->
  strip space s = s.
Proof.
  intros H1 H2. unfold strip.
  destruct s as [|c s']; [contradiction|]. rewrite (lstrip_head _ _ _ H1).
  destruct (rev (c :: s')) as [|d r] eqn:Er; [contradiction|].
  rewrite (lstrip_head _ _ _ H2), <- Er. apply rev_involutive.
Qed.

Lemma split_colon_name (name rest : list ascii) :
  forallb (fun c => negb (is_colon c)) name = true ->
  split_colon (name ++ ":"%char :: rest) = Some (name, rest).
Proof.
  induction name as [|c name IH]; intros H; [reflexivity|].
  cbn in H. apply andb_true_iff in H as [Hc H]. apply negb_true_iff in Hc.
  cbn. rewrite Hc, (IH H). reflexivity.
Qed.

Lemma field_facts (s : string) :
  field s = true ->
  forallb (fun c => negb (is_cr c)) (list_ascii_of_string s) = true /\
  forallb is_ascii_byte (list_ascii_of_string s) = true /\
  match list_ascii_of_string s with [] => False | c :: _ => is_space c = false end /\
  match rev (list_ascii_of_string s) with [] => False | c :: _ => is_space c = false end.
Proof.
  unfold field. intros H. apply andb_true_iff in H as [H H3].
  apply andb_true_iff in H as [H1 H2].
  split; [|split; [|split]].
  - apply forallb_forall. intros c Hc. rewrite forallb_forall in H1.
    specialize (H1 c Hc). apply andb_true_iff in H1. tauto.
  - apply forallb_forall. intros c Hc. rewrite forallb_forall in H1.
    specialize (H1 c Hc). apply andb_true_iff in H1. tauto.
  - destruct (list_ascii_of_string s); [discriminate | apply negb_true_iff; exact H2].
  - destruct (rev (list_ascii_of_string s)); [discriminate | apply negb_true_iff; exact H3].
Qed.

Lemma not_space_byte (c : ascii) : is_space c = false -> is_space_byte c = false.
Proof.
  intros H. destruct (is_space_byte c) eqn:E; [|reflexivity].
  apply space_byte_is_space in E. congruence.
Qed.

Lemma head_app {A} (P : A -> Prop) (l r : list A) :
  match l with [] => False | c :: _ => P c end ->
  match l ++ r with [] => False | c :: _ => P c end.
Proof. destruct l; [contradiction | exact id]. Qed.

Section Decoded.
Variable E : env.
Hypothesis ascii_faithful :
  forall b, forallb is_ascii_byte b = true -> utf8_decode_ignore E b = string_of_list_ascii b.

Lemma parse_header_line (name value : string) (rest : list bytes)
    (acc : list (string * string)) :
  well_formed_header (name, value) = true ->
  parse_headers E
    ((list_ascii_of_string name ++ list_ascii_of_string ": " ++ list_ascii_of_string value)
       :: rest) acc
  = parse_headers E rest (PyDict.set name value acc).
Proof.
  unfold well_formed_header. cbn [fst snd]. intros H.
  apply andb_true_iff in H as [H Hv]. apply andb_true_iff in H as [Hn Hcolon].
  destruct (field_facts name Hn) as (_ & Hna & Hn1 & Hn2).
  destruct (field_facts value Hv) as (_ & Hva & Hv1 & Hv2).
  set (n := list_ascii_of_string name) in *. set (v := list_ascii_of_string value) in *.
  set (line := n ++ list_ascii_of_string ": " ++ v).
  assert (Hstrip : strip is_space_byte line = line).
  { apply strip_clean.
    - unfold line. apply (head_app (fun c => is_space_byte c = false)).
      destruct n; [contradiction | apply not_space_byte; exact Hn1].
    - unfold line. rewrite !rev_app_distr.
      apply (head_app (fun c => is_space_byte c = false)).
      destruct (rev v); [contradiction | apply not_space_byte; exact Hv2]. }
  assert (Hline : exists c line', line = c :: line').
  { unfold line. destruct n as [|c n']; [contradiction|]. eauto. }
  cbn [parse_headers]. rewrite Hstrip.
  destruct Hline as (c & line' & Hline). rewrite Hline. rewrite <- Hline.
  rewrite ascii_faithful.
  2:{ unfold line. rewrite !forallb_app, Hna, Hva. reflexivity. }
  rewrite list_ascii_of_string_of_list_ascii.
  unfold line. cbn [list_ascii_of_string app].
  rewrite (split_colon_name n _ Hcolon).
  rewrite (strip_clean is_space n Hn1 Hn2).
  assert (Hsv : strip is_space (" "%char :: v) = v).
  { unfold strip. cbn [lstrip]. change (is_space " "%char) with true. cbv iota.
    apply (strip_clean is_space v Hv1 Hv2). }
  rewrite Hsv. unfold n, v. rewrite !string_of_list_ascii_of_string. reflexivity.
Qed.

Lemma parse_header_lines (headers : list (string * string)) (tail : list bytes)
    (acc : list (string * string)) :
  forallb well_formed_header headers = true ->
  parse_headers E
    (map (fun h => list_ascii_of_string (fst h) ++ list_ascii_of_string ": "
                   ++ list_ascii_of_string (snd h)) headers ++ [] :: tail) acc
  = fold_left (fun d kv => PyDict.set (fst kv) (snd kv) d) headers acc.
Proof.
  revert acc. induction headers as [|[name value] headers IH]; intros acc H.
  - reflexivity.
  - cbn [forallb] in H. apply andb_true_iff in H as [Hh H].
    cbn [map app fst snd]. rewrite (parse_header_line name value _ acc Hh).
    rewrite (IH _ H). reflexivity.
Qed.

End Decoded.

(** *** The lines of a request *)

Lemma split_crlf_lines (lines : list bytes) (rest : bytes) :
  Forall (fun l => forallb (fun c => negb (is_cr c)) l = true) lines ->
  split_crlf (concat (map (fun l => l ++ crlf_bytes) lines) ++ rest)
  = lines ++ split_crlf rest.
Proof.
  induction 1 as [|l lines Hl _ IH]; [reflexivity|].
  cbn [map concat]. rewrite <- !app_assoc. unfold crlf_bytes at 1. cbn [app].
  rewrite (split_crlf_line l _ Hl), IH. reflexivity.
Qed.

Lemma after_blank_line_skip (l rest : bytes) :
  forallb (fun c => negb (is_cr c)) l = true ->
  after_blank_line (l ++ rest) = after_blank_line rest.
Proof.
  induction l as [|c l IH]; intros H; [reflexivity|].
  cbn in H. apply andb_true_iff in H as [Hc H]. apply negb_true_iff in Hc.
  cbn [app after_blank_line].
  assert (Hs : PyStr.starts_with blank_line (c :: l ++ rest) = false).
  { unfold blank_line. cbn [PyStr.starts_with].
    destruct (Ascii.eqb CR c) eqn:Ec; [|reflexivity].
    apply Ascii.eqb_eq in Ec. subst c. discriminate. }
  rewrite Hs. apply IH, H.
Qed.

Lemma after_blank_line_here (body : bytes) :
  after_blank_line (CR :: LF :: CR :: LF :: body) = Some body.
Proof. reflexivity. Qed.

Lemma after_blank_line_next (c : ascii) (rest : bytes) :
  is_cr c = false ->
  after_blank_line (CR :: LF :: c :: rest) = after_blank_line (c :: rest).
Proof.
  intros Hc.
  assert (Hne : Ascii.eqb CR c = false).
  { destruct (Ascii.eqb CR c) eqn:Ec; [|reflexivity].
    apply Ascii.eqb_eq in Ec. subst c. discriminate. }
  assert (H1 : PyStr.starts_with blank_line (CR :: LF :: c :: rest) = false).
  { unfold blank_line. cbn [PyStr.starts_with]. rewrite !Ascii.eqb_refl, Hne. reflexivity. }
  assert (H2 : PyStr.starts_with blank_line (LF :: c :: rest) = false) by reflexivity.
  change (after_blank_line (CR :: LF :: c :: rest))
    with (if PyStr.starts_with blank_line (CR :: LF :: c :: rest)
          then Some (drop 4 (CR :: LF :: c :: rest))
          else if PyStr.starts_with blank_line (LF :: c :: rest)
               then Some (drop 4 (LF :: c :: rest))
               else after_blank_line (c :: rest)).
  rewrite H1, H2. reflexivity.
Qed.

Lemma after_blank_line_lines (lines : list bytes) (body : bytes) :
  lines <> [] ->
  Forall (fun l => l <> [] /\ forallb (fun c => negb (is_cr c)) l = true) lines ->
  after_blank_line (concat (map (fun l => l ++ crlf_bytes) lines) ++ crlf_bytes ++ body)
  = Some body.
Proof.
  intros Hne Hall. induction Hall as [|l lines [Hl Hcr] Hrest IH]; [congruence|].
  cbn [map concat]. rewrite <- !app_assoc.
  rewrite (after_blank_line_skip l _ Hcr).
  destruct lines as [|l2 lines].
  - cbn. reflexivity.
  - inversion Hrest as [|? ? [Hl2 Hcr2] _]; subst.
    destruct l2 as [|c l2]; [congruence|].
    cbn in Hcr2. apply andb_true_iff in Hcr2 as [Hc _]. apply negb_true_iff in Hc.
    unfold crlf_bytes at 1. cbn [app map concat].
    rewrite (after_blank_line_next c _ Hc).
    apply IH. discriminate.
Qed.

Lemma cr_is_space (c : ascii) : is_cr c = true -> is_space c = true.
Proof. destruct c as [[] [] [] [] [] [] [] []]; vm_compute; auto. Qed.

Lemma token_facts (s : string) :
  token s = true ->
  list_ascii_of_string s <> [] /\
  forallb (fun c => negb (is_space c)) (list_ascii_of_string s) = true /\
  forallb is_ascii_byte (list_ascii_of_string s) = true /\
  forallb (fun c => negb (is_cr c)) (list_ascii_of_string s) = true.
Proof.
  unfold token. intros H. apply andb_true_iff in H as [Hne H].
  rewrite forallb_forall in H.
  split; [destruct s; [discriminate | cbn; discriminate]|].
  split; [|split]; apply forallb_forall; intros c Hc; specialize (H c Hc);
    apply andb_true_iff in H as [H1 H2]; auto.
  apply negb_true_iff. apply negb_true_iff in H1.
  destruct (is_cr c) eqn:E; [|reflexivity]. apply cr_is_space in E. congruence.
Qed.

Lemma parse_request_nonempty (E : env) (request_data : bytes) :
  request_data <> [] ->
  parse_request E request_data =
    match words (list_ascii_of_string
                   (utf8_decode_ignore E (hd [] (split_crlf request_data)))) with
    | [method; path; version] =>
        ReadRequest (string_of_list_ascii method) (string_of_list_ascii path)
          (parse_headers E (tl (split_crlf request_data)) []) (parse_body request_data)
    | _ => ReadBadRequestLine
    end.
Proof. destruct request_data; [congruence | reflexivity]. Qed.

(** The lines of a rendered request. *)
Lemma render_request_lines (method path version : string)
    (headers : list (string * string)) (body : bytes) :
  render_request method path version headers body =
    concat (map (fun l => l ++ crlf_bytes)
              ((list_ascii_of_string method ++ " "%char :: list_ascii_of_string path
                ++ " "%char :: list_ascii_of_string version)
               :: map (fun h => list_ascii_of_string (fst h) ++ list_ascii_of_string ": "
                                ++ list_ascii_of_string (snd h)) headers))
    ++ crlf_bytes ++ body.
Proof.
  unfold render_request. cbn [map concat].
  rewrite map_map. unfold render_header.
  change (list_ascii_of_string " ") with [" "%char].
  assert (Hmap :
    map (fun x : string * string =>
           (list_ascii_of_string (fst x) ++ list_ascii_of_string ": "
            ++ list_ascii_of_string (snd x)) ++ crlf_bytes) headers
    = map (fun h : string * string =>
             list_ascii_of_string (fst h) ++ list_ascii_of_string ": "
             ++ list_ascii_of_string (snd h) ++ crlf_bytes) headers).
  { apply map_ext. intros h. rewrite <- !app_assoc. reflexivity. }
  rewrite Hmap.
  repeat (rewrite <- app_assoc || rewrite <- app_comm_cons). reflexivity.
Qed.

Lemma parse_render (E : env) (method path version : string)
    (headers : list (string * string)) (body : bytes) :
  (forall b, forallb is_ascii_byte b = true ->
             utf8_decode_ignore E b = string_of_list_ascii b) ->
  token method = true -> token path = true -> token version = true ->
  forallb well_formed_header headers = true ->
  Json.distinct (map fst headers) = true ->
  parse_request E (render_request method path version headers body)
  = ReadRequest method path headers (match body with [] => None | _ => Some body end).
Proof.
  intros HE Hm Hp Hv Hh Hd.
  destruct (token_facts method Hm) as (Hm0 & Hms & Hma & Hmc).
  destruct (token_facts path Hp) as (Hp0 & Hps & Hpa & Hpc).
  destruct (token_facts version Hv) as (Hv0 & Hvs & Hva & Hvc).
  set (m := list_ascii_of_string method) in *.
  set (p := list_ascii_of_string path) in *.
  set (v := list_ascii_of_string version) in *.
  set (reqline := m ++ " "%char :: p ++ " "%char :: v).
  set (hlines := map (fun h => list_ascii_of_string (fst h) ++ list_ascii_of_string ": "
                               ++ list_ascii_of_string (snd h)) headers).
  assert (Hreq_cr : forallb (fun c => negb (is_cr c)) reqline = true).
  { unfold reqline. rewrite forallb_app. cbn [forallb]. rewrite forallb_app. cbn [forallb].
    rewrite Hmc, Hpc, Hvc. reflexivity. }
  assert (Hreq_ne : reqline <> []).
  { unfold reqline. destruct m; [congruence | discriminate]. }
  assert (Hhl : Forall (fun l => l <> [] /\ forallb (fun c => negb (is_cr c)) l = true)
                  hlines).
  { unfold hlines. apply Forall_map. apply Forall_forall. intros [name value] Hin.
    rewrite forallb_forall in Hh. specialize (Hh _ (proj1 (list_elem_of_In _ _) Hin)).
    unfold well_formed_header in Hh. cbn [fst snd] in *.
    apply andb_true_iff in Hh as [Hh Hfv]. apply andb_true_iff in Hh as [Hfn _].
    destruct (field_facts name Hfn) as (Hn1 & _ & Hn2 & _).
    destruct (field_facts value Hfv) as (Hv1 & _ & _ & _).
    split.
    - destruct (list_ascii_of_string name); [contradiction | discriminate].
    - rewrite !forallb_app, Hn1, Hv1. reflexivity. }
  rewrite render_request_lines. fold m p v reqline hlines.
  rewrite parse_request_nonempty.
  2:{ cbn [map concat]. destruct reqline; [congruence | discriminate]. }
  rewrite split_crlf_lines.
  2:{ constructor; [exact Hreq_cr|]. eapply Forall_impl; [exact Hhl|]. cbn. tauto. }
  change (split_crlf (crlf_bytes ++ body)) with ([] :: split_crlf body).
  cbn [hd tl app].
  rewrite HE.
  2:{ unfold reqline. rewrite forallb_app. cbn [forallb]. rewrite forallb_app. cbn [forallb].
      rewrite Hma, Hpa, Hva. reflexivity. }
  rewrite list_ascii_of_string_of_list_ascii.
  unfold reqline at 1. rewrite (words_three m p v Hm0 Hp0 Hv0 Hms Hps Hvs).
  unfold hlines. rewrite (parse_header_lines E HE headers _ [] Hh).
  rewrite (JsonFacts.of_pairs_acc headers []).
  2:{ cbn [app]. apply JsonFacts.distinct_NoDup. exact Hd. }
  cbn [app].
  unfold parse_body.
  rewrite (after_blank_line_lines (reqline :: map _ headers) body); [|discriminate|].
  2:{ constructor; [split; assumption | exact Hhl]. }
  unfold m, p. rewrite !string_of_list_ascii_of_string.
  destruct body; reflexivity.
Qed.

Lemma parse_bad_request_line (E : env) (request_data : bytes) :
  request_data <> [] ->
  length (words (list_ascii_of_string
                   (utf8_decode_ignore E (hd [] (split_crlf request_data))))) <> 3%nat ->
  parse_request E request_data = ReadBadRequestLine.
Proof.
  intros Hne Hlen. rewrite (parse_request_nonempty E request_data Hne).
  destruct (words _) as [|a [|b [|c [|d l]]]]; try reflexivity.
  exfalso. apply Hlen. reflexivity.
Qed.

End WireFacts.

Module WireTests.
Import Wire.

Example parse_get :
  parse_request Examples.E_hello
    (list_ascii_of_string "GET /x HTTP/1.1" ++ crlf_bytes
     ++ list_ascii_of_string "Host: a.example" ++ crlf_bytes
     ++ list_ascii_of_string "accept :  text/html  " ++ crlf_bytes
     ++ list_ascii_of_string "no colon here" ++ crlf_bytes
     ++ list_ascii_of_string "Host:b.example:80" ++ crlf_bytes ++ crlf_bytes)
  = ReadRequest "GET" "/x" [("Host", "b.example:80"); ("accept", "text/html")] None.
Proof. vm_compute. reflexivity. Qed.

Example parse_post :
  parse_request Examples.E_hello
    (list_ascii_of_string "POST   /submit  HTTP/1.1" ++ crlf_bytes ++ crlf_bytes
     ++ list_ascii_of_string "a=1" ++ crlf_bytes ++ list_ascii_of_string "b: 2")
  = ReadRequest "POST" "/submit" [] (Some (list_ascii_of_string "a=1" ++ crlf_bytes
                                           ++ list_ascii_of_string "b: 2")).
Proof. vm_compute. reflexivity. Qed.

Example parse_bad :
  parse_request Examples.E_hello (list_ascii_of_string "GET /x" ++ crlf_bytes ++ crlf_bytes)
  = ReadBadRequestLine.
Proof. vm_compute. reflexivity. Qed.

End WireTests.

Module CacheHitFacts.

(** A lookup that finds the entry of [r], still alive. *)
Lemma cached_lookup E url headers body (r : response) (w : world) key text ex :
  (forall w, _generate_cache_key E "GET" url headers body w = (Ok key, w)) ->
  redis_up w = true ->
  store w !! key = Some {| Redis.value := Redis.RString text; Redis.expires := Some ex |} ->
  now w < ex ->
  Json.dumps (PDict (cache_data r)) = Some text -> PyStr.nonempty text = true ->
  Json.distinct (map fst (resp_headers r)) = true ->
  get_cached_response E "GET" url headers body w
    = (Ok (Some (PDict (restored r))), snd (Statistics.increment "cache_hits" 1 w)).
Proof.
  intros Hkey Hup Hst Hlive Hd Hne Hdist.
  unfold get_cached_response. cbn [String.eqb Ascii.eqb Bool.eqb negb].
  unfold mbind, M_bind. rewrite Hkey.
  unfold redis_get. rewrite Hup. unfold Redis.get, Redis.lookup. rewrite Hst.
  unfold Redis.live. cbn [Redis.expires Redis.value].
  replace (now w <? ex) with true by (symmetry; apply Z.ltb_lt; lia).
  rewrite Hne, HandlerFacts.increment_run. cbn [snd].
  rewrite (JsonFacts.loads_dumps _ _ (CacheFacts.jsonable_cache_data r Hdist) Hd).
  apply CacheFacts.restore_cache_data.
Qed.

End CacheHitFacts.

Module BypassFacts.
Import Frame.

Lemma cache_state_increment stat v :
  stat <> "cache_hits" -> stat <> "cache_misses" ->
  preserves cache_state (Statistics.increment stat v).
Proof.
  intros H1 H2 w. unfold Statistics.increment, cache_state.
  destruct (stats w !! stat); [|reflexivity]. cbn.
  rewrite !lookup_insert_ne by congruence. reflexivity.
Qed.

Lemma cache_state_decrement stat v :
  stat <> "cache_hits" -> stat <> "cache_misses" ->
  preserves cache_state (Statistics.decrement stat v).
Proof.
  intros H1 H2 w. unfold Statistics.decrement, cache_state.
  destruct (stats w !! stat); [|reflexivity]. cbn.
  rewrite !lookup_insert_ne by congruence. reflexivity.
Qed.

Ltac quiet :=
  repeat first
    [ apply preserves_ret
    | apply preserves_raise
    | apply (preserves_logger cache_state (fun _ _ => eq_refl))
    | apply (preserves_sendall cache_state (fun _ _ => eq_refl))
    | apply (preserves_close cache_state (fun _ _ => eq_refl))
    | apply (preserves_update_method_stat cache_state (fun _ _ => eq_refl))
    | apply cache_state_increment; discriminate
    | apply cache_state_decrement; discriminate
    | apply preserves_bind; [|intros ?]
    | apply preserves_try_except; [|intros ?]
    | apply preserves_try_finally ].

Lemma cache_state_send_error c code reason :
  preserves cache_state (_send_error_response c code reason).
Proof. unfold _send_error_response. quiet. Qed.

Lemma cache_state_send_response E cfg c rd :
  preserves cache_state (_send_response_to_client E cfg c rd).
Proof. unfold _send_response_to_client. destruct (compose_response _ _ _); quiet. Qed.

Lemma cache_state_forward E cfg c method path headers body :
  String.eqb method "GET" = false ->
  preserves cache_state (_forward_request E cfg c method path headers body).
Proof.
  intros Hm. unfold _forward_request. rewrite Hm. cbn [andb].
  apply preserves_try_except.
  - apply preserves_bind.
    { unfold _select_backend_server. destruct (BACKEND_SERVERS cfg); quiet. }
    intros backend. apply preserves_bind; [quiet | intros _].
    apply preserves_bind.
    { unfold session_request. destruct (origin E _ _ _ _); quiet. }
    intros r. apply preserves_bind; [quiet | intros _].
    apply preserves_bind; [apply cache_state_send_response | intros _]. quiet.
  - intros e. destruct e; quiet; try apply cache_state_send_error.
Qed.

Lemma cache_state_handled E cfg c method path headers body :
  String.eqb method "GET" = false ->
  preserves cache_state
    (_handle_client_request E cfg c (ReadRequest method path headers body)).
Proof.
  intros Hm. unfold _handle_client_request.
  apply preserves_try_finally; [|unfold handler_finally; quiet].
  apply preserves_try_except.
  - cbn [handle_request].
    apply preserves_bind; [quiet | intros _].
    apply preserves_bind; [quiet | intros _].
    apply preserves_bind.
    + unfold classify. destruct (RequestFilter.should_filter _ _ _); [quiet|].
      destruct (String.eqb path _); [quiet|]. rewrite Hm. quiet.
    + intros branch. destruct branch; cbn [dispatch].
      * quiet; try apply cache_state_send_error.
      * intros w. unfold _handle_stats_request.
        apply (preserves_sendall cache_state (fun _ _ => eq_refl)).
      * apply cache_state_send_response.
      * apply cache_state_forward. exact Hm.
  - intros e. unfold handler_except. destruct e; quiet; try apply cache_state_send_error.
Qed.

End BypassFacts.

Module ConfigFacts.
Import Config.

Example parse_list_example :
  parse_list " http://a:8000 ,, http://b:8000,  " = ["http://a:8000"; "http://b:8000"].
Proof. vm_compute. reflexivity. Qed.

Lemma split_comma_free (s : list ascii) :
  forallb (fun c => negb (is_comma c)) s = true -> split_comma s = [s].
Proof.
  induction s as [|c s IH]; intros H; [reflexivity|].
  cbn in H. apply andb_true_iff in H as [Hc H]. apply negb_true_iff in Hc.
  cbn. rewrite Hc, (IH H). reflexivity.
Qed.

Lemma split_comma_item (s rest : list ascii) :
  forallb (fun c => negb (is_comma c)) s = true ->
  split_comma (s ++ ","%char :: rest) = s :: split_comma rest.
Proof.
  induction s as [|c s IH]; intros H; [reflexivity|].
  cbn in H. apply andb_true_iff in H as [Hc H]. apply negb_true_iff in Hc.
  cbn. rewrite Hc, (IH H). reflexivity.
Qed.

Lemma split_join (items : list (list ascii)) :
  items <> [] ->
  Forall (fun s => forallb (fun c => negb (is_comma c)) s = true) items ->
  split_comma (join_comma items) = items.
Proof.
  intros Hne Hall. induction Hall as [|x items Hx Hrest IH]; [congruence|].
  destruct items as [|y items].
  - cbn. apply split_comma_free, Hx.
  - change (join_comma (x :: y :: items)) with (x ++ ","%char :: join_comma (y :: items)).
    rewrite (split_comma_item x _ Hx), IH by discriminate. reflexivity.
Qed.

(** The pieces that [split] gives hold no comma. *)
Lemma split_comma_pieces (s : list ascii) :
  Forall (fun p => forallb (fun c => negb (is_comma c)) p = true) (split_comma s).
Proof.
  induction s as [|c s IH]; cbn.
  - repeat constructor.
  - destruct (is_comma c) eqn:Ec.
    + constructor; [reflexivity | exact IH].
    + destruct (split_comma s) as [|p ps]; cbn.
      * repeat constructor. cbn. rewrite Ec. reflexivity.
      * inversion IH; subst. constructor; [|assumption]. cbn. rewrite Ec. assumption.
Qed.

Lemma lstrip_forallb (space Q : ascii -> bool) (s : list ascii) :
  forallb Q s = true -> forallb Q (Wire.lstrip space s) = true.
Proof.
  induction s as [|c s IH]; intros H; [reflexivity|].
  cbn. destruct (space c); [|exact H].
  cbn in H. apply andb_true_iff in H as [_ H]. exact (IH H).
Qed.

Lemma forallb_rev (Q : ascii -> bool) (s : list ascii) :
  forallb Q s = true -> forallb Q (rev s) = true.
Proof.
  rewrite !forallb_forall. intros H c Hin. apply H. apply in_rev. exact Hin.
Qed.

Lemma strip_forallb (space Q : ascii -> bool) (s : list ascii) :
  forallb Q s = true -> forallb Q (Wire.strip space s) = true.
Proof.
  intros H. unfold Wire.strip.
  apply forallb_rev, lstrip_forallb, forallb_rev, lstrip_forallb, H.
Qed.

Lemma lstrip_head_clean (space : ascii -> bool) (s : list ascii) :
  match Wire.lstrip space s with [] => True | c :: _ => space c = false end.
Proof.
  induction s as [|c s IH]; cbn; [exact I|].
  destruct (space c) eqn:E; [exact IH | exact E].
Qed.

Lemma lstrip_idem_head (space : ascii -> bool) (s : list ascii) :
  match s with [] => True | c :: _ => space c = false end -> Wire.lstrip space s = s.
Proof. destruct s as [|c s]; [reflexivity|]. cbn. intros ->. reflexivity. Qed.

(** What [strip] returns has no white space at either end. *)
Lemma strip_ends (space : ascii -> bool) (s : list ascii) :
  match Wire.strip space s with [] => True | c :: _ => space c = false end /\
  match rev (Wire.strip space s) with [] => True | c :: _ => space c = false end.
Proof.
  unfold Wire.strip. rewrite rev_involutive. split; [|apply lstrip_head_clean].
  set (t := Wire.lstrip space s).
  pose proof (lstrip_head_clean space s) as Ht. fold t in Ht.
  destruct t as [|c t']; [exact I|].
  (* the first character of [t] survives the stripping of its end *)
  assert (Hl : exists u, Wire.lstrip space (rev (c :: t')) = u ++ [c]).
  { cbn [rev]. generalize (rev t'). intros r. induction r as [|x r IH]; cbn.
    - rewrite Ht. exists []. reflexivity.
    - destruct (space x); [exact IH|]. exists (x :: r). reflexivity. }
  destruct Hl as [u ->]. rewrite rev_app_distr. cbn. exact Ht.
Qed.

Lemma parse_list_tidy (text : string) :
  Forall (fun s => tidy s = true) (parse_list text).
Proof.
  unfold parse_list. apply Forall_map. apply Forall_forall. intros s Hin.
  apply list_elem_of_In, filter_In in Hin as [Hin Hne].
  apply in_map_iff in Hin as (p & <- & Hp).
  pose proof (split_comma_pieces (list_ascii_of_string text)) as Hall.
  rewrite Forall_forall in Hall. specialize (Hall p (proj2 (list_elem_of_In _ _) Hp)).
  unfold tidy. rewrite list_ascii_of_string_of_list_ascii.
  rewrite (strip_forallb Wire.is_space _ p Hall). cbn [andb].
  destruct (strip_ends Wire.is_space p) as [H1 H2].
  destruct (Wire.strip Wire.is_space p) as [|c l] eqn:E; [discriminate|].
  rewrite H1. cbn [negb andb].
  destruct (rev (c :: l)) as [|d r] eqn:Er.
  - exfalso. apply (f_equal (@length _)) in Er. rewrite length_rev in Er. discriminate.
  - rewrite H2. reflexivity.
Qed.

Lemma tidy_no_comma (s : string) :
  tidy s = true ->
  forallb (fun c => negb (is_comma c)) (list_ascii_of_string s) = true.
Proof.
  unfold tidy. intros H. apply andb_true_iff in H as [H _].
  apply andb_true_iff in H as [H _]. exact H.
Qed.

Lemma argument_round_trip (servers : list string) :
  servers <> [] -> Forall (fun s => tidy s = true) servers ->
  backends_of_argument (backend_argument servers) = servers.
Proof.
  intros Hne Hall. unfold backends_of_argument, backend_argument.
  rewrite list_ascii_of_string_of_list_ascii, split_join.
  - rewrite map_map. rewrite <- (map_id servers) at 2. apply map_ext.
    intros s. apply string_of_list_ascii_of_string.
  - destruct servers; [congruence | discriminate].
  - apply Forall_map. eapply Forall_impl; [exact Hall|]. intros s. apply tidy_no_comma.
Qed.

End ConfigFacts.

(** * The claims *)

Import Examples.


(** C1. A GET response that [cache_response] admits (status below 400,
    no [no-store]/[no-cache] in its [Cache-Control]) and stores (the
    store answers, the time to live is positive) is returned by
    [get_cached_response] for the same request at any time before the
    entry expires: same body bytes, same status code, same headers. *)
Theorem C1_cache_round_trip
    (E : env) (cfg : config) (url : string) (headers : list (string * string))
    (body : option bytes) (r : response) (w : world) :
  redis_up w = true ->
  0 < CACHE_EXPIRATION cfg ->
  200 <= resp_status_code r < 400 ->
  forbids_caching r = false ->
  Json.distinct (map fst (resp_headers r)) = true ->
  exists w1,
    cache_response E cfg "GET" url headers r body w = (Ok tt, w1) /\
    forall d, 0 <= d < CACHE_EXPIRATION cfg ->
      exists entry w2,
        get_cached_response E "GET" url headers body (advance d w1)
          = (Ok (Some (PDict entry)), w2) /\
        PyDict.get "content" entry = Some (PBytes (resp_content r)) /\
        PyDict.get "status_code" entry = Some (PInt (resp_status_code r)) /\
        PyDict.get "headers" entry = Some (PDict (headers_dict (resp_headers r))) /\
        PyDict.get "url" entry = Some (PStr (resp_url r)).
Proof.
  intros Hup Httl Hst Hcc Hdist.
  destruct (CacheFacts.generate_cache_key_total E "GET" url headers body) as [key Hkey].
  destruct (CacheFacts.cache_response_stores E cfg url headers body r w key
              Hkey Hup Httl ltac:(lia) Hcc) as (text & Hd & Hne & Hrun).
  eexists. split; [exact Hrun|].
  intros d Hd'. exists (restored r).
  unfold get_cached_response. cbn [String.eqb Ascii.eqb Bool.eqb negb].
  unfold mbind, M_bind. rewrite Hkey.
  unfold redis_get. cbn [redis_up advance set_store now store].
  rewrite Hup. unfold Redis.get, Redis.lookup. rewrite lookup_insert_eq.
  unfold Redis.live. cbn [Redis.expires Redis.value].
  replace (now w + d <? now w + CACHE_EXPIRATION cfg) with true
    by (symmetry; apply Z.ltb_lt; lia).
  rewrite Hne, HandlerFacts.increment_run. cbn [snd].
  rewrite (JsonFacts.loads_dumps _ _ (CacheFacts.jsonable_cache_data r Hdist) Hd).
  rewrite CacheFacts.restore_cache_data.
  eexists. repeat split.
Qed.

Lemma C1_cache_round_trip_witness :
  redis_up w_conn = true /\
  0 < CACHE_EXPIRATION DEFAULT_CONFIG /\
  200 <= resp_status_code r_text < 400 /\
  forbids_caching r_text = false /\
  Json.distinct (map fst (resp_headers r_text)) = true /\
  exists w1,
    cache_response E_hello DEFAULT_CONFIG "GET" "/x" [] r_text None w_conn = (Ok tt, w1) /\
    forall d, 0 <= d < CACHE_EXPIRATION DEFAULT_CONFIG ->
      exists entry w2,
        get_cached_response E_hello "GET" "/x" [] None (advance d w1)
          = (Ok (Some (PDict entry)), w2) /\
        PyDict.get "content" entry = Some (PBytes (resp_content r_text)) /\
        PyDict.get "status_code" entry = Some (PInt (resp_status_code r_text)) /\
        PyDict.get "headers" entry = Some (PDict (headers_dict (resp_headers r_text))) /\
        PyDict.get "url" entry = Some (PStr (resp_url r_text)).
Proof.
  assert (H1 : redis_up w_conn = true) by reflexivity.
  assert (H2 : 0 < CACHE_EXPIRATION DEFAULT_CONFIG) by reflexivity.
  assert (H3 : 200 <= resp_status_code r_text < 400) by (cbn; lia).
  assert (H4 : forbids_caching r_text = false) by reflexivity.
  assert (H5 : Json.distinct (map fst (resp_headers r_text)) = true) by reflexivity.
  repeat (split; [assumption|]).
  exact (C1_cache_round_trip E_hello DEFAULT_CONFIG "/x" [] None r_text w_conn H1 H2 H3 H4 H5).
Defined.

(** C2, as stated, fails: with the denylist entry [stats] the request for
    [/proxy-stats] is classified FILTERED and answered 403. *)
Lemma C2_stats_endpoint_filtered :
  classify E_hello cfg_filter_stats "GET" "/proxy-stats" [] None (counted "GET" w_conn)
    = (Ok FILTERED, counted "GET" w_conn) /\
  sent <$> sockets (snd (_handle_client_request E_hello cfg_filter_stats 1%nat
                           (ReadRequest "GET" "/proxy-stats" [] None) w_conn)) !! 1%nat
    = Some [error_response 403 "Forbidden"].
Proof. split; vm_compute; reflexivity. Qed.

(** C2, amended. The filter is consulted first.  A request for
    [/proxy-stats] is classified FILTERED and answered 403 when a
    denylist entry occurs in that target, and otherwise classified STATS
    and answered with the 200 statistics reply; no entry of the default
    denylist occurs in it. *)
Theorem C2_stats_endpoint_after_filter
    (E : env) (cfg : config) (c : nat) (method : string)
    (headers : list (string * string)) (body : option bytes) (w : world) (s : socket) :
  sockets w !! c = Some s -> peer_open s = true -> closed s = false ->
  let filtered :=
    RequestFilter.should_filter (REQUEST_FILTERS cfg) "/proxy-stats" headers in
  let w1 := counted method w in
  let w' := snd (_handle_client_request E cfg c
                   (ReadRequest method "/proxy-stats" headers body) w) in
  classify E cfg method "/proxy-stats" headers body w1
    = (Ok (if filtered then FILTERED else STATS), w1) /\
  sockets w' !! c =
    Some {| peer_open := true;
            sent := sent s ++
                    [if filtered then error_response 403 "Forbidden"
                     else stats_response
                            (render_stats E (stats w1) (request_methods w1) (now w))];
            closed := true |} /\
  RequestFilter.should_filter (REQUEST_FILTERS DEFAULT_CONFIG) "/proxy-stats" headers = false.
Proof.
  intros Hs Hp Hc filtered w1 w'.
  assert (Hcl : classify E cfg method "/proxy-stats" headers body w1
                = (Ok (if filtered then FILTERED else STATS), w1)).
  { unfold classify. fold filtered. destruct filtered; reflexivity. }
  split; [exact Hcl|]. split; [|reflexivity].
  assert (Hs1 : sockets w1 !! c = Some s)
    by (unfold w1; rewrite ReplyFacts.counted_sockets; exact Hs).
  subst w'. rewrite HandlerFacts.handler_run. unfold try_except.
  rewrite HandlerFacts.handle_request_run. fold w1. rewrite Hcl.
  destruct filtered; cbn [dispatch].
  - unfold mbind, M_bind, logger, _send_error_response, try_except.
    rewrite (ReplyFacts.sendall_open c _ (set_log _ w1) s Hs1 Hp Hc). cbn [snd].
    erewrite ReplyFacts.handler_finally_socket; [|apply lookup_insert_eq]. reflexivity.
  - unfold _handle_stats_request.
    rewrite (ReplyFacts.sendall_open c _ _ s Hs1 Hp Hc). cbn [snd].
    erewrite ReplyFacts.handler_finally_socket; [|apply lookup_insert_eq].
    unfold w1. rewrite ReplyFacts.counted_now. reflexivity.
Qed.

Lemma C2_stats_endpoint_after_filter_witness :
  sockets w_conn !! 1%nat = Some fresh_socket /\
  peer_open fresh_socket = true /\ closed fresh_socket = false /\
  classify E_hello DEFAULT_CONFIG "GET" "/proxy-stats" [] None (counted "GET" w_conn)
    = (Ok STATS, counted "GET" w_conn) /\
  sockets (snd (_handle_client_request E_hello DEFAULT_CONFIG 1%nat
                  (ReadRequest "GET" "/proxy-stats" [] None) w_conn)) !! 1%nat =
    Some {| peer_open := true;
            sent := [stats_response
                       (render_stats E_hello (stats (counted "GET" w_conn))
                          (request_methods (counted "GET" w_conn)) (now w_conn))];
            closed := true |}.
Proof.
  assert (H1 : sockets w_conn !! 1%nat = Some fresh_socket) by reflexivity.
  assert (H2 : peer_open fresh_socket = true) by reflexivity.
  assert (H3 : closed fresh_socket = false) by reflexivity.
  repeat (split; [assumption|]).
  pose proof (C2_stats_endpoint_after_filter E_hello DEFAULT_CONFIG 1%nat "GET" [] None
                w_conn fresh_socket H1 H2 H3) as (Ha & Hb & _).
  split; [exact Ha | exact Hb].
Defined.

(** C3 at the failing input: the client sends [Accept-Encoding: gzip],
    the origin answers 2000 bytes of [text/html], compression is enabled;
    the reply carries the 2000 bytes as they are, with no
    [Content-Encoding]. *)
Theorem C3_request_accept_encoding_ignored :
  sent <$> sockets (snd (_handle_client_request E_page DEFAULT_CONFIG 1%nat
                           (ReadRequest "GET" "/page" [("Accept-Encoding", "gzip")] None)
                           w_conn)) !! 1%nat
    = Some [encode_utf8
              (String.append "HTTP/1.1 200 ok"
              (String.append crlf (String.append "Content-Type: text/html"
              (String.append crlf (String.append "Content-Length: 2000"
              (String.append crlf crlf))))))
            ++ page].
Proof. vm_compute. reflexivity. Qed.

(** C4 at the failing input: limit 2 per 60 seconds, three connections
    from one client within the same second.  The third is not reported
    limited: all three are queued, the third socket stays open and
    [rate_limited_requests] stays at 0.  With the default limit of 100
    per 60 seconds, a burst of 500 connections in one second is not
    limited either. *)
Theorem C4_same_second_requests_never_limited :
  fst (is_rate_limited cfg_limit_2 client
         (accept_burst cfg_limit_2 2 0 (initial_world 1000))) = Ok false /\
  request_queue (accept_burst cfg_limit_2 3 0 (initial_world 1000))
    = [(1%nat, client); (2%nat, client); (3%nat, client)] /\
  stats (accept_burst cfg_limit_2 3 0 (initial_world 1000)) !! "rate_limited_requests"
    = Some 0 /\
  closed <$> sockets (accept_burst cfg_limit_2 3 0 (initial_world 1000)) !! 3%nat
    = Some false /\
  stats (accept_burst DEFAULT_CONFIG 500 0 (initial_world 1000)) !! "rate_limited_requests"
    = Some 0.
Proof. vm_compute. repeat split. Qed.

(** C5 at the failing input: the origin answers [GET /x] with status 200
    and the header [cache-control: no-store], the name in lower case as
    the origin sent it (or with [Cache-Control: No-Store]).
    [cache_response] reads the header under the one spelling
    [Cache-Control] and looks for the directive in lower case only, so
    the test that is there to keep such a response out of the cache does
    not see it: the response is written to the store for
    [CACHE_EXPIRATION] seconds, and the next [GET /x] is answered from
    that entry, a cache hit, without the origin being asked again.
    [_generate_cache_key] folds header names to lower case before it
    compares them; [cache_response] does not. *)
Theorem C5_no_store_response_is_cached :
  PyDict.get "cache-control" (resp_headers r_lower_name) = Some "no-store" /\
  Redis.expires <$>
    Redis.lookup 1000 (key_of E_hello "GET" "/x" [] None)
      (store (snd (cache_response E_hello DEFAULT_CONFIG "GET" "/x" []
                     r_lower_name None w_conn))) = Some (Some 1300) /\
  PyDict.get "Cache-Control" (resp_headers r_capitals) = Some "No-Store" /\
  Redis.expires <$>
    Redis.lookup 1000 (key_of E_hello "GET" "/x" [] None)
      (store (snd (cache_response E_hello DEFAULT_CONFIG "GET" "/x" []
                     r_capitals None w_conn))) = Some (Some 1300) /\
  Redis.expires <$>
    Redis.lookup 1000 (key_of E_no_store "GET" "/x" [] None) (store w_first_get)
    = Some (Some 1300) /\
  stats w_first_get !! "cache_hits" = Some 0 /\
  stats w_first_get !! "requests_success" = Some 1 /\
  stats w_second_get !! "cache_hits" = Some 1 /\
  stats w_second_get !! "requests_success" = Some 1 /\
  sent <$> sockets w_second_get !! 2%nat = sent <$> sockets w_first_get !! 1%nat.
Proof. vm_compute. repeat split. Qed.

(** Under the spelling that [cache_response] tests, the code keeps such a
    response out of the cache: a response whose headers have an entry
    named [Cache-Control] with [no-store] or [no-cache] inside its value,
    in these very letters, leaves the store and the rest of the world
    untouched; a response whose [Cache-Control] is [max-age=0] is written
    under the request's key. *)
Lemma exact_no_store_no_cache
    (E : env) (cfg : config) (method url : string) (headers : list (string * string))
    (body : option bytes) (r1 r2 : response) (w : world) :
  forbids_caching r1 = true ->
  PyDict.get "Cache-Control" (resp_headers r2) = Some "max-age=0" ->
  resp_status_code r2 < 400 -> redis_up w = true -> 0 < CACHE_EXPIRATION cfg ->
  snd (cache_response E cfg method url headers r1 body w) = w /\
  exists key text,
    (forall w0, _generate_cache_key E "GET" url headers body w0 = (Ok key, w0)) /\
    store (snd (cache_response E cfg "GET" url headers r2 body w)) =
      <[key := {| Redis.value := Redis.RString text;
                  Redis.expires := Some (now w + CACHE_EXPIRATION cfg) |}]> (store w).
Proof.
  intros H1 H2 Hst Hup Httl. split.
  - unfold cache_response. destruct (negb _); [reflexivity|].
    destruct (CacheFacts.generate_cache_key_total E method url headers body) as [key Hkey].
    unfold mbind, M_bind. rewrite Hkey.
    destruct (400 <=? _); [reflexivity|].
    unfold forbids_caching in H1. rewrite H1. reflexivity.
  - destruct (CacheFacts.generate_cache_key_total E "GET" url headers body) as [key Hkey].
    assert (Hcc : forbids_caching r2 = false)
      by (unfold forbids_caching; rewrite H2; reflexivity).
    destruct (CacheFacts.cache_response_stores E cfg url headers body r2 w key
                Hkey Hup Httl Hst Hcc) as (text & _ & _ & Hrun).
    exists key, text. split; [exact Hkey|]. rewrite Hrun. reflexivity.
Qed.

Lemma exact_no_store_no_cache_example :
  snd (cache_response E_hello DEFAULT_CONFIG "GET" "/x" [] r_no_store None w_conn) = w_conn /\
  exists key text,
    (forall w0, _generate_cache_key E_hello "GET" "/x" [] None w0 = (Ok key, w0)) /\
    store (snd (cache_response E_hello DEFAULT_CONFIG "GET" "/x" [] r_max_age None w_conn)) =
      <[key := {| Redis.value := Redis.RString text;
                  Redis.expires := Some (now w_conn + CACHE_EXPIRATION DEFAULT_CONFIG) |}]>
        (store w_conn).
Proof.
  apply (exact_no_store_no_cache E_hello DEFAULT_CONFIG "GET" "/x" [] None
           r_no_store r_max_age w_conn); reflexivity.
Qed.

(** C6 at the failing input: the entry stored under the key of [GET /x]
    is not JSON.  One lookup returns nothing and increments [cache_hits]
    and [cache_misses] both. *)
Theorem C6_decode_failure_counts_hit_and_miss :
  fst (get_cached_response E_hello "GET" "/x" [] None w_corrupt) = Ok None /\
  stats w_corrupt !! "cache_hits" = Some 0 /\
  stats w_corrupt !! "cache_misses" = Some 0 /\
  stats (snd (get_cached_response E_hello "GET" "/x" [] None w_corrupt)) !! "cache_hits"
    = Some 1 /\
  stats (snd (get_cached_response E_hello "GET" "/x" [] None w_corrupt)) !! "cache_misses"
    = Some 1.
Proof. vm_compute. repeat split. Qed.

(** C7 at the failing input: the store is unreachable when a GET request
    looks its cache entry up, so the handler raises outside
    [_forward_request].  The client receives the 500 reply and
    [requests_error] stays at 0. *)
Theorem C7_handler_exception_not_counted :
  fst (get_cached_response E_hello "GET" "/x" [] None (counted "GET" w_down))
    = Raise RedisConnectionError /\
  sent <$> sockets (snd (_handle_client_request E_hello DEFAULT_CONFIG 1%nat get_x w_down))
             !! 1%nat
    = Some [error_response 500 "Internal Server Error"] /\
  stats (snd (_handle_client_request E_hello DEFAULT_CONFIG 1%nat get_x w_down))
    !! "requests_error" = Some 0.
Proof. vm_compute. repeat split. Qed.

(** C8, as stated, fails: with the store unreachable [is_rate_limited]
    raises, and the accepted connection is not queued. *)
Lemma C8_store_failure_not_fail_open :
  fst (is_rate_limited DEFAULT_CONFIG client w_unreachable) = Raise RedisConnectionError /\
  request_queue (snd (accept_step DEFAULT_CONFIG (Accepted 1%nat client) w_unreachable)) = [].
Proof. vm_compute. split; reflexivity. Qed.

(** C8, amended. [is_rate_limited] has no handler of its own: when a
    store command fails it raises, the accept loop catches the exception,
    logs an error and goes on; the connection is neither queued nor
    counted as rate limited. *)
Theorem C8_store_failure_reaches_accept_loop
    (cfg : config) (c : nat) (client_ip : string) (w w1 : world) (e : exn) :
  is_rate_limited cfg client_ip (snd (new_socket c w)) = (Raise e, w1) ->
  accept_step cfg (Accepted c client_ip) w =
    (Ok tt, set_log (log w1 ++ [(ERROR, "Error accepting connection")]) w1) /\
  request_queue w1 = request_queue w /\
  stats w1 = stats w /\
  log w1 = log w.
Proof.
  intros H.
  destruct (AcceptFacts.is_rate_limited_frame _ _ _ _ _ H) as ([db ->] & He).
  split; [|repeat split].
  unfold accept_step, try_except, mbind, M_bind.
  change (new_socket c w) with (Ok tt, snd (new_socket c w)). cbv beta iota.
  rewrite H. destruct (He e eq_refl) as [-> | ->]; reflexivity.
Qed.

Lemma C8_store_failure_reaches_accept_loop_witness :
  is_rate_limited DEFAULT_CONFIG client (snd (new_socket 1%nat w_unreachable))
    = (Raise RedisConnectionError, snd (new_socket 1%nat w_unreachable)) /\
  accept_step DEFAULT_CONFIG (Accepted 1%nat client) w_unreachable =
    (Ok tt, set_log (log (snd (new_socket 1%nat w_unreachable))
                     ++ [(ERROR, "Error accepting connection")])
              (snd (new_socket 1%nat w_unreachable))) /\
  request_queue (snd (new_socket 1%nat w_unreachable)) = request_queue w_unreachable /\
  stats (snd (new_socket 1%nat w_unreachable)) = stats w_unreachable /\
  log (snd (new_socket 1%nat w_unreachable)) = log w_unreachable.
Proof.
  assert (H : is_rate_limited DEFAULT_CONFIG client (snd (new_socket 1%nat w_unreachable))
              = (Raise RedisConnectionError, snd (new_socket 1%nat w_unreachable)))
    by reflexivity.
  split; [exact H|].
  exact (C8_store_failure_reaches_accept_loop DEFAULT_CONFIG 1%nat client w_unreachable
           (snd (new_socket 1%nat w_unreachable)) RedisConnectionError H).
Defined.

(** C9. A request served from the cache (state CACHED) or by the stats
    endpoint (state STATS) changes neither [requests_success] nor
    [bytes_transferred]. *)
Theorem C9_success_counters_only_move_on_forward
    (E : env) (cfg : config) (c : nat) (method path : string)
    (headers : list (string * string)) (body : option bytes)
    (w w2 : world) (branch : classification) :
  classify E cfg method path headers body (counted method w) = (Ok branch, w2) ->
  (branch = STATS \/ exists cached, branch = CACHED cached) ->
  let w' := snd (_handle_client_request E cfg c (ReadRequest method path headers body) w) in
  stats w' !! "requests_success" = stats w !! "requests_success" /\
  stats w' !! "bytes_transferred" = stats w !! "bytes_transferred".
Proof.
  intros Hc Hb w'.
  assert (H : success_counters w' = success_counters w);
    [|unfold success_counters in H; injection H; auto].
  assert (H2 : success_counters w2 = success_counters w).
  { rewrite <- (SuccessCounters.keep_counted method w).
    pose proof (SuccessCounters.keep_classify E cfg method path headers body (counted method w)) as K.
    rewrite Hc in K. exact K. }
  subst w'. rewrite HandlerFacts.handler_run. unfold try_except.
  rewrite HandlerFacts.handle_request_run, Hc.
  assert (Hd : preserves success_counters
                 (dispatch E cfg c method path headers body branch)).
  { destruct Hb as [-> | [cached ->]]; cbn [dispatch].
    - apply SuccessCounters.keep_handle_stats.
    - apply SuccessCounters.keep_send_response. }
  specialize (Hd w2).
  destruct (dispatch E cfg c method path headers body branch w2) as [[[]|e] w3]; cbn [snd] in *.
  - rewrite SuccessCounters.keep_handler_finally. congruence.
  - pose proof (SuccessCounters.keep_handler_except c e w3) as He.
    destruct (handler_except c e w3) as [r4 w4]. cbn [snd] in *.
    rewrite SuccessCounters.keep_handler_finally. congruence.
Qed.

Lemma C9_success_counters_witness :
  classify E_hello DEFAULT_CONFIG "GET" "/x" [] None (counted "GET" w_cached)
    = (Ok (CACHED (PDict (restored r_text))),
       snd (classify E_hello DEFAULT_CONFIG "GET" "/x" [] None (counted "GET" w_cached))) /\
  (CACHED (PDict (restored r_text)) = STATS \/
   exists v, CACHED (PDict (restored r_text)) = CACHED v) /\
  stats (snd (_handle_client_request E_hello DEFAULT_CONFIG 2%nat get_x w_cached))
    !! "requests_success" = stats w_cached !! "requests_success" /\
  stats (snd (_handle_client_request E_hello DEFAULT_CONFIG 2%nat get_x w_cached))
    !! "bytes_transferred" = stats w_cached !! "bytes_transferred".
Proof.
  assert (H1 : classify E_hello DEFAULT_CONFIG "GET" "/x" [] None (counted "GET" w_cached)
               = (Ok (CACHED (PDict (restored r_text))),
                  snd (classify E_hello DEFAULT_CONFIG "GET" "/x" [] None
                         (counted "GET" w_cached))))
    by (vm_compute; reflexivity).
  assert (H2 : CACHED (PDict (restored r_text)) = STATS \/
               exists v, CACHED (PDict (restored r_text)) = CACHED v)
    by (right; exists (PDict (restored r_text)); reflexivity).
  split; [exact H1|]. split; [exact H2|].
  exact (C9_success_counters_only_move_on_forward E_hello DEFAULT_CONFIG 2%nat "GET" "/x"
           [] None w_cached _ (CACHED (PDict (restored r_text))) H1 H2).
Defined.

(** C10. [invalidate_cache] without a pattern removes every key that the
    store holds, the sliding windows [rate_limit:<client_ip>] of the rate
    limiter among them: afterwards no key at all can be read, and nothing
    but the store has changed. *)
Theorem C10_invalidate_all_deletes_every_key (w : world) :
  redis_up w = true ->
  exists w',
    invalidate_cache None w = (Ok tt, w') /\
    (forall k, Redis.lookup (now w') k (store w') = None) /\
    (forall client_ip, Redis.lookup (now w') (rate_limit_key client_ip) (store w') = None) /\
    Redis.scan (now w') (store w') = [] /\
    stats w' = stats w /\ now w' = now w.
Proof.
  intros Hup. eexists. split.
  - unfold invalidate_cache, mbind, M_bind, redis_scan. rewrite Hup.
    apply StoreFacts.for_each_delete, Hup.
  - assert (H : forall k, Redis.lookup (now w) k
                   (Redis.delete_all (Redis.scan (now w) (store w)) (store w)) = None)
      by (intros k; apply StoreFacts.lookup_after_delete_scan).
    cbn. repeat split; auto. apply StoreFacts.scan_nil, H.
Qed.

Lemma C10_invalidate_all_witness :
  redis_up w_busy = true /\
  Redis.lookup (now w_busy) (rate_limit_key client) (store w_busy) <> None /\
  exists w',
    invalidate_cache None w_busy = (Ok tt, w') /\
    (forall k, Redis.lookup (now w') k (store w') = None) /\
    (forall client_ip, Redis.lookup (now w') (rate_limit_key client_ip) (store w') = None) /\
    Redis.scan (now w') (store w') = [] /\
    stats w' = stats w_busy /\ now w' = now w_busy.
Proof.
  assert (H : redis_up w_busy = true) by reflexivity.
  split; [exact H|]. split; [vm_compute; discriminate|].
  exact (C10_invalidate_all_deletes_every_key w_busy H).
Defined.

(** * Further properties of the code *)

Import Fixtures.

(** X1: [is_rate_limited] writes no key
    but the caller's own [rate_limit:<client_ip>]: every other key of the
    store, the windows of the other clients and the cache entries
    included, holds after the call what it held before, and so do the
    counters, the queue, the sockets and the log. *)
Theorem limiter_writes_own_key_only (cfg : config) (client_ip : string) (w : world)
    (k : string) :
  k <> rate_limit_key client_ip ->
  store (snd (is_rate_limited cfg client_ip w)) !! k = store w !! k /\
  stats (snd (is_rate_limited cfg client_ip w)) = stats w /\
  request_queue (snd (is_rate_limited cfg client_ip w)) = request_queue w /\
  sockets (snd (is_rate_limited cfg client_ip w)) = sockets w /\
  log (snd (is_rate_limited cfg client_ip w)) = log w.
Proof.
  intros Hk.
  destruct (LimiterFrame.is_rate_limited_rest cfg client_ip w)
    as (_ & _ & Hs & _ & Hk' & Hq & Hl).
  split; [apply LimiterFrame.is_rate_limited_other; exact Hk|].
  repeat split; assumption.
Qed.

Lemma limiter_writes_own_key_only_witness :
  store (snd (is_rate_limited cfg_limit_2 client w_two_seen)) !! rate_limit_key other_client
    = store w_two_seen !! rate_limit_key other_client /\
  stats (snd (is_rate_limited cfg_limit_2 client w_two_seen)) = stats w_two_seen /\
  request_queue (snd (is_rate_limited cfg_limit_2 client w_two_seen))
    = request_queue w_two_seen /\
  sockets (snd (is_rate_limited cfg_limit_2 client w_two_seen)) = sockets w_two_seen /\
  log (snd (is_rate_limited cfg_limit_2 client w_two_seen)) = log w_two_seen.
Proof.
  apply (limiter_writes_own_key_only cfg_limit_2 client w_two_seen
           (rate_limit_key other_client)).
  discriminate.
Defined.

(** X2: a client who connects in
    distinct seconds, all within one window of a fresh server, has its
    first [RATE_LIMIT_REQUESTS] connections queued and every later one
    refused and counted in [rate_limited_requests]: the refused attempts
    stay in the window and count against the client too. *)
Theorem limiter_counts_distinct_seconds (cfg : config) (client_ip : string) (t0 : Z)
    (n : nat) (arrivals : list (Z * nat * string)) :
  0 < RATE_LIMIT_WINDOW cfg -> RATE_LIMIT_REQUESTS cfg = Z.of_nat n ->
  spaced_from client_ip arrivals -> span arrivals <= RATE_LIMIT_WINDOW cfg ->
  rate_limited_requests (accept_all cfg arrivals (initial_world t0))
    = Some (Z.of_nat (length arrivals - n)) /\
  request_queue (accept_all cfg arrivals (initial_world t0))
    = map (fun a => (a.1.2, a.2)) (take n arrivals).
Proof.
  intros HW HN Hsp Hspan.
  destruct (LimiterRuns.accept_all_seen cfg client_ip t0 n arrivals HW HN Hsp
              0%nat (initial_world t0) 0) as [Hr Hq].
  - reflexivity.
  - cbn. lia.
  - cbn. lia.
  - apply LimiterRuns.seen_initial.
  - reflexivity.
  - rewrite Hr, Hq. rewrite Nat.sub_0_r. split; reflexivity.
Qed.

Lemma limiter_counts_distinct_seconds_witness :
  rate_limited_requests (accept_all cfg_limit_2 three_apart (initial_world 1000))
    = Some (Z.of_nat (length three_apart - 2)) /\
  request_queue (accept_all cfg_limit_2 three_apart (initial_world 1000))
    = map (fun a => (a.1.2, a.2)) (take 2 three_apart).
Proof.
  apply (limiter_counts_distinct_seconds cfg_limit_2 client 1000 2 three_apart).
  - cbn. lia.
  - reflexivity.
  - repeat constructor; cbn; lia.
  - cbn. lia.
Defined.

(** X3: when [RATE_LIMIT_WINDOW] is
    not above [RATE_LIMIT_REQUESTS], as in the configuration that ships,
    the limiter of a fresh server refuses nobody: whatever the clients
    and however many connections arrive in a second, every one of them
    is queued, in order, and [rate_limited_requests] stays at 0. *)
Theorem limiter_idle_when_window_le_limit (cfg : config) (t0 : Z)
    (arrivals : list (Z * nat * string)) :
  0 < RATE_LIMIT_WINDOW cfg <= RATE_LIMIT_REQUESTS cfg ->
  0 <= t0 -> Forall (fun a => 0 <= a.1.1) arrivals ->
  rate_limited_requests (accept_all cfg arrivals (initial_world t0)) = Some 0 /\
  request_queue (accept_all cfg arrivals (initial_world t0))
    = map (fun a => (a.1.2, a.2)) arrivals.
Proof.
  intros HW Ht0 Hd.
  exact (RateLimiterFacts.limiter_never_fires cfg arrivals (initial_world t0) HW Hd
           eq_refl Ht0 (RateLimiterFacts.initial_limiter_store t0)).
Qed.

Lemma limiter_idle_when_window_le_limit_witness :
  rate_limited_requests (accept_all DEFAULT_CONFIG three_at_once (initial_world 1000)) = Some 0 /\
  request_queue (accept_all DEFAULT_CONFIG three_at_once (initial_world 1000))
    = map (fun a => (a.1.2, a.2)) three_at_once.
Proof.
  apply (limiter_idle_when_window_le_limit DEFAULT_CONFIG 1000 three_at_once).
  - cbn. lia.
  - lia.
  - repeat constructor; cbn; lia.
Defined.

(** X4: the window of a client lives
    [RATE_LIMIT_WINDOW] seconds past its last connection.  A client who
    stays away that long finds its window gone, and its next connection
    counts as its first. *)
Theorem limiter_forgets_idle_client (cfg : config) (client_ip : string) (w : world) (d : Z) :
  redis_up w = true -> 0 < RATE_LIMIT_WINDOW cfg ->
  not_a_string (now w) (rate_limit_key client_ip) (store w) ->
  RATE_LIMIT_WINDOW cfg <= d ->
  Redis.lookup (now w + d) (rate_limit_key client_ip)
    (store (snd (is_rate_limited cfg client_ip w))) = None /\
  fst (is_rate_limited cfg client_ip (advance d (snd (is_rate_limited cfg client_ip w))))
    = Ok (RATE_LIMIT_REQUESTS cfg <? 1).
Proof.
  intros Hup HW Hns Hd.
  rewrite (RateLimiterFacts.is_rate_limited_run cfg client_ip w Hup HW Hns).
  cbn [snd store set_store].
  assert (Hgone : forall z,
            Redis.lookup (now w + d) (rate_limit_key client_ip)
              (<[rate_limit_key client_ip :=
                   {| Redis.value := Redis.RZSet z;
                      Redis.expires := Some (now w + RATE_LIMIT_WINDOW cfg) |}]> (store w))
            = None).
  { intros z. unfold Redis.lookup. rewrite lookup_insert_eq. unfold Redis.live. cbn.
    assert (Hl : (now w + d <? now w + RATE_LIMIT_WINDOW cfg) = false) by (apply Z.ltb_ge; lia).
    rewrite Hl. reflexivity. }
  split; [apply Hgone|].
  rewrite RateLimiterFacts.is_rate_limited_run.
  - cbn [fst now store advance set_store]. unfold window. rewrite Hgone.
    unfold trimmed. rewrite map_filter_empty.
    rewrite map_size_insert_None by apply lookup_empty. rewrite map_size_empty. reflexivity.
  - exact Hup.
  - exact HW.
  - intros s ex. cbn [now store advance set_store]. rewrite Hgone. discriminate.
Qed.

Lemma limiter_forgets_idle_client_witness :
  Redis.lookup (now w_two_seen + 60) (rate_limit_key client)
    (store (snd (is_rate_limited cfg_limit_2 client w_two_seen))) = None /\
  fst (is_rate_limited cfg_limit_2 client
         (advance 60 (snd (is_rate_limited cfg_limit_2 client w_two_seen))))
    = Ok (RATE_LIMIT_REQUESTS cfg_limit_2 <? 1).
Proof.
  apply (limiter_forgets_idle_client cfg_limit_2 client w_two_seen 60).
  - reflexivity.
  - cbn. lia.
  - intros s ex. vm_compute. discriminate.
  - cbn. lia.
Defined.

(** X5: a connection that the limiter
    reports limited is closed with nothing written to it and is not
    queued; [rate_limited_requests] goes up by one, and
    [active_connections] does not move. *)
Theorem limited_connection_is_dropped (cfg : config) (c : nat) (client_ip : string)
    (w w1 : world) (r : Z) :
  is_rate_limited cfg client_ip (snd (new_socket c w)) = (Ok true, w1) ->
  stats w !! "rate_limited_requests" = Some r ->
  fst (accept_step cfg (Accepted c client_ip) w) = Ok tt /\
  sockets (snd (accept_step cfg (Accepted c client_ip) w)) !! c
    = Some {| peer_open := true; sent := []; closed := true |} /\
  request_queue (snd (accept_step cfg (Accepted c client_ip) w)) = request_queue w /\
  stats (snd (accept_step cfg (Accepted c client_ip) w))
    = <["rate_limited_requests" := r + 1]> (stats w).
Proof.
  intros Hrun Hr.
  destruct (LimiterRuns.is_rate_limited_keeps _ _ _ _ _ Hrun) as (Hn & Hu & Hs & Hq & Hk & Hl).
  rewrite (LimiterRuns.accept_step_answered _ _ _ _ _ _ Hrun).
  cbn in Hs, Hq, Hk.
  unfold mbind, M_bind, logger, Statistics.increment. cbn.
  rewrite Hs, Hr. cbn.
  unfold close. cbn. rewrite Hk, lookup_insert_eq. cbn.
  rewrite lookup_insert_eq.
  split; [reflexivity|]. split; [reflexivity|]. split; [exact Hq | reflexivity].
Qed.

Lemma limited_connection_is_dropped_witness :
  fst (accept_step cfg_limit_2 (Accepted 3%nat client) w_two_seen) = Ok tt /\
  sockets (snd (accept_step cfg_limit_2 (Accepted 3%nat client) w_two_seen)) !! 3%nat
    = Some {| peer_open := true; sent := []; closed := true |} /\
  request_queue (snd (accept_step cfg_limit_2 (Accepted 3%nat client) w_two_seen))
    = request_queue w_two_seen /\
  stats (snd (accept_step cfg_limit_2 (Accepted 3%nat client) w_two_seen))
    = <["rate_limited_requests" := 0 + 1]> (stats w_two_seen).
Proof.
  apply (limited_connection_is_dropped cfg_limit_2 3%nat client w_two_seen
           (snd (is_rate_limited cfg_limit_2 client (snd (new_socket 3%nat w_two_seen)))) 0).
  - vm_compute. reflexivity.
  - reflexivity.
Defined.

(** X6: the cache key of a request depends on its
    headers only through [Accept], [Accept-Language] and
    [Accept-Encoding], whose names are compared without regard to case:
    any other header, [Cookie] or [Authorization] included, can be added
    or dropped without changing the key, and so can the capitals of a
    header name.  For a GET request the body does not enter the key
    either. *)
Theorem cache_key_ignores (E : env) (method url : string) (h1 h2 : list (string * string))
    (k v : string) (body : option bytes) :
  (relevant_header (PyStr.lower k) = false ->
   _generate_cache_key E method url (h1 ++ (k, v) :: h2) body
     = _generate_cache_key E method url (h1 ++ h2) body) /\
  _generate_cache_key E method url (h1 ++ (k, v) :: h2) body
    = _generate_cache_key E method url (h1 ++ (PyStr.lower k, v) :: h2) body /\
  _generate_cache_key E "GET" url h1 body = _generate_cache_key E "GET" url h1 None.
Proof.
  split; [|split].
  - intros Hk. unfold _generate_cache_key.
    rewrite (CacheKeyFacts.cache_headers_skip h1 h2 k v Hk). reflexivity.
  - unfold _generate_cache_key. rewrite (CacheKeyFacts.cache_headers_case h1 h2 k v).
    reflexivity.
  - unfold _generate_cache_key. destruct body; reflexivity.
Qed.

(** X7: an entry written by [cache_response]
    lives [CACHE_EXPIRATION] seconds.  From then on the same request
    finds nothing: [get_cached_response] returns [None], increments
    [cache_misses] by one and leaves [cache_hits] and every other
    counter alone. *)
Theorem cached_entry_expires (E : env) (cfg : config) (url : string)
    (headers : list (string * string)) (body : option bytes) (r : response)
    (w : world) (d m : Z) :
  redis_up w = true -> 0 < CACHE_EXPIRATION cfg ->
  resp_status_code r < 400 -> forbids_caching r = false ->
  CACHE_EXPIRATION cfg <= d ->
  stats w !! "cache_misses" = Some m ->
  exists w1 w2,
    cache_response E cfg "GET" url headers r body w = (Ok tt, w1) /\
    get_cached_response E "GET" url headers body (advance d w1) = (Ok None, w2) /\
    stats w2 = <["cache_misses" := m + 1]> (stats w).
Proof.
  intros Hup Httl Hst Hcc Hd Hm.
  destruct (CacheFacts.generate_cache_key_total E "GET" url headers body) as [key Hkey].
  destruct (CacheFacts.cache_response_stores E cfg url headers body r w key Hkey Hup Httl Hst Hcc)
    as (text & _ & _ & Hput).
  eexists. eexists. split; [exact Hput|].
  unfold get_cached_response. cbn [String.eqb Ascii.eqb Bool.eqb negb].
  unfold mbind, M_bind. rewrite Hkey.
  unfold redis_get. cbn [redis_up advance set_store]. rewrite Hup.
  unfold Redis.get, Redis.lookup. cbn [store advance set_store now].
  rewrite lookup_insert_eq. unfold Redis.live. cbn [Redis.expires].
  replace (now w + d <? now w + CACHE_EXPIRATION cfg) with false
    by (symmetry; apply Z.ltb_ge; lia).
  unfold Statistics.increment. cbn. rewrite Hm. cbn. split; reflexivity.
Qed.

Lemma cached_entry_expires_witness :
  exists w1 w2,
    cache_response E_hello DEFAULT_CONFIG "GET" "/x" [] r_text None w_conn = (Ok tt, w1) /\
    get_cached_response E_hello "GET" "/x" [] None (advance 300 w1) = (Ok None, w2) /\
    stats w2 = <["cache_misses" := 0 + 1]> (stats w_conn).
Proof.
  apply (cached_entry_expires E_hello DEFAULT_CONFIG "/x" [] None r_text w_conn 300 0).
  - reflexivity.
  - cbn. lia.
  - cbn. lia.
  - reflexivity.
  - cbn. lia.
  - reflexivity.
Defined.

(** X8: on a store that holds cache
    entries only, [invalidate_cache] with a pattern deletes the entries
    whose recorded url contains the pattern and no other: every such key
    is gone afterwards, every other key reads as before, and nothing
    but the store has changed. *)
Theorem invalidate_pattern_is_selective (p : string) (w : world) :
  redis_up w = true -> PyStr.nonempty p = true -> cache_entries_only w ->
  exists db,
    invalidate_cache (Some p) w = (Ok tt, set_store db w) /\
    forall k,
      Redis.lookup (now w) k db =
        if url_matches p (now w) (store w) k then None
        else Redis.lookup (now w) k (store w).
Proof.
  intros Hup Hp Hall.
  exists (Redis.delete_all
            (List.filter (url_matches p (now w) (store w)) (Redis.scan (now w) (store w)))
            (store w)).
  split.
  - unfold invalidate_cache. rewrite Hp. unfold mbind, M_bind, redis_scan. rewrite Hup.
    apply InvalidateFacts.for_each_invalidate; [apply InvalidateFacts.NoDup_scan | exact Hup |].
    intros k Hin. apply StoreFacts.elem_of_scan in Hin as (e & He & Hlive).
    apply (Hall k e). unfold Redis.lookup. rewrite He, Hlive. reflexivity.
  - intros k. unfold Redis.lookup at 1. rewrite StoreFacts.lookup_delete_all.
    destruct (url_matches p (now w) (store w) k) eqn:Hm.
    + rewrite decide_True; [reflexivity|].
      apply list_elem_of_In, filter_In. split; [|exact Hm].
      apply list_elem_of_In, StoreFacts.elem_of_scan.
      unfold url_matches, entry_url, Redis.lookup in Hm.
      destruct (store w !! k) as [e|]; [|discriminate].
      destruct (Redis.live (now w) e) eqn:El; [|discriminate]. eauto.
    + rewrite decide_False; [reflexivity|].
      intros Hin. apply list_elem_of_In, filter_In in Hin as [_ Hm']. congruence.
Qed.

Lemma invalidate_pattern_is_selective_witness :
  exists db,
    invalidate_cache (Some "/x") w_two_entries = (Ok tt, set_store db w_two_entries) /\
    forall k,
      Redis.lookup (now w_two_entries) k db =
        if url_matches "/x" (now w_two_entries) (store w_two_entries) k then None
        else Redis.lookup (now w_two_entries) k (store w_two_entries).
Proof.
  apply (invalidate_pattern_is_selective "/x" w_two_entries).
  - reflexivity.
  - reflexivity.
  - intros k e Hl. unfold Redis.lookup in Hl.
    destruct (store w_two_entries !! k) as [e'|] eqn:Ek; [|discriminate].
    assert (Hs : exists k1 e1 k2 e2,
               store w_two_entries = <[k2 := e2]> (<[k1 := e1]> ∅) /\
               entry_url (now w_two_entries) (store w_two_entries) k1
                 = Some "http://localhost:8000/x" /\
               entry_url (now w_two_entries) (store w_two_entries) k2
                 = Some "http://localhost:8000/y").
    { exists (key_of E_hello "GET" "/x" [] None).
      exists {| Redis.value :=
                  Redis.RString (default EmptyString (Json.dumps (PDict (cache_data r_text))));
                Redis.expires := Some 1300 |}.
      exists (key_of E_hello "GET" "/y" [] None).
      exists {| Redis.value :=
                  Redis.RString (default EmptyString (Json.dumps (PDict (cache_data r_y))));
                Redis.expires := Some 1300 |}.
      split; [vm_compute; reflexivity|]. split; vm_compute; reflexivity. }
    destruct Hs as (k1 & e1 & k2 & e2 & Hs & Hu1 & Hu2).
    rewrite Hs in Ek.
    apply lookup_insert_Some in Ek as [[<- _] | [_ Ek]]; [eauto|].
    apply lookup_insert_Some in Ek as [[<- _] | [_ Ek]]; [eauto|].
    rewrite lookup_empty in Ek. discriminate.
Defined.

(** X9: the sliding windows of the
    rate limiter live in the same store as the cache.  While any of them
    is there, [invalidate_cache] with a pattern does not complete: the
    [GET] it issues on the sorted set is refused, and the exception is
    not among those the loop skips. *)
Theorem invalidate_pattern_fails_on_window (p : string) (w : world) (client_ip : string)
    (z : gmap string Z) (ex : option Z) :
  redis_up w = true -> PyStr.nonempty p = true ->
  Redis.lookup (now w) (rate_limit_key client_ip) (store w)
    = Some {| Redis.value := Redis.RZSet z; Redis.expires := ex |} ->
  exists e w', invalidate_cache (Some p) w = (Raise e, w').
Proof.
  intros Hup Hp Hl.
  unfold invalidate_cache. rewrite Hp. unfold mbind, M_bind, redis_scan. rewrite Hup.
  apply (InvalidateFacts.for_each_invalidate_window p (rate_limit_key client_ip) z ex).
  - apply InvalidateFacts.NoDup_scan.
  - apply StoreFacts.elem_of_scan. unfold Redis.lookup in Hl.
    destruct (store w !! rate_limit_key client_ip) as [e|]; [|discriminate].
    destruct (Redis.live (now w) e) eqn:El; [|discriminate]. eauto.
  - exact Hup.
  - exact Hl.
Qed.

Lemma invalidate_pattern_fails_on_window_witness :
  exists e w', invalidate_cache (Some "/x") w_two_seen = (Raise e, w').
Proof.
  eapply (invalidate_pattern_fails_on_window "/x" w_two_seen client).
  - reflexivity.
  - reflexivity.
  - vm_compute. reflexivity.
Defined.

(** X10: [should_filter] blocks a url exactly when
    some rule that is not the empty string occurs in it, the rule and
    the url both taken in lower case; the headers play no part, and an
    empty list of rules blocks nothing. *)
Theorem should_filter_iff (rules : list string) (url : string)
    (headers : list (string * string)) :
  RequestFilter.should_filter rules url headers = true <->
  exists rule, rule ∈ rules /\ rule <> EmptyString /\
               PyStr.contains (PyStr.lower rule) (PyStr.lower url) = true.
Proof.
  unfold RequestFilter.should_filter. destruct rules as [|r rules].
  - split; [discriminate | intros (rule & Hin & _); inversion Hin].
  - apply FilterFacts.matches_any_iff.
Qed.

(** X11: a request whose url is blocked is
    answered [403 Forbidden] and goes no further: it is counted in
    [requests_total] and in its method, the connection is closed and
    given back ([active_connections] down by one), and the store, the
    cache counters and the success and error counters are as before. *)
Theorem filtered_request_is_refused (E : env) (cfg : config) (c : nat)
    (method path : string) (headers : list (string * string)) (body : option bytes)
    (w : world) (s : socket) (t a : Z) :
  RequestFilter.should_filter (REQUEST_FILTERS cfg) path headers = true ->
  sockets w !! c = Some s -> peer_open s = true -> closed s = false ->
  stats w !! "requests_total" = Some t -> stats w !! "active_connections" = Some a ->
  let w' := snd (_handle_client_request E cfg c (ReadRequest method path headers body) w) in
  sockets w' !! c
    = Some {| peer_open := true; sent := sent s ++ [error_response 403 "Forbidden"];
              closed := true |} /\
  stats w' = <["active_connections" := a - 1]> (<["requests_total" := t + 1]> (stats w)) /\
  store w' = store w /\
  request_methods w' = request_methods (counted method w).
Proof.
  intros Hf Hs Hp Hc Ht Ha w'. subst w'.
  rewrite HandlerFacts.handler_run. unfold try_except.
  rewrite HandlerFacts.handle_request_run.
  unfold classify. rewrite Hf. cbn [mret M_ret dispatch].
  unfold mbind, M_bind, logger. cbn [fst snd].
  unfold _send_error_response, try_except.
  rewrite (ReplyFacts.sendall_open c _ _ s); cbn [sockets set_log];
    [| rewrite ReplyFacts.counted_sockets; exact Hs | exact Hp | exact Hc].
  cbn [fst snd].
  unfold handler_finally, mbind, M_bind, close. cbn [sockets set_sockets set_log].
  rewrite lookup_insert_eq. cbn.
  unfold Statistics.decrement. cbn.
  rewrite (FilterFacts.counted_stats method w t Ht).
  rewrite lookup_insert_ne by discriminate. rewrite Ha. cbn.
  rewrite lookup_insert_eq, FilterFacts.counted_store.
  repeat split; reflexivity.
Qed.

Lemma filtered_request_is_refused_witness :
  sockets w_refused !! 1%nat
    = Some {| peer_open := true;
              sent := sent fresh_socket ++ [error_response 403 "Forbidden"];
              closed := true |} /\
  stats w_refused
    = <["active_connections" := 0 - 1]> (<["requests_total" := 0 + 1]> (stats w_conn)) /\
  store w_refused = store w_conn /\
  request_methods w_refused = request_methods (counted "GET" w_conn).
Proof.
  apply (filtered_request_is_refused E_hello DEFAULT_CONFIG 1%nat "GET" "/Ads/banner.js"
           [] None w_conn fresh_socket 0 0); reflexivity.
Defined.



(** X13: [_send_response_to_client] and
    [_send_error_response] return normally on every input, the socket
    being closed or the response not being printable included, and
    neither touches a counter or the store. *)
Theorem senders_never_raise (E : env) (cfg : config) (c : nat) (response_data : pyval)
    (code : Z) (reason : string) (w : world) :
  fst (_send_response_to_client E cfg c response_data w) = Ok tt /\
  stats (snd (_send_response_to_client E cfg c response_data w)) = stats w /\
  store (snd (_send_response_to_client E cfg c response_data w)) = store w /\
  fst (_send_error_response c code reason w) = Ok tt /\
  stats (snd (_send_error_response c code reason w)) = stats w /\
  store (snd (_send_error_response c code reason w)) = store w.
Proof.
  split; [apply ReplyRuns.send_response_ok|].
  split; [apply ReplyRuns.send_response_stats|].
  split; [apply ReplyRuns.send_response_store|].
  split; [apply ReplyRuns.send_error_ok|].
  split; [apply ReplyRuns.send_error_stats | apply ReplyRuns.send_error_store].
Qed.

(** X14: [_forward_request] returns
    normally whatever the origin, the store and the client do, and it
    counts the request exactly once: either [requests_success] or
    [requests_error] goes up by one, never both and never neither, and
    beyond these two only [bytes_transferred] can change. *)
Theorem forward_counts_exactly_once (E : env) (cfg : config) (c : nat)
    (method path : string) (headers : list (string * string)) (body : option bytes)
    (w : world) (s e : Z) :
  stats w !! "requests_success" = Some s ->
  stats w !! "requests_error" = Some e ->
  fst (_forward_request E cfg c method path headers body w) = Ok tt /\
  ((stats (snd (_forward_request E cfg c method path headers body w)) !! "requests_success"
      = Some (s + 1) /\
    stats (snd (_forward_request E cfg c method path headers body w)) !! "requests_error"
      = Some e) \/
   (stats (snd (_forward_request E cfg c method path headers body w)) !! "requests_success"
      = Some s /\
    stats (snd (_forward_request E cfg c method path headers body w)) !! "requests_error"
      = Some (e + 1))) /\
  forall stat,
    stat <> "requests_success" -> stat <> "requests_error" -> stat <> "bytes_transferred" ->
    stats (snd (_forward_request E cfg c method path headers body w)) !! stat
      = stats w !! stat.
Proof.
  intros Hs He.
  destruct (ForwardRuns.forward_outcome E cfg c method path headers body w s e Hs He)
    as (w' & -> & Hst).
  cbn [fst snd]. split; [reflexivity|].
  destruct Hst as [[n ->] | ->].
  - unfold counted_success. split.
    + left. destruct (stats w !! "bytes_transferred");
        rewrite ?lookup_insert_ne by discriminate;
        rewrite lookup_insert_eq, ?lookup_insert_ne by discriminate; auto.
    + intros stat H1 H2 H3. destruct (stats w !! "bytes_transferred");
        rewrite !lookup_insert_ne by congruence; reflexivity.
  - split.
    + right. rewrite lookup_insert_ne by discriminate. rewrite lookup_insert_eq. auto.
    + intros stat H1 H2 H3. rewrite lookup_insert_ne by congruence. reflexivity.
Qed.

Lemma forward_counts_exactly_once_witness :
  fst (_forward_request E_hello DEFAULT_CONFIG 1%nat "GET" "/x" [] None w_conn) = Ok tt /\
  ((stats (snd (_forward_request E_hello DEFAULT_CONFIG 1%nat "GET" "/x" [] None w_conn))
      !! "requests_success" = Some (0 + 1) /\
    stats (snd (_forward_request E_hello DEFAULT_CONFIG 1%nat "GET" "/x" [] None w_conn))
      !! "requests_error" = Some 0) \/
   (stats (snd (_forward_request E_hello DEFAULT_CONFIG 1%nat "GET" "/x" [] None w_conn))
      !! "requests_success" = Some 0 /\
    stats (snd (_forward_request E_hello DEFAULT_CONFIG 1%nat "GET" "/x" [] None w_conn))
      !! "requests_error" = Some (0 + 1))) /\
  forall stat,
    stat <> "requests_success" -> stat <> "requests_error" -> stat <> "bytes_transferred" ->
    stats (snd (_forward_request E_hello DEFAULT_CONFIG 1%nat "GET" "/x" [] None w_conn))
      !! stat = stats w_conn !! stat.
Proof.
  apply (forward_counts_exactly_once E_hello DEFAULT_CONFIG 1%nat "GET" "/x" [] None
           w_conn 0 0); reflexivity.
Defined.

(** X15: when the origin does not answer,
    the client gets one error reply and nothing else: [504 Gateway
    Timeout] for a timeout, [502 Bad Gateway] for any other failure of
    the transport, [500 Internal Server Error] for anything else.
    [requests_error] goes up by one, no other counter moves, and the
    store is not written. *)
Theorem origin_failure_is_answered (E : env) (cfg : config) (c : nat)
    (method path url : string) (headers : list (string * string)) (body : option bytes)
    (w : world) (s : socket) (e : Z) (failure : origin_outcome) (code : Z) (reason : string) :
  (failure, code, reason) ∈ failure_replies ->
  backend_url E cfg path = Some url ->
  origin E method url headers (sent_body body) = failure ->
  sockets w !! c = Some s -> peer_open s = true -> closed s = false ->
  stats w !! "requests_error" = Some e ->
  fst (_forward_request E cfg c method path headers body w) = Ok tt /\
  sockets (snd (_forward_request E cfg c method path headers body w)) !! c
    = Some {| peer_open := true; sent := sent s ++ [error_response code reason];
              closed := false |} /\
  stats (snd (_forward_request E cfg c method path headers body w))
    = <["requests_error" := e + 1]> (stats w) /\
  store (snd (_forward_request E cfg c method path headers body w)) = store w.
Proof.
  intros Hin Hurl Ho Hs Hp Hc He.
  assert (Hrun : exists w',
            _forward_request E cfg c method path headers body w = (Ok tt, w') /\
            sockets w' !! c
              = Some {| peer_open := true; sent := sent s ++ [error_response code reason];
                        closed := false |} /\
            stats w' = <["requests_error" := e + 1]> (stats w) /\
            store w' = store w).
  { destruct (ForwardRuns.select_backend_run E cfg path url w Hurl) as (b & Hsel & Hb).
    unfold _forward_request, try_except.
    unfold mbind at 1. unfold M_bind at 1. rewrite Hsel. rewrite Hb.
    unfold mbind at 1. unfold M_bind at 1. unfold logger at 1.
    unfold mbind at 1. unfold M_bind at 1. unfold session_request.
    fold (sent_body body). rewrite Ho.
    unfold failure_replies in Hin.
    repeat (apply elem_of_cons in Hin as [[= -> -> ->] | Hin]); [| | | inversion Hin].
    - cbn [raise].
      match goal with
      | |- context [(logger ?l ?msg;; _send_error_response c ?code ?reason;; _) ?w0] =>
          destruct (ForwardRuns.error_tail_open l msg c code reason w0 s e Hs Hp Hc He)
            as (w' & -> & Hk & Hst & Hdb)
      end. exists w'. auto.
    - cbn [raise].
      match goal with
      | |- context [(logger ?l ?msg;; _send_error_response c ?code ?reason;; _) ?w0] =>
          destruct (ForwardRuns.error_tail_open l msg c code reason w0 s e Hs Hp Hc He)
            as (w' & -> & Hk & Hst & Hdb)
      end. exists w'. auto.
    - cbn [raise].
      match goal with
      | |- context [(logger ?l ?msg;; _send_error_response c ?code ?reason;; _) ?w0] =>
          destruct (ForwardRuns.error_tail_open l msg c code reason w0 s e Hs Hp Hc He)
            as (w' & -> & Hk & Hst & Hdb)
      end. exists w'. auto.
  }
  destruct Hrun as (w' & -> & Hk & Hst & Hdb). cbn [fst snd]. auto.
Qed.

Lemma origin_failure_is_answered_witness :
  fst (_forward_request E_timeout DEFAULT_CONFIG 1%nat "GET" "/x" [] None w_conn) = Ok tt /\
  sockets (snd (_forward_request E_timeout DEFAULT_CONFIG 1%nat "GET" "/x" [] None w_conn))
      !! 1%nat
    = Some {| peer_open := true;
              sent := sent fresh_socket ++ [error_response 504 "Gateway Timeout"];
              closed := false |} /\
  stats (snd (_forward_request E_timeout DEFAULT_CONFIG 1%nat "GET" "/x" [] None w_conn))
    = <["requests_error" := 0 + 1]> (stats w_conn) /\
  store (snd (_forward_request E_timeout DEFAULT_CONFIG 1%nat "GET" "/x" [] None w_conn))
    = store w_conn.
Proof.
  apply (origin_failure_is_answered E_timeout DEFAULT_CONFIG 1%nat "GET" "/x"
           "http://localhost:8000/x" [] None w_conn fresh_socket 0
           OriginTimesOut 504 "Gateway Timeout").
  - left.
  - reflexivity.
  - reflexivity.
  - reflexivity.
  - reflexivity.
  - reflexivity.
  - reflexivity.
Defined.

(** X16: an answer of the origin to a
    request that is not a GET, or an answer whose status is outside
    200-399, is relayed to the client as it is, error statuses included,
    and counted as a success with the bytes of its content; the store is
    not written. *)
Theorem uncacheable_answer_is_relayed (E : env) (cfg : config) (c : nat)
    (method path url : string) (headers : list (string * string)) (body : option bytes)
    (w : world) (sk : socket) (s : Z) (status : Z) (hs : list (string * string))
    (content data : bytes) :
  backend_url E cfg path = Some url ->
  origin E method url headers (sent_body body) = OriginResponse status hs content ->
  String.eqb method "GET" = false \/ status < 200 \/ 400 <= status ->
  compose_response E cfg
    (PDict (response_dict {| resp_status_code := status; resp_headers := hs;
                             resp_content := content; resp_url := url |})) = Some data ->
  sockets w !! c = Some sk -> peer_open sk = true -> closed sk = false ->
  stats w !! "requests_success" = Some s ->
  fst (_forward_request E cfg c method path headers body w) = Ok tt /\
  sockets (snd (_forward_request E cfg c method path headers body w)) !! c
    = Some {| peer_open := true; sent := sent sk ++ [data]; closed := false |} /\
  stats (snd (_forward_request E cfg c method path headers body w))
    = counted_success (Z.of_nat (length content)) s (stats w) /\
  store (snd (_forward_request E cfg c method path headers body w)) = store w.
Proof.
  intros Hurl Ho Hno Hdata Hs Hp Hc Hst.
  assert (Hrun : exists w',
            _forward_request E cfg c method path headers body w = (Ok tt, w') /\
            sockets w' !! c
              = Some {| peer_open := true; sent := sent sk ++ [data]; closed := false |} /\
            stats w' = counted_success (Z.of_nat (length content)) s (stats w) /\
            store w' = store w).
  { destruct (ForwardRuns.select_backend_run E cfg path url w Hurl) as (b & Hsel & Hb).
    unfold _forward_request, try_except.
    unfold mbind at 1. unfold M_bind at 1. rewrite Hsel. rewrite Hb.
    unfold mbind at 1. unfold M_bind at 1. unfold logger at 1.
    unfold mbind at 1. unfold M_bind at 1. unfold session_request.
    fold (sent_body body). rewrite Ho. cbn [mret M_ret resp_status_code resp_content].
    assert (Hcond : (String.eqb method "GET" && (200 <=? status) && (status <? 400))%bool
                    = false).
    { destruct Hno as [-> | [H | H]]; [reflexivity | |].
      - replace (200 <=? status) with false by (symmetry; apply Z.leb_gt; lia).
        apply andb_false_iff. left. apply andb_false_r.
      - replace (status <? 400) with false by (symmetry; apply Z.ltb_ge; lia).
        apply andb_false_r. }
    rewrite Hcond.
    unfold mbind at 1. unfold M_bind at 1. cbn [mret M_ret].
    unfold mbind at 1. unfold M_bind at 1.
    unfold _send_response_to_client, try_except. rewrite Hdata.
    rewrite (ReplyFacts.sendall_open c _
               (set_log (log w ++ [(INFO, "Forwarding request")]) w) sk Hs Hp Hc).
    match goal with
    | |- context [(Statistics.increment "requests_success" 1;; _ ) ?w0] =>
        destruct (ForwardRuns.success_tail (Z.of_nat (length content)) w0 s Hst)
          as (w' & -> & Hdb & Hst' & Hk)
    end.
    exists w'. split; [reflexivity|].
    split; [|split; [exact Hst' | exact Hdb]].
    rewrite Hk. cbn. apply lookup_insert_eq. }
  destruct Hrun as (w' & -> & Hk & Hst' & Hdb). cbn [fst snd]. auto.
Qed.

Lemma uncacheable_answer_is_relayed_witness :
  fst (_forward_request E_missing DEFAULT_CONFIG 1%nat "GET" "/x" [] None w_conn) = Ok tt /\
  sockets (snd (_forward_request E_missing DEFAULT_CONFIG 1%nat "GET" "/x" [] None w_conn))
      !! 1%nat
    = Some {| peer_open := true;
              sent := sent fresh_socket
                      ++ [default [] (compose_response E_missing DEFAULT_CONFIG
                                        (PDict (response_dict r_missing)))];
              closed := false |} /\
  stats (snd (_forward_request E_missing DEFAULT_CONFIG 1%nat "GET" "/x" [] None w_conn))
    = counted_success (Z.of_nat (length hello)) 0 (stats w_conn) /\
  store (snd (_forward_request E_missing DEFAULT_CONFIG 1%nat "GET" "/x" [] None w_conn))
    = store w_conn.
Proof.
  apply (uncacheable_answer_is_relayed E_missing DEFAULT_CONFIG 1%nat "GET" "/x"
           "http://localhost:8000/x" [] None w_conn fresh_socket 0 404
           [("Content-Type", "text/plain")] hello
           (default [] (compose_response E_missing DEFAULT_CONFIG
                          (PDict (response_dict r_missing))))).
  - reflexivity.
  - reflexivity.
  - right. right. lia.
  - vm_compute. reflexivity.
  - reflexivity.
  - reflexivity.
  - reflexivity.
  - reflexivity.
Defined.

(** X17: whatever the client sent and whatever
    happened on the way (a read that failed, a request refused, a store
    or an origin that did not answer), [_handle_client_request] returns
    normally, leaves the client socket closed and takes exactly one off
    [active_connections]. *)
Theorem handler_always_cleans_up (E : env) (cfg : config) (c : nat) (r : read_outcome)
    (w : world) (sk : socket) (a : Z) :
  sockets w !! c = Some sk ->
  stats w !! "active_connections" = Some a ->
  fst (_handle_client_request E cfg c r w) = Ok tt /\
  closed <$> sockets (snd (_handle_client_request E cfg c r w)) !! c = Some true /\
  stats (snd (_handle_client_request E cfg c r w)) !! "active_connections" = Some (a - 1).
Proof.
  intros Hs Ha. rewrite HandlerFacts.handler_run.
  pose proof (HandlerRuns.handled_ok E cfg c r w) as Hok.
  pose proof (HandlerRuns.has_socket_handled E cfg c r w) as Hsock.
  pose proof (HandlerRuns.active_connections_handled E cfg c r w) as Hact.
  destruct (try_except (handle_request E cfg c r) (handler_except c) w) as [res w1].
  cbn [fst snd] in *. subst res. split; [reflexivity|].
  unfold has_socket in Hsock. rewrite Hs in Hsock.
  destruct (sockets w1 !! c) as [s1|] eqn:E1; [|discriminate].
  unfold counter_of in Hact. rewrite Ha in Hact.
  split.
  - rewrite (ReplyFacts.handler_finally_socket c w1 s1 E1). reflexivity.
  - unfold handler_finally, mbind, M_bind, close. rewrite E1.
    unfold Statistics.decrement. cbn. rewrite Hact. cbn. apply lookup_insert_eq.
Qed.

Lemma handler_always_cleans_up_witness :
  fst (_handle_client_request E_timeout DEFAULT_CONFIG 1%nat get_x w_accepted) = Ok tt /\
  closed <$> sockets (snd (_handle_client_request E_timeout DEFAULT_CONFIG 1%nat get_x
                             w_accepted)) !! 1%nat = Some true /\
  stats (snd (_handle_client_request E_timeout DEFAULT_CONFIG 1%nat get_x w_accepted))
    !! "active_connections" = Some (1 - 1).
Proof.
  apply (handler_always_cleans_up E_timeout DEFAULT_CONFIG 1%nat get_x w_accepted
           fresh_socket 1); reflexivity.
Defined.

(** X18: the counters of a server agree with each
    other however it is used.  After any sequence of accepted
    connections, handled requests, clock ticks and store outages,
    [requests_total] is the sum of the five method counters (a method
    that is none of GET, POST, PUT, DELETE being counted under OTHER),
    and [requests_success] and [requests_error], neither of them
    negative, add up to [requests_total] at most: a request is counted
    as a success or as an error, or as neither, never as both. *)
Theorem server_accounting (cfg : config) (t0 : Z) (events : list event) :
  Statistics.counter "requests_total" (run cfg events (initial_world t0))
    = methods_total (run cfg events (initial_world t0)) /\
  0 <= Statistics.counter "requests_success" (run cfg events (initial_world t0)) /\
  0 <= Statistics.counter "requests_error" (run cfg events (initial_world t0)) /\
  Statistics.counter "requests_success" (run cfg events (initial_world t0))
  + Statistics.counter "requests_error" (run cfg events (initial_world t0))
    <= Statistics.counter "requests_total" (run cfg events (initial_world t0)).
Proof.
  destruct (RunFacts.accounted_run cfg events (initial_world t0)
              (RunFacts.accounted_initial t0))
    as (t & s & e & Ht & Hs & He & Hs0 & He0 & Hle & Hm & _).
  unfold Statistics.counter. rewrite Ht, Hs, He, Hm. cbn. repeat split; auto.
Qed.

(** X19: a request written the usual way is read
    back as it was written.  The request line gives the method and the
    path, whatever the white space between them; every header line
    gives its name and its value, in the order of the lines; what
    follows the blank line is the body, and a request with nothing after
    the blank line has no body. *)
Theorem parse_render_request (E : env) (method path version : string)
    (headers : list (string * string)) (body : bytes) :
  (forall b, forallb Wire.is_ascii_byte b = true ->
             utf8_decode_ignore E b = string_of_list_ascii b) ->
  Wire.token method = true -> Wire.token path = true -> Wire.token version = true ->
  forallb Wire.well_formed_header headers = true ->
  Json.distinct (map fst headers) = true ->
  Wire.parse_request E (Wire.render_request method path version headers body)
  = ReadRequest method path headers (match body with [] => None | _ => Some body end).
Proof. apply WireFacts.parse_render. Qed.

Lemma parse_render_request_witness :
  Wire.parse_request E_hello (Wire.render_request "POST" "/submit" "HTTP/1.1" two_headers hello)
  = ReadRequest "POST" "/submit" two_headers (match hello with [] => None | _ => Some hello end).
Proof.
  apply (parse_render_request E_hello "POST" "/submit" "HTTP/1.1" two_headers hello).
  - intros b _. reflexivity.
  - reflexivity.
  - reflexivity.
  - reflexivity.
  - reflexivity.
  - reflexivity.
Defined.

(** X20: the handler stops reading at the
    first chunk that completes the blank line (or when the peer closes).
    Whatever the client sends after that chunk, the rest of a body
    included, is never read and has no effect on the request that is
    handled. *)
Theorem later_chunks_are_not_read (E : env) (reads more : list Wire.recv_result)
    (request_data : bytes) :
  Wire.recv_all reads [] = Ok request_data ->
  Wire.read_request E (reads ++ more) = Wire.parse_request E request_data.
Proof.
  intros H. unfold Wire.read_request.
  rewrite (WireFacts.recv_all_more reads more [] request_data H). reflexivity.
Qed.

Lemma later_chunks_are_not_read_witness :
  Wire.read_request E_hello
    ([Wire.Received (Wire.render_request "POST" "/submit" "HTTP/1.1" two_headers [])]
     ++ [Wire.Received hello])
  = Wire.parse_request E_hello (Wire.render_request "POST" "/submit" "HTTP/1.1" two_headers []).
Proof.
  apply (later_chunks_are_not_read E_hello
           [Wire.Received (Wire.render_request "POST" "/submit" "HTTP/1.1" two_headers [])]
           [Wire.Received hello]).
  vm_compute. reflexivity.
Defined.

(** X21: a request whose first line
    is not made of exactly three words is answered [400 Bad Request]:
    nothing else is sent, the connection is closed and given back, and
    the request is counted nowhere, neither in [requests_total] nor
    under a method nor as an error. *)
Theorem malformed_request_line_is_refused (E : env) (cfg : config) (c : nat)
    (reads : list Wire.recv_result) (request_data : bytes) (w : world) (sk : socket) (a : Z) :
  Wire.recv_all reads [] = Ok request_data -> request_data <> [] ->
  length (Wire.words (list_ascii_of_string
            (utf8_decode_ignore E (hd [] (Wire.split_crlf request_data))))) <> 3%nat ->
  sockets w !! c = Some sk -> peer_open sk = true -> closed sk = false ->
  stats w !! "active_connections" = Some a ->
  fst (handle_connection E cfg c reads w) = Ok tt /\
  sockets (snd (handle_connection E cfg c reads w)) !! c
    = Some {| peer_open := true; sent := sent sk ++ [error_response 400 "Bad Request"];
              closed := true |} /\
  stats (snd (handle_connection E cfg c reads w))
    = <["active_connections" := a - 1]> (stats w) /\
  request_methods (snd (handle_connection E cfg c reads w)) = request_methods w /\
  store (snd (handle_connection E cfg c reads w)) = store w.
Proof.
  intros Hread Hne Hlen Hs Hp Hc Ha.
  unfold handle_connection, Wire.read_request. rewrite Hread.
  rewrite (WireFacts.parse_bad_request_line E request_data Hne Hlen).
  rewrite HandlerFacts.handler_run. unfold try_except. cbn [handle_request].
  unfold mbind, M_bind, logger. unfold _send_error_response, try_except.
  rewrite (ReplyFacts.sendall_open c _ (set_log (log w ++ [(ERROR, "Invalid request line")]) w)
             sk Hs Hp Hc).
  cbn [fst snd]. unfold handler_finally, mbind, M_bind, close.
  cbn [sockets set_sockets set_log]. rewrite lookup_insert_eq. cbn.
  unfold Statistics.decrement. cbn. rewrite Ha. cbn. rewrite lookup_insert_eq.
  repeat split; reflexivity.
Qed.

Lemma malformed_request_line_is_refused_witness :
  fst (handle_connection E_hello DEFAULT_CONFIG 1%nat
         [Wire.Received (list_ascii_of_string "GET /x" ++ Wire.blank_line)] w_accepted)
    = Ok tt /\
  sockets (snd (handle_connection E_hello DEFAULT_CONFIG 1%nat
                  [Wire.Received (list_ascii_of_string "GET /x" ++ Wire.blank_line)]
                  w_accepted)) !! 1%nat
    = Some {| peer_open := true;
              sent := sent fresh_socket ++ [error_response 400 "Bad Request"];
              closed := true |} /\
  stats (snd (handle_connection E_hello DEFAULT_CONFIG 1%nat
                [Wire.Received (list_ascii_of_string "GET /x" ++ Wire.blank_line)]
                w_accepted))
    = <["active_connections" := 1 - 1]> (stats w_accepted) /\
  request_methods (snd (handle_connection E_hello DEFAULT_CONFIG 1%nat
                          [Wire.Received (list_ascii_of_string "GET /x" ++ Wire.blank_line)]
                          w_accepted)) = request_methods w_accepted /\
  store (snd (handle_connection E_hello DEFAULT_CONFIG 1%nat
                [Wire.Received (list_ascii_of_string "GET /x" ++ Wire.blank_line)]
                w_accepted)) = store w_accepted.
Proof.
  apply (malformed_request_line_is_refused E_hello DEFAULT_CONFIG 1%nat
           [Wire.Received (list_ascii_of_string "GET /x" ++ Wire.blank_line)]
           (list_ascii_of_string "GET /x" ++ Wire.blank_line) w_accepted fresh_socket 1).
  - reflexivity.
  - discriminate.
  - vm_compute. lia.
  - reflexivity.
  - reflexivity.
  - reflexivity.
  - reflexivity.
Defined.

(** X22: a client that stops sending before
    the blank line, without closing, runs into the timeout of the
    socket: it is answered [408 Request Timeout], the connection is
    closed and given back, and nothing is counted. *)
Theorem silent_client_times_out (E : env) (cfg : config) (c : nat)
    (reads : list Wire.recv_result) (w : world) (sk : socket) (a : Z) :
  Wire.recv_all reads [] = Raise SocketTimeout ->
  sockets w !! c = Some sk -> peer_open sk = true -> closed sk = false ->
  stats w !! "active_connections" = Some a ->
  fst (handle_connection E cfg c reads w) = Ok tt /\
  sockets (snd (handle_connection E cfg c reads w)) !! c
    = Some {| peer_open := true; sent := sent sk ++ [error_response 408 "Request Timeout"];
              closed := true |} /\
  stats (snd (handle_connection E cfg c reads w))
    = <["active_connections" := a - 1]> (stats w) /\
  request_methods (snd (handle_connection E cfg c reads w)) = request_methods w /\
  store (snd (handle_connection E cfg c reads w)) = store w.
Proof.
  intros Hread Hs Hp Hc Ha.
  unfold handle_connection, Wire.read_request. rewrite Hread.
  rewrite HandlerFacts.handler_run. unfold try_except. cbn [handle_request raise handler_except].
  unfold mbind, M_bind, logger. unfold _send_error_response, try_except.
  rewrite (ReplyFacts.sendall_open c _ (set_log (log w ++ [(WARNING, "Connection timeout")]) w)
             sk Hs Hp Hc).
  cbn [fst snd]. unfold handler_finally, mbind, M_bind, close.
  cbn [sockets set_sockets set_log]. rewrite lookup_insert_eq. cbn.
  unfold Statistics.decrement. cbn. rewrite Ha. cbn. rewrite lookup_insert_eq.
  repeat split; reflexivity.
Qed.

Lemma silent_client_times_out_witness :
  fst (handle_connection E_hello DEFAULT_CONFIG 1%nat
         [Wire.Received (list_ascii_of_string "GET /x HTTP/1.1")] w_accepted) = Ok tt /\
  sockets (snd (handle_connection E_hello DEFAULT_CONFIG 1%nat
                  [Wire.Received (list_ascii_of_string "GET /x HTTP/1.1")] w_accepted))
      !! 1%nat
    = Some {| peer_open := true;
              sent := sent fresh_socket ++ [error_response 408 "Request Timeout"];
              closed := true |} /\
  stats (snd (handle_connection E_hello DEFAULT_CONFIG 1%nat
                [Wire.Received (list_ascii_of_string "GET /x HTTP/1.1")] w_accepted))
    = <["active_connections" := 1 - 1]> (stats w_accepted) /\
  request_methods (snd (handle_connection E_hello DEFAULT_CONFIG 1%nat
                          [Wire.Received (list_ascii_of_string "GET /x HTTP/1.1")]
                          w_accepted)) = request_methods w_accepted /\
  store (snd (handle_connection E_hello DEFAULT_CONFIG 1%nat
                [Wire.Received (list_ascii_of_string "GET /x HTTP/1.1")] w_accepted))
    = store w_accepted.
Proof.
  apply (silent_client_times_out E_hello DEFAULT_CONFIG 1%nat
           [Wire.Received (list_ascii_of_string "GET /x HTTP/1.1")]
           w_accepted fresh_socket 1); reflexivity.
Defined.

(** X23: once [cache_response] has stored the
    answer to a GET request, the same request, handled while the entry
    lives, is answered from the store: the client gets the stored
    status, headers and body as [_send_response_to_client] composes
    them, [cache_hits] goes up by one, and the request is not forwarded,
    neither [requests_success] nor [requests_error] nor
    [bytes_transferred] moving and the store staying as it is. *)
Theorem cache_hit_is_served (E : env) (cfg : config) (c : nat) (path : string)
    (headers : list (string * string)) (body : option bytes) (r : response)
    (w0 : world) (d : Z) (data : bytes) (sk : socket) (t h a : Z) :
  redis_up w0 = true -> 0 < CACHE_EXPIRATION cfg ->
  resp_status_code r < 400 -> forbids_caching r = false ->
  Json.distinct (map fst (resp_headers r)) = true ->
  0 <= d < CACHE_EXPIRATION cfg ->
  RequestFilter.should_filter (REQUEST_FILTERS cfg) path headers = false ->
  path <> "/proxy-stats" ->
  compose_response E cfg (PDict (restored r)) = Some data ->
  sockets w0 !! c = Some sk -> peer_open sk = true -> closed sk = false ->
  stats w0 !! "requests_total" = Some t -> stats w0 !! "cache_hits" = Some h ->
  stats w0 !! "active_connections" = Some a ->
  exists w1,
    cache_response E cfg "GET" path headers r body w0 = (Ok tt, w1) /\
    fst (_handle_client_request E cfg c (ReadRequest "GET" path headers body) (advance d w1))
      = Ok tt /\
    sockets (snd (_handle_client_request E cfg c (ReadRequest "GET" path headers body)
                    (advance d w1))) !! c
      = Some {| peer_open := true; sent := sent sk ++ [data]; closed := true |} /\
    stats (snd (_handle_client_request E cfg c (ReadRequest "GET" path headers body)
                  (advance d w1)))
      = <["active_connections" := a - 1]>
          (<["cache_hits" := h + 1]> (<["requests_total" := t + 1]> (stats w0))) /\
    store (snd (_handle_client_request E cfg c (ReadRequest "GET" path headers body)
                  (advance d w1))) = store w1.
Proof.
  intros Hup Httl Hst Hcc Hdist Hd Hf Hpath Hdata Hs Hp Hc Ht Hh Ha.
  destruct (CacheFacts.generate_cache_key_total E "GET" path headers body) as [key Hkey].
  destruct (CacheFacts.cache_response_stores E cfg path headers body r w0 key
              Hkey Hup Httl Hst Hcc) as (text & Hdumps & Hne & Hrun).
  eexists. split; [exact Hrun|].
  set (w1 := set_store _ w0) in *.
  assert (Hrun2 : exists w',
            _handle_client_request E cfg c (ReadRequest "GET" path headers body)
              (advance d w1) = (Ok tt, w') /\
            sockets w' !! c
              = Some {| peer_open := true; sent := sent sk ++ [data]; closed := true |} /\
            stats w'
              = <["active_connections" := a - 1]>
                  (<["cache_hits" := h + 1]> (<["requests_total" := t + 1]> (stats w0))) /\
            store w' = store w1).
  { rewrite HandlerFacts.handler_run. unfold try_except.
    rewrite HandlerFacts.handle_request_run.
    unfold classify. rewrite Hf.
    replace (String.eqb path "/proxy-stats") with false
      by (symmetry; apply String.eqb_neq; exact Hpath).
    cbn [String.eqb Ascii.eqb Bool.eqb].
    unfold mbind at 1. unfold M_bind at 1.
    rewrite (CacheHitFacts.cached_lookup E path headers body r
               (counted "GET" (advance d w1)) key text
               (now w0 + CACHE_EXPIRATION cfg) Hkey).
    2:{ unfold counted, mbind, M_bind, Statistics.increment, Statistics.update_method_stat.
        cbn. rewrite Ht. cbn. destruct (request_methods w0 !! "GET"); exact Hup. }
    2:{ rewrite FilterFacts.counted_store. cbn. apply lookup_insert_eq. }
    2:{ rewrite ReplyFacts.counted_now. cbn. lia. }
    2:{ exact Hdumps. }
    2:{ exact Hne. }
    2:{ exact Hdist. }
    cbn [truthy restored mret M_ret dispatch].
    assert (Hst1 : stats (counted "GET" (advance d w1))
                   = <["requests_total" := t + 1]> (stats w0))
      by exact (FilterFacts.counted_stats "GET" (advance d w1) t Ht).
    unfold Statistics.increment at 1. rewrite Hst1.
    rewrite lookup_insert_ne by discriminate. rewrite Hh. cbn [snd].
    unfold _send_response_to_client, try_except.
    fold (restored r). rewrite Hdata.
    erewrite ReplyFacts.sendall_open; [| | exact Hp | exact Hc].
    2:{ cbn [sockets set_stats]. rewrite ReplyFacts.counted_sockets. exact Hs. }
    unfold handler_finally, mbind, M_bind, close. cbn [sockets set_sockets set_stats].
    rewrite lookup_insert_eq. cbn.
    unfold Statistics.decrement. cbn.
    rewrite lookup_insert_ne by discriminate. rewrite lookup_insert_ne by discriminate.
    rewrite Ha. cbn. eexists. split; [reflexivity|]. cbn.
    rewrite lookup_insert_eq, FilterFacts.counted_store. repeat split; reflexivity. }
  destruct Hrun2 as (w' & -> & Hk & Hst' & Hdb). cbn [fst snd]. auto.
Qed.

Lemma cache_hit_is_served_witness :
  exists w1,
    cache_response E_timeout DEFAULT_CONFIG "GET" "/x" [] r_text None w_accepted = (Ok tt, w1) /\
    fst (_handle_client_request E_timeout DEFAULT_CONFIG 1%nat get_x (advance 10 w1)) = Ok tt /\
    sockets (snd (_handle_client_request E_timeout DEFAULT_CONFIG 1%nat get_x (advance 10 w1)))
        !! 1%nat
      = Some {| peer_open := true;
                sent := sent fresh_socket
                        ++ [default [] (compose_response E_timeout DEFAULT_CONFIG
                                          (PDict (restored r_text)))];
                closed := true |} /\
    stats (snd (_handle_client_request E_timeout DEFAULT_CONFIG 1%nat get_x (advance 10 w1)))
      = <["active_connections" := 1 - 1]>
          (<["cache_hits" := 0 + 1]> (<["requests_total" := 0 + 1]> (stats w_accepted))) /\
    store (snd (_handle_client_request E_timeout DEFAULT_CONFIG 1%nat get_x (advance 10 w1)))
      = store w1.
Proof.
  apply (cache_hit_is_served E_timeout DEFAULT_CONFIG 1%nat "/x" [] None r_text w_accepted 10
           (default [] (compose_response E_timeout DEFAULT_CONFIG (PDict (restored r_text))))
           fresh_socket 0 0 1).
  - reflexivity.
  - cbn. lia.
  - cbn. lia.
  - reflexivity.
  - reflexivity.
  - cbn. lia.
  - reflexivity.
  - discriminate.
  - vm_compute. reflexivity.
  - reflexivity.
  - reflexivity.
  - reflexivity.
  - reflexivity.
  - reflexivity.
  - reflexivity.
Defined.

(** X24: a request whose method is not
    [GET] neither reads nor writes the cache: whatever its path, its
    headers, its body and the answer of the origin, handling it leaves
    every key of the store, [cache_hits] and [cache_misses] as they
    were. *)
Theorem only_get_touches_the_cache (E : env) (cfg : config) (c : nat)
    (method path : string) (headers : list (string * string)) (body : option bytes)
    (w : world) :
  method <> "GET" ->
  store (snd (_handle_client_request E cfg c (ReadRequest method path headers body) w))
    = store w /\
  stats (snd (_handle_client_request E cfg c (ReadRequest method path headers body) w))
      !! "cache_hits" = stats w !! "cache_hits" /\
  stats (snd (_handle_client_request E cfg c (ReadRequest method path headers body) w))
      !! "cache_misses" = stats w !! "cache_misses".
Proof.
  intros Hm. apply String.eqb_neq in Hm.
  pose proof (BypassFacts.cache_state_handled E cfg c method path headers body Hm w) as H.
  unfold cache_state in H. injection H as H1 H2 H3. auto.
Qed.

Lemma only_get_touches_the_cache_witness :
  store (snd (_handle_client_request E_hello DEFAULT_CONFIG 1%nat
                (ReadRequest "POST" "/x" [] (Some hello)) w_accepted))
    = store w_accepted /\
  stats (snd (_handle_client_request E_hello DEFAULT_CONFIG 1%nat
                (ReadRequest "POST" "/x" [] (Some hello)) w_accepted))
      !! "cache_hits" = stats w_accepted !! "cache_hits" /\
  stats (snd (_handle_client_request E_hello DEFAULT_CONFIG 1%nat
                (ReadRequest "POST" "/x" [] (Some hello)) w_accepted))
      !! "cache_misses" = stats w_accepted !! "cache_misses".
Proof.
  apply (only_get_touches_the_cache E_hello DEFAULT_CONFIG 1%nat "POST" "/x" []
           (Some hello) w_accepted).
  discriminate.
Defined.

(** X26: the backend chosen for a request is one of
    the configured [BACKEND_SERVERS]; with none configured the choice
    raises [IndexError], and the request is answered [500 Internal
    Server Error] and counted as an error. *)
Theorem backend_selection (E : env) (cfg : config) (c : nat) (method path : string)
    (headers : list (string * string)) (body : option bytes) (w : world) :
  (BACKEND_SERVERS cfg <> [] ->
   exists b, _select_backend_server E cfg w = (Ok b, w) /\ b ∈ BACKEND_SERVERS cfg) /\
  (BACKEND_SERVERS cfg = [] ->
   _select_backend_server E cfg w = (Raise IndexError, w) /\
   forall sk e,
     sockets w !! c = Some sk -> peer_open sk = true -> closed sk = false ->
     stats w !! "requests_error" = Some e ->
     sockets (snd (_forward_request E cfg c method path headers body w)) !! c
       = Some {| peer_open := true;
                 sent := sent sk ++ [error_response 500 "Internal Server Error"];
                 closed := false |} /\
     stats (snd (_forward_request E cfg c method path headers body w))
       = <["requests_error" := e + 1]> (stats w)).
Proof.
  split.
  - intros Hne. unfold _select_backend_server.
    destruct (BACKEND_SERVERS cfg) as [|b bs]; [congruence|].
    eexists. split; [reflexivity|].
    apply list_elem_of_In, nth_In. apply Nat.mod_upper_bound. discriminate.
  - intros Hnil. unfold _select_backend_server. rewrite Hnil.
    split; [reflexivity|]. intros sk e Hs Hp Hc He.
    destruct (ForwardRuns.error_tail_open ERROR "Error forwarding request" c 500
                "Internal Server Error" w sk e Hs Hp Hc He) as (w' & Hrun & Hk & Hst & _).
    assert (Hfw : _forward_request E cfg c method path headers body w = (Ok tt, w')).
    { unfold _forward_request, try_except, _select_backend_server. rewrite Hnil.
      unfold mbind at 1. unfold M_bind at 1. cbn [raise]. exact Hrun. }
    rewrite Hfw. cbn [snd]. auto.
Qed.

(** X27: the lists that the configuration
    reads from the environment hold no empty item, no item with white
    space around it and no comma, however the text is written.  The
    list of backends is never empty, the default standing in for a text
    without items; and the default of [--backend] is read back as
    the very list that was configured. *)
Theorem configured_lists_are_tidy (text : string) :
  Forall (fun s => Config.tidy s = true) (Config.request_filters_of text) /\
  Forall (fun s => Config.tidy s = true) (Config.backend_servers_of text) /\
  Config.backend_servers_of text <> [] /\
  Config.backends_of_argument (Config.backend_argument (Config.backend_servers_of text))
    = Config.backend_servers_of text.
Proof.
  assert (Hb : Forall (fun s => Config.tidy s = true) (Config.backend_servers_of text)).
  { unfold Config.backend_servers_of.
    pose proof (ConfigFacts.parse_list_tidy text) as H.
    destruct (Config.parse_list text); [|exact H].
    repeat constructor. }
  assert (Hne : Config.backend_servers_of text <> []).
  { unfold Config.backend_servers_of. destruct (Config.parse_list text); discriminate. }
  split; [apply ConfigFacts.parse_list_tidy|]. split; [exact Hb|]. split; [exact Hne|].
  apply ConfigFacts.argument_round_trip; assumption.
Qed.
